(** * Citation Processor: a shallow embedding of [app.py]

    Python strings are sequences of Unicode code points and are modelled as
    [list N].  Dictionaries keep insertion order and are association lists
    with unique keys.  Code that can raise is written in an error monad whose
    failures are the Python exception classes the source can meet. *)

From Stdlib Require Import List NArith ZArith Bool String Ascii Lia DecimalString.
Import ListNotations.

Set Implicit Arguments.
Set Warnings "-register-all".

(** ** Python strings *)

Definition str := list N.

(** An ASCII literal of the source as a sequence of code points. *)
Definition py (s : string) : str := map N_of_ascii (list_ascii_of_string s).

Fixpoint str_eqb (a b : str) : bool :=
  match a, b with
  | [], [] => true
  | x :: a', y :: b' => N.eqb x y && str_eqb a' b'
  | _, _ => false
  end.

(** [sep.join(parts)] *)
Fixpoint str_join (sep : str) (parts : list str) : str :=
  match parts with
  | [] => []
  | [p] => p
  | p :: ps => p ++ sep ++ str_join sep ps
  end.

(** [s.split(sep)] for a one-character separator: never an empty list. *)
Fixpoint str_split (sep : N) (s : str) : list str :=
  match s with
  | [] => [[]]
  | c :: s' =>
      if N.eqb c sep then [] :: str_split sep s'
      else match str_split sep s' with
           | p :: ps => (c :: p) :: ps
           | [] => [[c]]
           end
  end.

Fixpoint is_prefix (p s : str) : bool :=
  match p, s with
  | [], _ => true
  | x :: p', y :: s' => N.eqb x y && is_prefix p' s'
  | _ :: _, [] => false
  end.

(** [needle in hay] on strings. *)
Fixpoint str_contains (needle hay : str) : bool :=
  is_prefix needle hay ||
  match hay with
  | [] => false
  | _ :: hay' => str_contains needle hay'
  end.

Fixpoint lstrip (p : N -> bool) (s : str) : str :=
  match s with
  | c :: s' => if p c then lstrip p s' else s
  | [] => []
  end.

Definition rstrip (p : N -> bool) (s : str) : str := rev (lstrip p (rev s)).

(** ** Exceptions and results *)

Inductive exn : Type :=
| IndexError | AttributeError | TypeError | KeyError
| ExpatError | UnicodeEncodeError | BadZipFile
| ConnectionError | Timeout | JSONDecodeError.

Inductive result (A : Type) : Type :=
| Ok (a : A)
| Raise (e : exn).
Arguments Ok {A} a.
Arguments Raise {A} e.

Definition bind {A B} (r : result A) (k : A -> result B) : result B :=
  match r with
  | Ok a => k a
  | Raise e => Raise e
  end.

Notation "x <- r ;; k" := (bind r (fun x => k))
  (at level 61, r at next level, right associativity).

Definition is_ok {A} (r : result A) : bool :=
  match r with Ok _ => true | Raise _ => false end.

(** ** Dictionaries: insertion-ordered association lists *)

Section Dict.
Variable V : Type.

Definition dict := list (str * V).

Fixpoint dict_get (d : dict) (k : str) : option V :=
  match d with
  | [] => None
  | (k', v) :: d' => if str_eqb k' k then Some v else dict_get d' k
  end.

(** [d[k] = v]: an existing key keeps its position. *)
Fixpoint dict_set (d : dict) (k : str) (v : V) : dict :=
  match d with
  | [] => [(k, v)]
  | (k', v') :: d' =>
      if str_eqb k' k then (k', v) :: d' else (k', v') :: dict_set d' k v
  end.

Definition dict_mem (d : dict) (k : str) : bool :=
  match dict_get d k with Some _ => true | None => false end.
End Dict.

(** ** Python values held by citation dictionaries and JSON responses *)

Inductive pyval : Type :=
| PNone
| PBool (b : bool)
| PInt (z : Z)
| PFloat (nonzero : bool) (shown : str)
| PStr (s : str)
| PList (items : list pyval)
| PDict (items : list (str * pyval)).

(** Truth value of an object in a condition. *)
Definition truthy (v : pyval) : bool :=
  match v with
  | PNone => false
  | PBool b => b
  | PInt z => negb (Z.eqb z 0)
  | PFloat nz _ => nz
  | PStr s => match s with [] => false | _ => true end
  | PList l => match l with [] => false | _ => true end
  | PDict d => match d with [] => false | _ => true end
  end.

(** [a or b] *)
Definition py_or (a b : pyval) : pyval := if truthy a then a else b.

(** [d.get(k, default)] on a citation dictionary. *)
Definition get_or (d : dict pyval) (k : str) (default : pyval) : pyval :=
  match dict_get d k with
  | Some v => v
  | None => default
  end.

(** [d.get(k)] *)
Definition get (d : dict pyval) (k : str) : pyval := get_or d k PNone.

Definition int_str (z : Z) : str := py (NilZero.string_of_int (Z.to_int z)).

(** ** The Python runtime

    The Unicode database, [repr] of strings and standard output are not
    part of the program.  The ASCII part of the first two is written out
    below; the rest is a parameter.

    [print_error query e] is what [print] does with the line that reports
    the exception [e] caught while [query] was looked up: [None] when
    standard output takes the line, [Some e'] when writing it raises [e']
    (an encoding that cannot carry the text of [e], a closed stream). *)

Record runtime : Type := {
  uni_isspace : N -> bool;
  uni_isdecimal : N -> bool;
  uni_isalnum : N -> bool;
  uni_isupper : N -> bool;
  uni_upper : str -> str;
  uni_lower : str -> str;
  repr_str : str -> str;
  print_error : str -> exn -> option exn
}.

Definition is_ascii (c : N) : bool := N.ltb c 128.
Definition between (lo hi c : N) : bool := N.leb lo c && N.leb c hi.

Definition ascii_isspace (c : N) : bool :=
  between 9 13 c || between 28 32 c.
Definition ascii_isdigit (c : N) : bool := between 48 57 c.
Definition ascii_isupper (c : N) : bool := between 65 90 c.
Definition ascii_islower (c : N) : bool := between 97 122 c.
Definition ascii_isalnum (c : N) : bool :=
  ascii_isdigit c || ascii_isupper c || ascii_islower c.
Definition ascii_toupper (c : N) : N :=
  if ascii_islower c then (c - 32)%N else c.
Definition ascii_tolower (c : N) : N :=
  if ascii_isupper c then (c + 32)%N else c.

Section Runtime.
Context (rt : runtime).

(** [str.isspace] of one character, also the class [\s]. *)
Definition isspace (c : N) : bool :=
  if is_ascii c then ascii_isspace c else uni_isspace rt c.

(** The class [\d]. *)
Definition isdecimal (c : N) : bool :=
  if is_ascii c then ascii_isdigit c else uni_isdecimal rt c.

(** The class [\w]. *)
Definition isword (c : N) : bool :=
  if is_ascii c then ascii_isalnum c || N.eqb c 95 else uni_isalnum rt c.

(** [c.isupper()] for a one-character string. *)
Definition isupper (c : N) : bool :=
  if is_ascii c then ascii_isupper c else uni_isupper rt c.

Definition str_upper (s : str) : str :=
  if forallb is_ascii s then map ascii_toupper s else uni_upper rt s.

Definition str_lower (s : str) : str :=
  if forallb is_ascii s then map ascii_tolower s else uni_lower rt s.

(** [s.strip()] *)
Definition str_strip (s : str) : str := rstrip isspace (lstrip isspace s).

(** [repr(v)] and [str(v)] (the latter is what an f-string inserts). *)
Fixpoint py_repr (v : pyval) : str :=
  match v with
  | PNone => py "None"
  | PBool true => py "True"
  | PBool false => py "False"
  | PInt z => int_str z
  | PFloat _ shown => shown
  | PStr s => repr_str rt s
  | PList l => py "[" ++ str_join (py ", ") (map py_repr l) ++ py "]"
  | PDict d =>
      py "{" ++
      str_join (py ", ")
        (map (fun kv => repr_str rt (fst kv) ++ py ": " ++ py_repr (snd kv)) d)
      ++ py "}"
  end.

Definition py_str (v : pyval) : str :=
  match v with
  | PStr s => s
  | _ => py_repr v
  end.

(** [acc += v] where [acc] is a string. *)
Definition str_add (acc : str) (v : pyval) : result str :=
  match v with
  | PStr s => Ok (acc ++ s)
  | _ => Raise TypeError
  end.

(** ** Regular expressions

    A pattern is a backtracking matcher: from a cursor (the character
    before it, if any, and the rest of the subject) it lists the cursors
    where a match can end, in the order Python's engine tries them. *)

Definition cursor := (option N * str)%type.
Definition re := cursor -> list cursor.

Definition re_cls (p : N -> bool) : re := fun k =>
  match snd k with
  | c :: s' => if p c then [(Some c, s')] else []
  | [] => []
  end.

Definition re_chr (c : N) : re := re_cls (N.eqb c).

Definition re_seq (a b : re) : re := fun k => flat_map b (a k).
Definition re_alt (a b : re) : re := fun k => a k ++ b k.
Definition re_opt (a : re) : re := fun k => a k ++ [k].

Fixpoint re_lit (w : str) : re :=
  match w with
  | [] => fun k => [k]
  | c :: w' => re_seq (re_chr c) (re_lit w')
  end.

(** Greedy [p*] over a character class: longest first. *)
Fixpoint star_from (p : N -> bool) (prev : option N) (s : str) : list cursor :=
  match s with
  | c :: s' =>
      if p c then star_from p (Some c) s' ++ [(prev, s)] else [(prev, s)]
  | [] => [(prev, [])]
  end.

Definition re_star (p : N -> bool) : re := fun k => star_from p (fst k) (snd k).
Definition re_plus (p : N -> bool) : re := re_seq (re_cls p) (re_star p).

(** [^] without MULTILINE. *)
Definition re_bol : re := fun k =>
  match fst k with None => [k] | Some _ => [] end.

(** [$] without MULTILINE: the end, or just before a final newline. *)
Definition re_eol : re := fun k =>
  match snd k with
  | [] => [k]
  | [c] => if N.eqb c 10 then [k] else []
  | _ => []
  end.

(** [\b] *)
Definition re_wordb : re := fun k =>
  let before := match fst k with Some c => isword c | None => false end in
  let after := match snd k with c :: _ => isword c | [] => false end in
  if xorb before after then [k] else [].

(** The text consumed between the start [s] and an end cursor. *)
Definition consumed (s : str) (k : cursor) : str :=
  firstn (List.length s - List.length (snd k)) s.

(** [re.search]: leftmost start, first alternative there.  [grp] is the
    capture of interest and [rest] what must follow it. *)
Fixpoint re_search (grp rest : re) (prev : option N) (s : str) : option str :=
  match find (fun k => match rest k with [] => false | _ => true end)
             (grp (prev, s)) with
  | Some k => Some (consumed s k)
  | None =>
      match s with
      | c :: s' => re_search grp rest (Some c) s'
      | [] => None
      end
  end.

Definition re_empty : re := fun k => [k].

(** [re.sub(pattern, '', s)]: leftmost non-overlapping matches are deleted.
    [skip] counts the characters of the current match still to drop. *)
Fixpoint re_sub (m : re) (prev : option N) (s : str) (skip : nat) : str :=
  match s with
  | [] => []
  | c :: s' =>
      match skip with
      | S n => re_sub m (Some c) s' n
      | O =>
          match m (prev, s) with
          | k :: _ =>
              match List.length s - List.length (snd k) with
              | O => c :: re_sub m (Some c) s' 0
              | S n => re_sub m (Some c) s' n
              end
          | [] => c :: re_sub m (Some c) s' 0
          end
      end
  end.

End Runtime.

(** ** Operations on Python values that raise on the wrong type *)

(** [v.split(sep)] *)
Definition py_split (v : pyval) (sep : N) : result (list str) :=
  match v with
  | PStr s => Ok (str_split sep s)
  | _ => Raise AttributeError
  end.

(** [p[0]] on a string. *)
Definition str_first (p : str) : result str :=
  match p with
  | c :: _ => Ok [c]
  | [] => Raise IndexError
  end.

(** [v[0]] *)
Definition py_index0 (v : pyval) : result pyval :=
  match v with
  | PList (x :: _) => Ok x
  | PList [] => Raise IndexError
  | PStr (c :: _) => Ok (PStr [c])
  | PStr [] => Raise IndexError
  | PDict _ => Raise KeyError
  | _ => Raise TypeError
  end.

(** [v.get(k, default)] *)
Definition py_get (v : pyval) (k : str) (default : pyval) : result pyval :=
  match v with
  | PDict d => Ok (get_or d k default)
  | _ => Raise AttributeError
  end.

(** [v[k]] for a string key. *)
Definition py_item (v : pyval) (k : str) : result pyval :=
  match v with
  | PDict d =>
      match dict_get d k with
      | Some x => Ok x
      | None => Raise KeyError
      end
  | _ => Raise TypeError
  end.

(** [len(v)] *)
Definition py_len (v : pyval) : result nat :=
  match v with
  | PStr s => Ok (List.length s)
  | PList l => Ok (List.length l)
  | PDict d => Ok (List.length d)
  | _ => Raise TypeError
  end.

Section MapM.
Variables (A B : Type) (f : A -> result B).

Fixpoint mapM (l : list A) : result (list B) :=
  match l with
  | [] => Ok []
  | a :: l' => b <- f a ;; bs <- mapM l' ;; Ok (b :: bs)
  end.
End MapM.

(** ** Citation formatting *)

Definition PUBLISHER_PLACE_MAP : list (str * str) :=
  [ (py "Harvard University Press", py "Cambridge");
    (py "MIT Press", py "Cambridge");
    (py "Yale University Press", py "New Haven");
    (py "Princeton University Press", py "Princeton");
    (py "Stanford University Press", py "Stanford");
    (py "University of California Press", py "Berkeley");
    (py "University of Chicago Press", py "Chicago");
    (py "Columbia University Press", py "New York");
    (py "Cornell University Press", py "Ithaca");
    (py "Duke University Press", py "Durham");
    (py "Johns Hopkins University Press", py "Baltimore");
    (py "Oxford University Press", py "Oxford");
    (py "Cambridge University Press", py "Cambridge");
    (py "Penguin", py "New York");
    (py "Random House", py "New York");
    (py "HarperCollins", py "New York");
    (py "Simon & Schuster", py "New York") ].

Definition empty : pyval := PStr [].

Section Formatting.
Context (rt : runtime).

Fixpoint infer_loop (table : list (str * str)) (publisher : pyval)
  : result pyval :=
  match table with
  | [] => Ok empty
  | (pub, place) :: table' =>
      match publisher with
      | PStr p =>
          if str_contains (str_lower rt pub) (str_lower rt p)
             || str_contains (str_lower rt p) (str_lower rt pub)
          then Ok (PStr place)
          else infer_loop table' publisher
      | _ => Raise AttributeError
      end
  end.

Definition infer_place_from_publisher (publisher : pyval) : result pyval :=
  if negb (truthy publisher) then Ok empty
  else infer_loop PUBLISHER_PLACE_MAP publisher.

(** [citation_data.get(k, '') or ''] *)
Definition field (citation_data : dict pyval) (k : string) : pyval :=
  py_or (get_or citation_data (py k) empty) empty.

Definition format_chicago (citation_data : dict pyval) : result str :=
  let author := field citation_data "author" in
  let title := field citation_data "title" in
  let place := field citation_data "place" in
  let publisher := field citation_data "publisher" in
  let year := field citation_data "year" in
  let page := field citation_data "page" in
  let citation :=
    py_str rt author ++ py ", <em>" ++ py_str rt title ++ py "</em>" in
  citation <-
    (if truthy place || truthy publisher || truthy year then
       let citation := citation ++ py " (" in
       citation <-
         (if truthy place then
            citation <- str_add citation place ;;
            Ok (if truthy publisher || truthy year
                then citation ++ py ": " else citation)
          else Ok citation) ;;
       citation <-
         (if truthy publisher then
            citation <- str_add citation publisher ;;
            Ok (if truthy year then citation ++ py ", " else citation)
          else Ok citation) ;;
       let citation :=
         if truthy year then citation ++ py_str rt year else citation in
       Ok (citation ++ py ")")
     else Ok citation) ;;
  let citation :=
    if truthy page then citation ++ py ", " ++ py_str rt page
    else citation in
  Ok (citation ++ py ".").

Definition format_mla (citation_data : dict pyval) : result str :=
  let author := field citation_data "author" in
  let title := field citation_data "title" in
  let publisher := field citation_data "publisher" in
  let year := field citation_data "year" in
  let page := field citation_data "page" in
  author <-
    (if truthy author then
       author_parts <- py_split author 32 ;;
       if Nat.leb 2 (List.length author_parts) then
         Ok (PStr (last author_parts [] ++ py ", " ++
                   str_join (py " ") (removelast author_parts)))
       else Ok author
     else Ok author) ;;
  let citation :=
    py_str rt author ++ py ". <em>" ++ py_str rt title ++ py "</em>" in
  let citation :=
    if truthy publisher then citation ++ py ". " ++ py_str rt publisher
    else citation in
  let citation :=
    if truthy year then citation ++ py ", " ++ py_str rt year
    else citation in
  let citation :=
    if truthy page then citation ++ py ", pp. " ++ py_str rt page
    else citation in
  Ok (citation ++ py ".").

Definition format_apa (citation_data : dict pyval) : result str :=
  let author := field citation_data "author" in
  let title := field citation_data "title" in
  let place := field citation_data "place" in
  let publisher := field citation_data "publisher" in
  let year := field citation_data "year" in
  let page := field citation_data "page" in
  author <-
    (if truthy author then
       author_parts <- py_split author 32 ;;
       if Nat.leb 2 (List.length author_parts) then
         firsts <- mapM str_first (removelast author_parts) ;;
         let initials := str_join (py ". ") firsts ++ py "." in
         Ok (PStr (last author_parts [] ++ py ", " ++ initials))
       else Ok author
     else Ok author) ;;
  (* [author] is a string here: ['']  or what the split accepted *)
  let citation := py_str rt author in
  let citation :=
    if truthy year then citation ++ py " (" ++ py_str rt year ++ py ")."
    else citation in
  let citation := citation ++ py " <em>" ++ py_str rt title ++ py "</em>" in
  let citation :=
    if truthy place && truthy publisher then
      citation ++ py ". " ++ py_str rt place ++ py ": " ++ py_str rt publisher
    else if truthy publisher then citation ++ py ". " ++ py_str rt publisher
    else citation in
  let citation :=
    if truthy page then citation ++ py ", pp. " ++ py_str rt page
    else citation in
  Ok (citation ++ py ".").

Definition format_bluebook (citation_data : dict pyval) : result str :=
  let author := field citation_data "author" in
  let title := field citation_data "title" in
  let publisher := field citation_data "publisher" in
  let year := field citation_data "year" in
  let page := field citation_data "page" in
  let citation :=
    if truthy author then py_str rt author ++ py ", " else [] in
  citation <-
    (if truthy title then
       match title with
       | PStr t => Ok (citation ++ str_upper rt t)
       | _ => Raise AttributeError
       end
     else Ok (citation ++ py "UNTITLED")) ;;
  let citation :=
    if truthy page then citation ++ py " " ++ py_str rt page
    else citation in
  citation <-
    (if truthy publisher || truthy year then
       let citation := citation ++ py " (" in
       citation <-
         (if truthy publisher then str_add citation publisher
          else Ok citation) ;;
       let citation :=
         if truthy publisher && truthy year then citation ++ py " "
         else citation in
       let citation :=
         if truthy year then citation ++ py_str rt year else citation in
       Ok (citation ++ py ")")
     else Ok citation) ;;
  Ok (citation ++ py ".").

Definition format_citation (citation_data : dict pyval) (style : str)
  : result str :=
  if str_eqb style (py "chicago") then format_chicago citation_data
  else if str_eqb style (py "mla") then format_mla citation_data
  else if str_eqb style (py "apa") then format_apa citation_data
  else if str_eqb style (py "bluebook") then format_bluebook citation_data
  else format_chicago citation_data.

End Formatting.

(** ** Citation lookup *)

(** What [requests.get] does for a query: it raises, or it returns a
    response with its [ok] flag and what [response.json()] would give. *)
Inductive http_outcome : Type :=
| HttpRaises (e : exn)
| HttpResponse (ok : bool) (json : result pyval).

Definition network := str -> http_outcome.

Section Lookup.
Context (rt : runtime).

(** [doc.get(k, [None])[0] if doc.get(k) else fallback] *)
Definition first_of (doc : pyval) (k : string) (fallback : pyval)
  : result pyval :=
  present <- py_get doc (py k) PNone ;;
  if truthy present then
    values <- py_get doc (py k) (PList [PNone]) ;;
    py_index0 values
  else Ok fallback.

(** The body of the [try] block, given the outcome of the request. *)
Definition lookup_try (outcome : http_outcome) (author title : pyval)
  : result (option (dict pyval)) :=
  match outcome with
  | HttpRaises e => Raise e
  | HttpResponse ok json =>
      if ok then
        data <- json ;;
        docs <- py_get data (py "docs") PNone ;;
        if truthy docs then
          docs <- py_item data (py "docs") ;;
          n <- py_len docs ;;
          if Nat.ltb 0 n then
            docs <- py_item data (py "docs") ;;
            doc <- py_index0 docs ;;
            a <- first_of doc "author_name" author ;;
            t <- py_get doc (py "title") title ;;
            pub <- first_of doc "publisher" PNone ;;
            pl <- first_of doc "publish_place" PNone ;;
            y <- py_get doc (py "first_publish_year") PNone ;;
            let citation_data : dict pyval :=
              [ (py "author", a); (py "title", t); (py "publisher", pub);
                (py "place", pl); (py "year", y) ] in
            if negb (truthy (get citation_data (py "place")))
               && truthy (get citation_data (py "publisher")) then
              inferred <-
                infer_place_from_publisher rt
                  (get citation_data (py "publisher")) ;;
              Ok (Some (dict_set citation_data (py "place") inferred))
            else Ok (Some citation_data)
          else Ok None
        else Ok None
      else Ok None
  end.

(** The query string sent for an author and a title. *)
Definition lookup_query (author title : pyval) : str :=
  str_strip rt
    (py_str rt (py_or author empty) ++ py " " ++ py_str rt (py_or title empty)).

(** [lookup_citation]: the queries it sends, and what it returns or
    raises.  [except Exception] catches every failure of the [try] block
    and prints it; when the line is printed the final [return None] is
    reached, and when [print] raises, that exception leaves the
    function. *)
Definition lookup_citation (net : network) (author title : pyval)
  : list str * result (option (dict pyval)) :=
  if negb (truthy (py_or author title)) then ([], Ok None)
  else
    let query := lookup_query author title in
    ([query],
     match lookup_try (net query) author title with
     | Ok r => Ok r
     | Raise e =>
         match print_error rt query e with
         | None => Ok None
         | Some e' => Raise e'
         end
     end).

End Lookup.

(** ** Parsing an endnote *)

Section Parsing.
Context (rt : runtime).

Local Notation "a ';;;' b" := (re_seq a b) (at level 60, right associativity).

(** [^\s*\d+\s*] *)
Definition label_re : re :=
  re_bol ;;; re_star (isspace rt) ;;; re_plus (isdecimal rt) ;;;
  re_star (isspace rt).

(** [\b(19|20)\d{2}\b] *)
Definition year_re : re :=
  re_wordb rt ;;; re_alt (re_lit (py "19")) (re_lit (py "20")) ;;;
  re_cls (isdecimal rt) ;;; re_cls (isdecimal rt) ;;; re_wordb rt.

(** [\b(\d+(?:-\d+)?)]: the captured group of the page pattern, and
    [\s*\.?\s*$]: what has to follow it. *)
Definition page_group_re : re :=
  re_wordb rt ;;; re_plus (isdecimal rt) ;;;
  re_opt (re_chr 45 ;;; re_plus (isdecimal rt)).

Definition page_tail_re : re :=
  re_star (isspace rt) ;;; re_opt (re_chr 46) ;;; re_star (isspace rt) ;;;
  re_eol.

(** The straight double and single quotes and the curly quotes U+201C,
    U+201D, U+2018, U+2019. *)
Definition isquote (c : N) : bool :=
  existsb (N.eqb c) [34; 39; 8220; 8221; 8216; 8217]%N.

(** [^[quotes]+|[quotes]+$] *)
Definition quotes_re : re :=
  re_alt (re_bol ;;; re_plus isquote) (re_plus isquote ;;; re_eol).

Definition opt_val (o : option str) : pyval :=
  match o with
  | Some s => PStr s
  | None => PNone
  end.

Definition parse_endnote_text (text : str) : dict pyval :=
  let text := str_strip rt (re_sub label_re None text 0) in
  let citation_data : dict pyval :=
    [ (py "author", PNone); (py "title", PNone); (py "publisher", PNone);
      (py "place", PNone); (py "year", PNone); (py "page", PNone);
      (py "original_text", PStr text) ] in
  let citation_data :=
    match re_search year_re re_empty None text with
    | Some m => dict_set citation_data (py "year") (PStr m)
    | None => citation_data
    end in
  let citation_data :=
    match re_search page_group_re page_tail_re None text with
    | Some g => dict_set citation_data (py "page") (PStr g)
    | None => citation_data
    end in
  let parts := str_split 44 text in
  if Nat.leb 2 (List.length parts) then
    let potential_author := str_strip rt (nth 0 parts []) in
    let citation_data :=
      match potential_author with
      | c :: _ =>
          if isupper rt c
          then dict_set citation_data (py "author") (PStr potential_author)
          else citation_data
      | [] => citation_data
      end in
    let potential_title := str_strip rt (nth 1 parts []) in
    let potential_title := re_sub quotes_re None potential_title 0 in
    match potential_title with
    | _ :: _ => dict_set citation_data (py "title") (PStr potential_title)
    | [] => citation_data
    end
  else citation_data.

End Parsing.


(** ** The XML document object model

    [minidom] trees, restricted to the two kinds of node the program looks
    at: text and elements.  Tag and attribute names are qualified names as
    written in the file ([w:endnote], [w:id]). *)

Inductive node : Type :=
| Text (data : str)
| Element (tagName : str) (attributes : list (str * str))
          (childNodes : list node).

Definition children (n : node) : list node :=
  match n with
  | Text _ => []
  | Element _ _ ch => ch
  end.

Definition has_tag (name : str) (n : node) : bool :=
  match n with
  | Text _ => false
  | Element tag _ _ => str_eqb tag name
  end.

(** [e.getAttribute(name)]: the empty string when the attribute is absent. *)
Definition getAttribute (e : node) (name : str) : str :=
  match e with
  | Text _ => []
  | Element _ attrs _ =>
      match dict_get attrs name with
      | Some v => v
      | None => []
      end
  end.

(** [getElementsByTagName(name)] below a node: its descendant elements with
    that tag in document order (a matching element comes before the
    matching elements inside it). *)
Fixpoint elements_in (name : str) (n : node) : list node :=
  match n with
  | Text _ => []
  | Element tag _ ch =>
      (if str_eqb tag name then [n] else []) ++
      (fix below (l : list node) : list node :=
         match l with
         | [] => []
         | c :: l' => elements_in name c ++ below l'
         end) ch
  end.

Fixpoint elements_below (name : str) (l : list node) : list node :=
  match l with
  | [] => []
  | c :: l' => elements_in name c ++ elements_below name l'
  end.

Definition getElementsByTagName (e : node) (name : str) : list node :=
  elements_below name (children e).

Definition w_endnote : str := py "w:endnote".
Definition w_t : str := py "w:t".
Definition w_id : str := py "w:id".

(** [t.firstChild.nodeValue if t.firstChild else '']: the data of a text
    node, [None] for an element. *)
Definition first_value (t : node) : pyval :=
  match children t with
  | [] => empty
  | Text s :: _ => PStr s
  | Element _ _ _ :: _ => PNone
  end.

(** [''.join(values)] *)
Fixpoint join_values (values : list pyval) : result str :=
  match values with
  | [] => Ok []
  | PStr s :: values' => rest <- join_values values' ;; Ok (s ++ rest)
  | _ :: _ => Raise TypeError
  end.

(** The ids that denote the separator notes. *)
Definition reserved (endnote_id : str) : bool :=
  str_eqb endnote_id (py "-1") || str_eqb endnote_id (py "0").

Definition full_text (endnote : node) : result str :=
  join_values (map first_value (getElementsByTagName endnote w_t)).

(** The loop of [extract_endnotes] over the endnote elements. *)
Fixpoint extract_loop (notes : list node) (endnotes : dict str)
  : result (dict str) :=
  match notes with
  | [] => Ok endnotes
  | endnote :: notes' =>
      let endnote_id := getAttribute endnote w_id in
      match endnote_id with
      | _ :: _ =>
          if negb (reserved endnote_id) then
            text <- full_text endnote ;;
            extract_loop notes' (dict_set endnotes endnote_id text)
          else extract_loop notes' endnotes
      | [] => extract_loop notes' endnotes
      end
  end.

(** The endnote elements of a document whose root element is [dom]. *)
Definition document_endnotes (dom : node) : list node :=
  elements_in w_endnote dom.

(** *** Files

    The text of a file is kept as what [minidom.parseString] makes of it. *)
Inductive content : Type :=
| Xml (dom : node)
| Unparsable (written : node)
| Raw (bytes : list N).

Definition parseString (c : content) : result node :=
  match c with
  | Xml dom => Ok dom
  | Unparsable _ => Raise ExpatError
  | Raw _ => Raise ExpatError
  end.

Definition extract_endnotes (file : content) : result (dict str) :=
  dom <- parseString file ;;
  extract_loop (document_endnotes dom) [].

(** *** The write side

    [update_endnotes_xml] assigns to text nodes in place.  A node of the tree
    is named by its path from the root, so that the loop over the endnotes
    found before any assignment reaches the nodes as the assignments made
    so far have left them. *)

Definition path := list nat.

Fixpoint paths_in (name : str) (n : node) : list path :=
  match n with
  | Text _ => []
  | Element tag _ ch =>
      (if str_eqb tag name then [[]] else []) ++
      (fix below (i : nat) (l : list node) : list path :=
         match l with
         | [] => []
         | c :: l' => map (cons i) (paths_in name c) ++ below (S i) l'
         end) 0 ch
  end.

Fixpoint paths_below (name : str) (i : nat) (l : list node) : list path :=
  match l with
  | [] => []
  | c :: l' => map (cons i) (paths_in name c) ++ paths_below name (S i) l'
  end.

Fixpoint modify_nth (i : nat) (f : node -> result node) (l : list node)
  : result (list node) :=
  match l, i with
  | [], _ => Ok []
  | c :: l', O => c' <- f c ;; Ok (c' :: l')
  | c :: l', S j => l'' <- modify_nth j f l' ;; Ok (c :: l'')
  end.

(** Run [f] on the node at path [p], in place. *)
Fixpoint modify (p : path) (f : node -> result node) (n : node)
  : result node :=
  match p with
  | [] => f n
  | i :: p' =>
      match n with
      | Text _ => Ok n
      | Element tag attrs ch =>
          ch' <- modify_nth i (modify p' f) ch ;;
          Ok (Element tag attrs ch')
      end
  end.

(** [t.firstChild.nodeValue = ''] when [t] has a first child.  Only a text
    node shows the assignment. *)
Definition blank_first (ch : list node) : list node :=
  match ch with
  | Text _ :: ch' => Text [] :: ch'
  | _ => ch
  end.

(** The first inner loop: every [w:t] at or below [n] gets its first child
    blanked. *)
Fixpoint clear_node (n : node) : node :=
  match n with
  | Text _ => n
  | Element tag attrs ch =>
      let ch' := map clear_node ch in
      Element tag attrs (if str_eqb tag w_t then blank_first ch' else ch')
  end.

(** [t_elements[0].firstChild.nodeValue = text] for the first [w:t] at or
    below [n]: [None] when there is no [w:t]; [AttributeError] when that
    [w:t] has no child. *)
Fixpoint assign_in (text : str) (n : node) : option (result node) :=
  match n with
  | Text _ => None
  | Element tag attrs ch =>
      if str_eqb tag w_t then
        Some (match ch with
              | [] => Raise AttributeError
              | Text _ :: ch' => Ok (Element tag attrs (Text text :: ch'))
              | Element _ _ _ :: _ => Ok n
              end)
      else
        match (fix below (l : list node) : option (result (list node)) :=
                 match l with
                 | [] => None
                 | c :: l' =>
                     match assign_in text c with
                     | Some r => Some (c' <- r ;; Ok (c' :: l'))
                     | None =>
                         match below l' with
                         | Some r => Some (l'' <- r ;; Ok (c :: l''))
                         | None => None
                         end
                     end
                 end) ch with
        | Some r => Some (ch' <- r ;; Ok (Element tag attrs ch'))
        | None => None
        end
  end.

Fixpoint assign_below (text : str) (l : list node)
  : option (result (list node)) :=
  match l with
  | [] => None
  | c :: l' =>
      match assign_in text c with
      | Some r => Some (c' <- r ;; Ok (c' :: l'))
      | None =>
          match assign_below text l' with
          | Some r => Some (l'' <- r ;; Ok (c :: l''))
          | None => None
          end
      end
  end.

(** [^] and [$] play no part in [<em>|</em>]; the runtime is not consulted. *)
Definition em_re : re :=
  re_alt (re_lit (py "<em>")) (re_lit (py "</em>")).

(** [re.sub(r'<em>|</em>', '', formatted_text)] *)
Definition strip_em (formatted_text : str) : str :=
  re_sub em_re None formatted_text 0.

(** The body of the loop of [update_endnotes_xml] for one endnote. *)
Definition rewrite_endnote (formatted_endnotes : dict str) (endnote : node)
  : result node :=
  match endnote with
  | Text _ => Ok endnote
  | Element tag attrs ch =>
      match dict_get formatted_endnotes (getAttribute endnote w_id) with
      | Some formatted_text =>
          let ch := map clear_node ch in
          match assign_below (strip_em formatted_text) ch with
          | Some r => ch' <- r ;; Ok (Element tag attrs ch')
          | None => Ok (Element tag attrs ch)
          end
      | None => Ok endnote
      end
  end.

Fixpoint update_loop (formatted_endnotes : dict str) (notes : list path)
  (dom : node) : result node :=
  match notes with
  | [] => Ok dom
  | p :: notes' =>
      dom' <- modify p (rewrite_endnote formatted_endnotes) dom ;;
      update_loop formatted_endnotes notes' dom'
  end.

(** *** Writing a tree and reading it back

    [dom.toxml()] followed by a later [parseString]: characters XML cannot
    carry make the text unparsable, line ends are read back as LF, adjacent
    text nodes come back as one and empty ones not at all.  An attribute
    value is written with its tabs and line ends as they are, and the
    parser returns each of them as a space.  Names are those of a parsed
    document and are read back as written. *)

Definition xml_char (c : N) : bool :=
  N.eqb c 9 || N.eqb c 10 || N.eqb c 13 || between 32 55295 c
  || between 57344 65533 c || between 65536 1114111 c.

Definition surrogate (c : N) : bool := between 55296 57343 c.

Fixpoint line_ends (s : str) : str :=
  match s with
  | [] => []
  | c :: s' =>
      if N.eqb c 13 then
        10%N :: match s' with
                | d :: s'' => if N.eqb d 10 then line_ends s'' else line_ends s'
                | [] => []
                end
      else c :: line_ends s'
  end.

Fixpoint merge_text (l : list node) : list node :=
  match l with
  | [] => []
  | Text a :: l' =>
      match merge_text l' with
      | Text b :: r => Text (a ++ b) :: r
      | r => match a with [] => r | _ => Text a :: r end
      end
  | e :: l' => e :: merge_text l'
  end.

Definition read_text (n : node) : node :=
  match n with
  | Text s => Text (line_ends s)
  | Element _ _ _ => n
  end.

Fixpoint all_some {A} (l : list (option A)) : option (list A) :=
  match l with
  | [] => Some []
  | Some a :: l' =>
      match all_some l' with
      | Some r => Some (a :: r)
      | None => None
      end
  | None :: _ => None
  end.

(** An attribute value as the parser returns it: line ends first, then
    every tab and line feed as a space. *)
Definition read_value (v : str) : str :=
  map (fun c => if N.eqb c 9 || N.eqb c 10 then 32%N else c) (line_ends v).

Definition read_attributes (attrs : list (str * str)) : list (str * str) :=
  map (fun kv => (fst kv, read_value (snd kv))) attrs.

(** Every attribute value is made of characters XML can carry. *)
Definition values_ok (attrs : list (str * str)) : bool :=
  forallb (fun kv => forallb xml_char (snd kv)) attrs.

Fixpoint reparse (n : node) : option node :=
  match n with
  | Text s => if forallb xml_char s then Some n else None
  | Element tag attrs ch =>
      if values_ok attrs then
        match all_some (map reparse ch) with
        | Some ch' =>
            Some (Element tag (read_attributes attrs)
                    (map read_text (merge_text ch')))
        | None => None
        end
      else None
  end.

Fixpoint has_surrogate (n : node) : bool :=
  match n with
  | Text s => existsb surrogate s
  | Element _ attrs ch =>
      existsb (fun kv => existsb surrogate (snd kv)) attrs
      || existsb has_surrogate ch
  end.

(** [open(path, 'w', encoding='utf-8').write(dom.toxml())] *)
Definition write_xml (dom : node) : result content :=
  if has_surrogate dom then Raise UnicodeEncodeError
  else match reparse dom with
       | Some dom' => Ok (Xml dom')
       | None => Ok (Unparsable dom)
       end.

Definition update_endnotes_xml (file : content)
  (formatted_endnotes : dict str) : result content :=
  dom <- parseString file ;;
  dom <- update_loop formatted_endnotes (paths_in w_endnote dom) dom ;;
  write_xml dom.

(** ** The pipeline *)

(** The uploaded file: a zip archive with its members, or something
    [zipfile] refuses. *)
Inductive upload : Type :=
| NotZip
| Zip (members : dict content).

Definition unpack_docx (input : upload) : result (dict content) :=
  match input with
  | NotZip => Raise BadZipFile
  | Zip members => Ok members
  end.

Record log_entry : Type := {
  log_id : str;
  log_original : str;
  log_formatted : str
}.

(** The text under the ['error'] key: a literal of the program, or [str(e)]
    of the exception caught. *)
Inductive error_text : Type :=
| Message (s : str)
| StrOf (e : exn).

(** The dictionary [process_document] returns. *)
Inductive outcome : Type :=
| Success (endnotes_processed : nat) (log : list log_entry)
| Failure (error : error_text).

Definition endnotes_member : str := py "word/endnotes.xml".

Section Pipeline.
Context (rt : runtime) (net : network).

(** The merge of a lookup result into the parsed fields. *)
Definition merge (parsed lookup_result : dict pyval) : dict pyval :=
  fold_left
    (fun parsed kv =>
       if truthy (snd kv) && negb (truthy (get parsed (fst kv)))
       then dict_set parsed (fst kv) (snd kv)
       else parsed)
    lookup_result parsed.

(** Parsing, lookup and merge for one note. *)
Definition resolve_note (note_text : str) : result (dict pyval) :=
  let parsed := parse_endnote_text rt note_text in
  if truthy (py_or (get parsed (py "author")) (get parsed (py "title")))
  then
    lookup_result <-
      snd (lookup_citation rt net (get parsed (py "author"))
             (get parsed (py "title"))) ;;
    match lookup_result with
    | Some found => Ok (merge parsed found)
    | None => Ok parsed
    end
  else Ok parsed.

(** The loop over [endnotes.items()]. *)
Fixpoint process_notes (citation_style : str) (items : list (str * str))
  (formatted_endnotes : dict str) (processing_log : list log_entry)
  : result (dict str * list log_entry) :=
  match items with
  | [] => Ok (formatted_endnotes, processing_log)
  | (note_id, note_text) :: items' =>
      parsed <- resolve_note note_text ;;
      formatted <- format_citation rt parsed citation_style ;;
      process_notes citation_style items'
        (dict_set formatted_endnotes note_id formatted)
        (processing_log ++
           [ {| log_id := note_id;
                log_original := firstn 100 note_text;
                log_formatted := firstn 100 formatted |} ])
  end.

(** What follows the check for the endnotes file, inside the [try]. *)
Definition process_endnotes (members : dict content) (file : content)
  (citation_style : str) : result (outcome * dict content) :=
  endnotes <- extract_endnotes file ;;
  done <- process_notes citation_style endnotes [] [] ;;
  let formatted_endnotes := fst done in
  file' <- update_endnotes_xml file formatted_endnotes ;;
  Ok (Success (List.length formatted_endnotes) (snd done),
      dict_set members endnotes_member file').

(** [process_document]: the dictionary returned and the file left at
    [output_path], if one was written. *)
Definition process_document (input : upload) (citation_style : str)
  (use_incipit : bool) : outcome * option (dict content) :=
  match unpack_docx input with
  | Raise e => (Failure (StrOf e), None)
  | Ok members =>
      match dict_get members endnotes_member with
      | None =>
          (Failure (Message (py "No endnotes found in document")), None)
      | Some file =>
          match process_endnotes members file citation_style with
          | Ok (returned, packed) => (returned, Some packed)
          | Raise e => (Failure (StrOf e), None)
          end
      end
  end.

End Pipeline.

(** ** Definitions used by the statements *)

(** A runtime whose Unicode database knows no character beyond ASCII and
    whose standard output takes every line; the concrete inputs below are
    ASCII, where every runtime agrees on the characters. *)
Definition plain_runtime : runtime :=
  {| uni_isspace := fun _ => false;
     uni_isdecimal := fun _ => false;
     uni_isalnum := fun _ => false;
     uni_isupper := fun _ => false;
     uni_upper := fun s => s;
     uni_lower := fun s => s;
     repr_str := fun s => py "'" ++ s ++ py "'";
     print_error := fun _ _ => None |}.

(** The same runtime with a standard output that cannot encode the line
    the handler of [lookup_citation] prints. *)
Definition strict_runtime : runtime :=
  {| uni_isspace := fun _ => false;
     uni_isdecimal := fun _ => false;
     uni_isalnum := fun _ => false;
     uni_isupper := fun _ => false;
     uni_upper := fun s => s;
     uni_lower := fun s => s;
     repr_str := fun s => py "'" ++ s ++ py "'";
     print_error := fun _ _ => Some UnicodeEncodeError |}.

(** Standard output takes every line the handler prints. *)
Definition quiet (rt : runtime) : Prop :=
  forall query e, print_error rt query e = None.

(** A pattern consumes only characters of class [P]. *)
Definition consumes (P : N -> bool) (m : re) : Prop :=
  forall k k', In k' (m k) ->
    exists pre, snd k = pre ++ snd k' /\ forallb P pre = true.

(** The characters the label pattern can remove. *)
Definition label_char (rt : runtime) (c : N) : bool := isspace rt c || isdecimal rt c.

(** A text the parser stores as it is: the empty text, and a text that
    starts with neither whitespace nor a digit and does not end with
    whitespace. *)
Definition unlabelled (rt : runtime) (text : str) : bool :=
  match text with
  | [] => true
  | c :: _ => negb (label_char rt c) && negb (isspace rt (last text c))
  end.

(** Citation Fields with every field absent or a string. *)
Definition citation_fields (author title publisher place year page : option str)
  (original_text : str) : dict pyval :=
  [ (py "author", opt_val author); (py "title", opt_val title);
    (py "publisher", opt_val publisher); (py "place", opt_val place);
    (py "year", opt_val year); (py "page", opt_val page);
    (py "original_text", PStr original_text) ].

(** A field is present when it holds a non-empty string. *)
Definition present (o : option str) : bool :=
  match o with
  | Some (_ :: _) => true
  | _ => false
  end.

Definition text_of (o : option str) : str :=
  match o with
  | Some s => s
  | None => []
  end.

Definition sep_if (b : bool) (s : str) : str := if b then s else [].

(** The Chicago layout in the words of the amended rule: each separator
    under the condition that lets it appear. *)
Definition chicago_layout (author title place publisher year page : option str)
  : str :=
  text_of author ++ py ", <em>" ++ text_of title ++ py "</em>" ++
  sep_if (present place || present publisher || present year)
    (py " (" ++ text_of place ++
     sep_if (present place && (present publisher || present year)) (py ": ") ++
     text_of publisher ++
     sep_if (present publisher && present year) (py ", ") ++
     text_of year ++ py ")") ++
  sep_if (present page) (py ", " ++ text_of page) ++ py ".".

(** A dictionary holds each key once. *)
Fixpoint unique_keys {V} (d : dict V) : bool :=
  match d with
  | [] => true
  | (k, _) :: d' => negb (dict_mem d' k) && unique_keys d'
  end.


(** A network on which every request times out. *)
Definition net_down : network := fun _ => HttpRaises Timeout.

(** A network that answers every request with a status that is not OK. *)
Definition net_refused : network :=
  fun _ => HttpResponse false (Raise JSONDecodeError).

(** A network that answers every request with status 200 and the JSON
    text [{"docs": [{"publisher": [5], "publish_place": ["Paris"]}]}]:
    well-formed, with a number where a publisher name is expected. *)
Definition net_number : network :=
  fun _ =>
    HttpResponse true
      (Ok (PDict
             [ (py "docs",
                PList
                  [ PDict
                      [ (py "publisher", PList [ PInt 5 ]);
                        (py "publish_place", PList [ PStr (py "Paris") ])
                      ] ]) ])).

(** Parsed fields with only the author, and a lookup result. *)
Definition sample_parsed : dict pyval :=
  citation_fields (Some (py "Smith")) None None None None None [].


(** ** Documents as Word writes them *)

(** The rewrite of every endnote met on the way down, without looking
    inside an endnote for further endnotes. *)
Fixpoint rewrite_all (formatted_endnotes : dict str) (n : node) : result node :=
  match n with
  | Text _ => Ok n
  | Element tag attrs ch =>
      if str_eqb tag w_endnote then rewrite_endnote formatted_endnotes n
      else
        ch' <- mapM (rewrite_all formatted_endnotes) ch ;;
        Ok (Element tag attrs ch')
  end.

(** No endnote element inside this one. *)
Definition flat_note (e : node) : bool :=
  match getElementsByTagName e w_endnote with
  | [] => true
  | _ :: _ => false
  end.

Definition flat_endnotes (dom : node) : bool :=
  forallb flat_note (document_endnotes dom).

(** A text run that holds character data only: no child, or one text
    node. *)
Definition simple_run (t : node) : bool :=
  match children t with
  | [] => true
  | [Text _] => true
  | _ => false
  end.

Definition simple_runs (e : node) : bool :=
  forallb simple_run (getElementsByTagName e w_t).

(** The first text run of the endnote exists and has a child to assign
    to. *)
Definition writable (e : node) : bool :=
  match getElementsByTagName e w_t with
  | t :: _ => match children t with [] => false | _ :: _ => true end
  | [] => false
  end.

(** Text that is read back as written: characters XML can carry, and no
    carriage return. *)
Definition xml_text (s : str) : bool :=
  forallb xml_char s && negb (existsb (N.eqb 13) s).

(** [s] goes on with [w]. *)
Fixpoint starts_with (w s : str) : bool :=
  match w, s with
  | [], _ => true
  | a :: w', b :: s' => N.eqb a b && starts_with w' s'
  | _ :: _, [] => false
  end.

(** A text without its emphasis markers, read from left to right: where
    the text goes on with [<em>] or with [</em>] the marker is dropped and
    reading resumes after it.  [skip] counts the characters of a marker
    still to drop. *)
Fixpoint without_markers (s : str) (skip : nat) : str :=
  match s with
  | [] => []
  | c :: s' =>
      match skip with
      | S n => without_markers s' n
      | O =>
          if starts_with (py "<em>") s then without_markers s' 3
          else if starts_with (py "</em>") s then without_markers s' 4
          else c :: without_markers s' 0
      end
  end.

Fixpoint separated (l : list node) : bool :=
  match l with
  | Text _ :: ((Text _ :: _) as l') => false
  | _ :: l' => separated l'
  | [] => true
  end.

(** An attribute value that is read back as written: characters XML can
    carry, and no tab, line feed or carriage return. *)
Definition kept_value (v : str) : bool :=
  forallb xml_char v
  && negb (existsb (fun c => N.eqb c 9 || N.eqb c 10 || N.eqb c 13) v).

Definition kept_values (attrs : list (str * str)) : bool :=
  forallb (fun kv => kept_value (snd kv)) attrs.

(** A tree that is read back as written. *)
Fixpoint stable (n : node) : bool :=
  match n with
  | Text s => xml_text s && match s with [] => false | _ => true end
  | Element _ attrs ch => kept_values attrs && forallb stable ch && separated ch
  end.

(** All character data and every attribute value is made of characters XML
    can carry. *)
Fixpoint chars_ok (n : node) : bool :=
  match n with
  | Text s => forallb xml_char s
  | Element _ attrs ch => values_ok attrs && forallb chars_ok ch
  end.

(** Every text to be written is made of characters XML can carry. *)
Definition writable_texts (formatted_endnotes : dict str) : bool :=
  forallb (fun kv => forallb xml_char (snd kv)) formatted_endnotes.

(** The documents of the round trip: stable, with flat endnotes whose text
    runs hold character data only; and every endnote named by the mapping
    has a first text run to write to. *)
Definition well_formed (dom : node) : bool :=
  stable dom && flat_endnotes dom &&
  forallb simple_runs (document_endnotes dom).

Definition targets_writable (formatted_endnotes : dict str) (dom : node)
  : bool :=
  forallb (fun e => negb (dict_mem formatted_endnotes (getAttribute e w_id))
                    || writable e)
          (document_endnotes dom).

(** The text extraction finds after the write, for a note that had [old]:
    the formatted text without its markers and with its line ends as the
    parser returns them. *)
Definition written_text (formatted_endnotes : dict str) (note_id old : str)
  : str :=
  match dict_get formatted_endnotes note_id with
  | Some formatted_text => line_ends (without_markers formatted_text 0)
  | None => old
  end.

(** The tree without its character data: what no assignment changes. *)
Fixpoint skel (n : node) : node :=
  match n with
  | Text _ => Text []
  | Element tag attrs ch => Element tag attrs (map skel ch)
  end.

(** The assignment to the first child of a text run. *)
Definition assign_run (text : str) (t : node) : node :=
  match t with
  | Element tag attrs (Text _ :: ch') => Element tag attrs (Text text :: ch')
  | _ => t
  end.

(** A note after the write, as extraction sees it: the same id, and the
    written text in place of the old one. *)
Definition note_rewritten (formatted_endnotes : dict str) (e e2 : node)
  : Prop :=
  getAttribute e2 w_id = getAttribute e w_id /\
  exists old,
    full_text e = Ok old /\
    full_text e2
    = Ok (written_text formatted_endnotes (getAttribute e w_id) old).

(** ** Sample documents *)

Definition run (text : string) : node :=
  Element (py "w:r") [] [Element w_t [] [Text (py text)]].

Definition paragraph (texts : list string) : node :=
  Element (py "w:p") [] (map run texts).

Definition endnote (note_id : string) (body : list node) : node :=
  Element w_endnote [(w_id, py note_id)] body.

Definition endnotes_part (notes : list node) : node :=
  Element (py "w:endnotes") [(py "xmlns:w", py "urn:w")] notes.

(** A separator note and one citation in two text runs. *)
Definition sample_document : node :=
  endnotes_part
    [ endnote "0" [paragraph ["sep"%string]];
      endnote "1" [paragraph ["Smith, "%string; "Title"%string]] ].

Definition sample_mapping : dict str :=
  [ (py "1", py "Smith, <em>Title</em>.") ].

(** A separator note placed inside a citation note. *)
Definition nested_document : node :=
  endnotes_part
    [ endnote "1"
        [ paragraph ["Smith, Title"%string];
          endnote "0" [paragraph ["sep"%string]] ] ].

(** The notes of a document that carry a reserved id. *)
Definition reserved_notes (dom : node) : list node :=
  filter (fun e => reserved (getAttribute e w_id)) (document_endnotes dom).

(** A note with a reserved id is as it was. *)
Definition reserved_kept (e e' : node) : Prop :=
  reserved (getAttribute e w_id) = true -> e' = e.

(** What the pipeline leaves of [nested_document]. *)
Definition nested_written : node :=
  endnotes_part
    [ endnote "1"
        [ paragraph ["Smith, Titlesep."%string];
          endnote "0"
            [ Element (py "w:p") []
                [ Element (py "w:r") [] [Element w_t [] []] ] ] ] ].

(** A note whose author has two spaces between its words. *)
Definition double_space_document : node :=
  endnotes_part [ endnote "1" [paragraph ["John  Smith, A Study"%string]] ].

(** ** Upload validation and the route *)

Definition ALLOWED_EXTENSIONS : list str := [ py "docx" ].

(** The text before the first [sep], and the text after it if there is
    one. *)
Fixpoint span_until (sep : N) (s : str) : str * option str :=
  match s with
  | [] => ([], None)
  | c :: s' =>
      if N.eqb c sep then ([], Some s')
      else (c :: fst (span_until sep s'), snd (span_until sep s'))
  end.

(** [s.rsplit(sep, 1)]: one split at the last separator. *)
Definition rsplit1 (sep : N) (s : str) : list str :=
  match span_until sep (rev s) with
  | (tail, Some head) => [ rev head; rev tail ]
  | (_, None) => [ s ]
  end.

(** [allowed_file]: [and] does not look at the extension of a name
    without a dot. *)
Definition allowed_file (rt : runtime) (filename : str) : result bool :=
  if existsb (N.eqb 46) filename then
    match nth_error (rsplit1 46 filename) 1 with
    | Some ext => Ok (existsb (str_eqb (str_lower rt ext)) ALLOWED_EXTENSIONS)
    | None => Raise IndexError
    end
  else Ok false.

(** [Path(name).stem] for a name without a path separator. *)
Definition path_stem (name : str) : str :=
  match rsplit1 46 name with
  | [ head; tail ] =>
      match head, tail with
      | _ :: _, _ :: _ => head
      | _, _ => name
      end
  | _ => name
  end.

(** The parts of the request the route reads: the uploaded file with its
    name, and the form fields [style] and [format]. *)
Record request : Type := {
  req_file : option (str * upload);
  req_style : option str;
  req_format : option str
}.

(** A JSON error with its status, the formatted document as a download,
    or the server's answer to an exception nothing handles. *)
Inductive response : Type :=
| Json (status : nat) (error : error_text)
| Attachment (download_name : str) (body : dict content)
| InternalError.

Section Route.
Context (rt : runtime) (net : network).

(** [werkzeug.utils.secure_filename] is not part of the program. *)
Context (secure_filename : str -> str).

Definition process (r : request) : response :=
  match req_file r with
  | None => Json 400 (Message (py "No file uploaded"))
  | Some (file_name, file) =>
      match file_name with
      | [] => Json 400 (Message (py "No file selected"))
      | _ :: _ =>
          match allowed_file rt file_name with
          | Raise _ => InternalError
          | Ok false => Json 400 (Message (py "Only .docx files are supported"))
          | Ok true =>
              let citation_style :=
                match req_style r with
                | Some s => s
                | None => py "chicago"
                end in
              let use_incipit :=
                match req_format r with
                | Some f => str_eqb f (py "incipit")
                | None => false
                end in
              let filename := secure_filename file_name in
              let base_name := path_stem filename in
              let output_filename := base_name ++ py "_formatted.docx" in
              match process_document rt net file citation_style use_incipit with
              | (Success _ _, Some packed) => Attachment output_filename packed
              | (Success _ _, None) => InternalError
              | (Failure error, _) => Json 500 error
              end
          end
      end
  end.

End Route.

(** The test of one table entry against a publisher in
    [infer_place_from_publisher]. *)
Definition publisher_matches (rt : runtime) (pub publisher : str) : bool :=
  str_contains (str_lower rt pub) (str_lower rt publisher)
  || str_contains (str_lower rt publisher) (str_lower rt pub).

Definition no_match (rt : runtime) (publisher : str) (entry : str * str)
  : bool :=
  negb (publisher_matches rt (fst entry) publisher).

Definition nonempty (s : str) : bool :=
  match s with
  | [] => false
  | _ :: _ => true
  end.

(** What the MLA renderer writes after [<em>]: the title, then publisher,
    year and page, each behind its separator when present. *)
Definition mla_tail (title publisher year page : option str) : str :=
  text_of title ++ py "</em>" ++
  sep_if (present publisher) (py ". " ++ text_of publisher) ++
  sep_if (present year) (py ", " ++ text_of year) ++
  sep_if (present page) (py ", pp. " ++ text_of page) ++ py ".".

(** The Bluebook layout: the author with its comma, the title in upper
    case or the placeholder, the page, and the publisher and year in
    parentheses, each under the condition that lets it appear. *)
Definition bluebook_layout (rt : runtime)
  (author title publisher year page : option str) : str :=
  sep_if (present author) (text_of author ++ py ", ") ++
  (if present title then str_upper rt (text_of title) else py "UNTITLED") ++
  sep_if (present page) (py " " ++ text_of page) ++
  sep_if (present publisher || present year)
    (py " (" ++ text_of publisher ++
     sep_if (present publisher && present year) (py " ") ++
     text_of year ++ py ")") ++
  py ".".

(** The string ends with a full stop. *)
Definition ends_with_stop (out : str) : Prop :=
  exists body, out = body ++ py ".".

(** The keys of the dictionary [parse_endnote_text] builds, in order. *)
Definition citation_keys : list str :=
  [ py "author"; py "title"; py "publisher"; py "place"; py "year";
    py "page"; py "original_text" ].

(** The keys of the dictionary [lookup_citation] builds, in order. *)
Definition lookup_keys : list str :=
  [ py "author"; py "title"; py "publisher"; py "place"; py "year" ].

(** Every match of the pattern consumes a text that satisfies [Q]. *)
Definition yields (Q : str -> Prop) (m : re) : Prop :=
  forall k k', In k' (m k) -> exists pre, snd k = pre ++ snd k' /\ Q pre.

(** The shape of a year the parser accepts: 19 or 20 and two digits. *)
Definition year_shape (rt : runtime) (y : str) : Prop :=
  exists d1 d2,
    (y = py "19" ++ [d1; d2] \/ y = py "20" ++ [d1; d2]) /\
    isdecimal rt d1 = true /\ isdecimal rt d2 = true.

(** The id of an endnote element. *)
Definition note_id_of (e : node) : str := getAttribute e w_id.

(** The node at a path, if the path leads to one. *)
Fixpoint subtree (p : path) (n : node) : option node :=
  match p with
  | [] => Some n
  | i :: p' =>
      match nth_error (children n) i with
      | Some c => subtree p' c
      | None => None
      end
  end.

(** A citation note whose first text run is empty. *)
Definition empty_run_document : node :=
  endnotes_part
    [ endnote "1"
        [ Element (py "w:p") []
            [ Element (py "w:r") [] [ Element w_t [] [] ];
              run "Smith, Title" ] ] ].

(** An archive with the endnotes of [sample_document] and one more file. *)
Definition sample_members : dict content :=
  [ (py "word/document.xml", Raw [60; 120; 47; 62]%N);
    (endnotes_member, Xml sample_document) ].

(** The style the route hands on: the form field, ['chicago'] without
    one. *)
Definition style_of (r : request) : str :=
  match req_style r with
  | Some s => s
  | None => py "chicago"
  end.

(** A style name that selects none of the three other formatters. *)
Definition falls_back (style : str) : bool :=
  negb (str_eqb style (py "mla")) && negb (str_eqb style (py "apa")) &&
  negb (str_eqb style (py "bluebook")).

(** An entry of the log holds at most 100 characters of each text. *)
Definition preview (entry : log_entry) : Prop :=
  List.length (log_original entry) <= 100 /\
  List.length (log_formatted entry) <= 100.

(** A text run whose first child is an element: its [nodeValue] is
    [None]. *)
Definition element_first (t : node) : bool :=
  match children t with
  | Element _ _ _ :: _ => true
  | _ => false
  end.

(** The notes extraction reads: those with an id that is not reserved. *)
Definition read_note (e : node) : bool :=
  match note_id_of e with
  | [] => false
  | _ :: _ => negb (reserved (note_id_of e))
  end.

(** A note extraction can pass: one it does not read, or one none of
    whose text runs starts with an element. *)
Definition readable (e : node) : bool :=
  negb (read_note e) ||
  negb (existsb element_first (getElementsByTagName e w_t)).

(** A citation note whose text run holds a line break element. *)
Definition break_document : node :=
  endnotes_part
    [ endnote "1"
        [ Element (py "w:p") []
            [ Element (py "w:r") []
                [ Element w_t [] [ Element (py "w:br") [] [] ] ] ] ] ].

(** * Properties *)



(** ** Strings and dictionaries *)

Lemma str_eqb_eq (a b : str) : str_eqb a b = true <-> a = b.
Proof.
  revert b; induction a as [|x a IH]; intros [|y b]; simpl;
    try (split; (discriminate || reflexivity)).
  rewrite andb_true_iff, N.eqb_eq, IH.
  split; [intros [-> ->]; reflexivity | intros H; inversion H; auto].
Qed.

Lemma str_eqb_refl (a : str) : str_eqb a a = true.
Proof. apply str_eqb_eq; reflexivity. Qed.

Lemma str_eqb_neq (a b : str) : str_eqb a b = false <-> a <> b.
Proof.
  rewrite <- str_eqb_eq. destruct (str_eqb a b); split; congruence.
Qed.

Lemma str_eqb_sym (a b : str) : str_eqb a b = str_eqb b a.
Proof.
  destruct (str_eqb a b) eqn:E, (str_eqb b a) eqn:F; auto.
  - apply str_eqb_eq in E; subst. rewrite str_eqb_refl in F; discriminate.
  - apply str_eqb_eq in F; subst. rewrite str_eqb_refl in E; discriminate.
Qed.

Section DictFacts.
Variable V : Type.
Implicit Types (d : dict V) (k : str) (v : V).

Lemma dict_get_set_same d k v : dict_get (dict_set d k v) k = Some v.
Proof.
  induction d as [|[k' v'] d IH]; simpl.
  - rewrite str_eqb_refl; reflexivity.
  - destruct (str_eqb k' k) eqn:E; simpl; rewrite E; auto.
Qed.

Lemma dict_get_set_other d k k' v :
  k <> k' -> dict_get (dict_set d k v) k' = dict_get d k'.
Proof.
  intros Hne. induction d as [|[k0 v0] d IH]; simpl.
  - apply str_eqb_neq in Hne. rewrite Hne; reflexivity.
  - destruct (str_eqb k0 k) eqn:E; simpl.
    + apply str_eqb_eq in E; subst k0.
      apply str_eqb_neq in Hne. rewrite Hne; reflexivity.
    + destruct (str_eqb k0 k'); auto.
Qed.

Lemma dict_get_set d k k' v :
  dict_get (dict_set d k v) k' =
  if str_eqb k k' then Some v else dict_get d k'.
Proof.
  destruct (str_eqb k k') eqn:E.
  - apply str_eqb_eq in E; subst. apply dict_get_set_same.
  - apply str_eqb_neq in E. apply dict_get_set_other; assumption.
Qed.
End DictFacts.

Lemma get_set_other (d : dict pyval) k k' v :
  str_eqb k k' = false -> get (dict_set d k v) k' = get d k'.
Proof.
  intros E. unfold get, get_or. rewrite dict_get_set, E. reflexivity.
Qed.

(** ** Stripping and substitution *)

Lemma lstrip_split p (s : str) :
  exists a, s = a ++ lstrip p s /\ forallb p a = true.
Proof.
  induction s as [|c s [a [E F]]]; simpl.
  - exists []; auto.
  - destruct (p c) eqn:P.
    + exists (c :: a); simpl. rewrite P, F, <- E. auto.
    + exists []; auto.
Qed.

Lemma rstrip_split p (s : str) :
  exists b, s = rstrip p s ++ b /\ forallb p b = true.
Proof.
  unfold rstrip. destruct (lstrip_split p (rev s)) as [a [E F]].
  exists (rev a). split.
  - rewrite <- rev_app_distr, <- E, rev_involutive. reflexivity.
  - rewrite forallb_forall in *. intros x Hx. apply F, in_rev, Hx.
Qed.



Lemma consumes_seq P a b : consumes P a -> consumes P b -> consumes P (re_seq a b).
Proof.
  intros Ha Hb k k' Hin. unfold re_seq in Hin.
  apply in_flat_map in Hin. destruct Hin as [k1 [H1 H2]].
  destruct (Ha _ _ H1) as [p1 [E1 F1]], (Hb _ _ H2) as [p2 [E2 F2]].
  exists (p1 ++ p2). rewrite E1, E2, app_assoc, forallb_app, F1, F2. auto.
Qed.

Lemma consumes_cls P p :
  (forall c, p c = true -> P c = true) -> consumes P (re_cls p).
Proof.
  intros Hp [prev s] k' Hin. unfold re_cls in Hin. simpl in *.
  destruct s as [|c s']; [contradiction|].
  destruct (p c) eqn:E; [|contradiction].
  destruct Hin as [<-|[]]. exists [c]. simpl. rewrite (Hp _ E). auto.
Qed.

Lemma consumes_star P p :
  (forall c, p c = true -> P c = true) -> consumes P (re_star p).
Proof.
  intros Hp [prev s] k'. unfold re_star. simpl. revert prev.
  induction s as [|c s IH]; intros prev Hin; simpl in Hin.
  - destruct Hin as [<-|[]]. exists []; auto.
  - destruct (p c) eqn:E.
    + apply in_app_or in Hin. destruct Hin as [Hin|[<-|[]]].
      * destruct (IH _ Hin) as [pre [E1 F1]].
        exists (c :: pre). simpl. rewrite (Hp _ E), F1, <- E1. auto.
      * exists []; auto.
    + destruct Hin as [<-|[]]. exists []; auto.
Qed.

Lemma consumes_bol P : consumes P re_bol.
Proof.
  intros [prev s] k' Hin. unfold re_bol in Hin. simpl in *.
  destruct prev; [contradiction|]. destruct Hin as [<-|[]].
  exists []; auto.
Qed.

Lemma re_sub_skip m : forall n s prev,
  (n <> 0 \/ prev <> None) -> (forall c r, m (Some c, r) = []) ->
  re_sub m prev s n = skipn n s.
Proof.
  intros n s. revert n. induction s as [|c s IH]; intros n prev Hn Hm.
  - destruct n; reflexivity.
  - destruct n as [|n]; simpl.
    + destruct Hn as [Hn|Hn]; [congruence|].
      destruct prev as [c0|]; [|congruence].
      rewrite Hm. f_equal. apply (IH 0); auto. right; discriminate.
    + apply IH; auto. right; discriminate.
Qed.

Lemma re_sub_rest m c (s : str) n :
  (forall c r, m (Some c, r) = []) -> re_sub m (Some c) s n = skipn n s.
Proof. intros Hm. apply re_sub_skip; auto. right; discriminate. Qed.

Lemma re_sub_anchored P m (s : str) :
  consumes P m -> (forall c r, m (Some c, r) = []) ->
  exists pre, s = pre ++ re_sub m None s 0 /\ forallb P pre = true.
Proof.
  intros Hc Hm. destruct s as [|c s]; [exists []; auto|].
  cbn [re_sub].
  match goal with |- context [m ?k0] => destruct (m k0) as [|k ks] eqn:E end.
  - exists []. rewrite re_sub_rest by assumption. auto.
  - assert (Hin : In k (k :: ks)) by (left; reflexivity).
    rewrite <- E in Hin. destruct (Hc _ _ Hin) as [pre [E1 F1]].
    cbn [snd] in E1.
    replace (List.length (c :: s) - List.length (snd k))
      with (List.length pre)
      by (rewrite E1, length_app; lia).
    destruct pre as [|c0 pre]; cbn [List.length].
    + exists []. rewrite re_sub_rest by assumption. auto.
    + exists (c0 :: pre). split; [|exact F1].
      rewrite re_sub_rest by assumption.
      simpl in E1. inversion E1; subst.
      rewrite skipn_app, skipn_all, Nat.sub_diag. reflexivity.
Qed.

(** ** The parser *)

Lemma re_sub_subset m : forall s prev n c,
  In c (re_sub m prev s n) -> In c s.
Proof.
  induction s as [|x s IH]; intros prev n c H; cbn [re_sub] in H; [exact H|].
  destruct n as [|n]; [|right; eauto].
  repeat match type of H with
         | In _ (match ?x with _ => _ end) => destruct x
         end;
    try (destruct H as [H|H]; [left; exact H | right; eauto]);
    right; eauto.
Qed.

Section ParserFacts.
Context (rt : runtime).


Lemma label_re_consumes : consumes (label_char rt) (label_re rt).
Proof.
  unfold label_re, re_plus, label_char.
  repeat apply consumes_seq;
    try apply consumes_bol;
    try (apply consumes_star; intros c ->; auto using orb_true_r);
    try (apply consumes_cls; intros c ->; auto using orb_true_r).
Qed.

Lemma label_re_anchored c r : label_re rt (Some c, r) = [].
Proof. reflexivity. Qed.

Ltac other_key :=
  rewrite dict_get_set_other by (apply str_eqb_neq; reflexivity).

Lemma parse_original_text (text : str) :
  dict_get (parse_endnote_text rt text) (py "original_text")
  = Some (PStr (str_strip rt (re_sub (label_re rt) None text 0))).
Proof.
  unfold parse_endnote_text.
  repeat match goal with
         | |- context [match ?x with _ => _ end] => destruct x
         end;
  repeat other_key; reflexivity.
Qed.

Lemma lstrip_head p (s : str) :
  lstrip p s = [] \/ exists d r, lstrip p s = d :: r /\ p d = false.
Proof.
  induction s as [|c s IH]; [left; reflexivity|]. cbn [lstrip].
  destruct (p c) eqn:E; [exact IH | right; eauto].
Qed.

Lemma lstrip_length p (s : str) : List.length (lstrip p s) <= List.length s.
Proof.
  destruct (lstrip_split p s) as [a [E _]].
  rewrite E at 2. rewrite length_app. lia.
Qed.

Lemma rstrip_length p (s : str) : List.length (rstrip p s) <= List.length s.
Proof.
  destruct (rstrip_split p s) as [b [E _]].
  rewrite E at 2. rewrite length_app. lia.
Qed.

Lemma rstrip_end p (s : str) :
  rstrip p s = [] \/ exists r d, rstrip p s = r ++ [d] /\ p d = false.
Proof.
  unfold rstrip. destruct (lstrip_head p (rev s)) as [->|(d & r & -> & H)].
  - left; reflexivity.
  - right. exists (rev r), d. auto.
Qed.

Lemma lstrip_snoc p (a : str) d :
  p d = false -> lstrip p (a ++ [d]) = lstrip p a ++ [d].
Proof.
  intros H. induction a as [|c a IH]; cbn [app lstrip].
  - rewrite H. reflexivity.
  - destruct (p c); [exact IH | reflexivity].
Qed.

Lemma rstrip_cons p d (r : str) :
  p d = false -> rstrip p (d :: r) = d :: rstrip p r.
Proof.
  intros H. unfold rstrip. cbn [rev].
  rewrite (lstrip_snoc _ _ _ H), rev_app_distr. reflexivity.
Qed.

Lemma rstrip_kept p (s : str) c :
  s <> [] -> p (last s c) = false -> rstrip p s = s.
Proof.
  intros Hs H. destruct (exists_last Hs) as [r [d ->]].
  rewrite last_last in H. unfold rstrip.
  rewrite rev_app_distr. cbn [rev app lstrip]. rewrite H.
  cbn [rev]. rewrite rev_involutive. reflexivity.
Qed.

Lemma star_from_head p : forall (s : str) prev,
  exists k ks,
    star_from p prev s = k :: ks /\ List.length (snd k) <= List.length s.
Proof.
  induction s as [|c s IH]; intros prev; cbn [star_from].
  - exists (prev, []), []. auto.
  - destruct (p c).
    + destruct (IH (Some c)) as (k & ks & -> & L).
      exists k, (ks ++ [(prev, c :: s)]). split; [reflexivity|].
      cbn [List.length]. lia.
    + exists (prev, c :: s), []. auto.
Qed.

(** The label pattern finds nothing in a text that starts with neither
    whitespace nor a digit. *)
Lemma label_free c (s : str) :
  isspace rt c = false -> isdecimal rt c = false ->
  re_sub (label_re rt) None (c :: s) 0 = c :: s.
Proof.
  intros Hs Hd. cbn [re_sub].
  match goal with
  | |- context [label_re rt ?k0] => assert (E : label_re rt k0 = [])
  end.
  { unfold label_re, re_seq, re_bol, re_star, re_plus, re_seq, re_cls.
    cbn [fst snd flat_map star_from app]. rewrite Hs.
    cbn [flat_map app snd]. rewrite Hd. reflexivity. }
  rewrite E, re_sub_rest by apply label_re_anchored. reflexivity.
Qed.

(** It removes at least the first character of a text that starts with a
    digit. *)
Lemma label_cut c (s : str) :
  isspace rt c = false -> isdecimal rt c = true ->
  List.length (re_sub (label_re rt) None (c :: s) 0) <= List.length s.
Proof.
  intros Hs Hd. cbn [re_sub].
  match goal with
  | |- context [label_re rt ?k0] =>
      assert (E : exists k ks,
                 label_re rt k0 = k :: ks /\
                 List.length (snd k) <= List.length s)
  end.
  { unfold label_re, re_seq, re_bol, re_star, re_plus, re_seq, re_cls.
    cbn [fst snd flat_map star_from app]. rewrite Hs.
    cbn [flat_map app snd]. rewrite Hd. cbn [flat_map fst snd].
    rewrite ?app_nil_r. unfold re_star. cbn [fst snd].
    destruct (star_from_head (isdecimal rt) s (Some c)) as (k1 & ks1 & -> & L1).
    cbn [flat_map].
    destruct (star_from_head (isspace rt) (snd k1) (fst k1))
      as (k2 & ks2 & -> & L2).
    exists k2, (ks2 ++ flat_map
                         (fun k => star_from (isspace rt) (fst k) (snd k)) ks1).
    split; [reflexivity | lia]. }
  destruct E as (k & ks & -> & L).
  destruct (List.length (c :: s) - List.length (snd k)) as [|n] eqn:En.
  - cbn [List.length] in En. lia.
  - rewrite re_sub_rest by apply label_re_anchored.
    rewrite length_skipn. lia.
Qed.

(** C1: the text stored under [original_text] is not the original.  The
    parser rebinds [text] to its working copy before it builds the
    dictionary: what is stored is the input without a leading run of
    whitespace and digits and without trailing whitespace, and it is the
    input itself only when the input is empty or starts with neither
    whitespace nor a digit and does not end with whitespace.  The note
    [12 Smith, Title] is stored as [Smith, Title]. *)
Theorem parse_stores_working_copy (text : str) :
  (exists label kept trail,
     text = label ++ kept ++ trail /\
     forallb (label_char rt) label = true /\
     forallb (isspace rt) trail = true /\
     dict_get (parse_endnote_text rt text) (py "original_text")
     = Some (PStr kept) /\
     (kept = text <-> unlabelled rt text = true)) /\
  dict_get (parse_endnote_text rt (py "12 Smith, Title")) (py "original_text")
  = Some (PStr (py "Smith, Title")).
Proof.
  split; [|reflexivity].
  destruct (re_sub_anchored text label_re_consumes label_re_anchored)
    as [pre [E1 F1]].
  set (t1 := re_sub (label_re rt) None text 0) in *.
  destruct (lstrip_split (isspace rt) t1) as [sp [E2 F2]].
  destruct (rstrip_split (isspace rt) (lstrip (isspace rt) t1))
    as [trail [E3 F3]].
  exists (pre ++ sp), (str_strip rt t1), trail.
  split; [|split; [|split; [|split]]]; auto.
  - rewrite <- app_assoc. unfold str_strip. rewrite <- E3, <- E2. exact E1.
  - rewrite forallb_app, F1. simpl.
    rewrite forallb_forall in *. intros c Hc. unfold label_char.
    rewrite (F2 c Hc). reflexivity.
  - apply parse_original_text.
  - clear pre sp trail E1 F1 E2 F2 E3 F3.
    destruct text as [|c s]; [split; reflexivity|].
    cbn [unlabelled]. unfold label_char.
    destruct (isspace rt c) eqn:Hs.
    + split; [|discriminate]. intros H. exfalso. unfold str_strip in H.
      destruct (lstrip_head (isspace rt) t1) as [E|(d & r & E & Hd)];
        rewrite E in H.
      * discriminate H.
      * rewrite rstrip_cons in H by exact Hd. inversion H; subst d.
        congruence.
    + destruct (isdecimal rt c) eqn:Hd; cbn [orb negb andb].
      * split; [|discriminate]. intros H. exfalso.
        pose proof (@label_cut c s Hs Hd) as L. fold t1 in L.
        pose proof (rstrip_length (isspace rt) (lstrip (isspace rt) t1)) as L1.
        pose proof (lstrip_length (isspace rt) t1) as L2.
        unfold str_strip in H. rewrite H in L1. cbn [List.length] in L1. lia.
      * unfold t1. rewrite (@label_free c s Hs Hd). unfold str_strip.
        cbn [lstrip]. rewrite Hs. split.
        -- intros H. destruct (isspace rt (last (c :: s) c)) eqn:El;
             [|reflexivity].
           exfalso.
           destruct (rstrip_end (isspace rt) (c :: s)) as [E|(r & d & E & Hn)];
             rewrite E in H.
           ++ discriminate H.
           ++ rewrite <- H, last_last in El. congruence.
        -- intros H. apply negb_true_iff in H.
           apply (@rstrip_kept _ _ c); [discriminate | exact H].
Qed.

(** C8, as the code has it: the label pattern removes the digit but not
    the full stop after it, so the first segment is [". Smith"], which
    does not start with an upper-case letter: no author is recorded. *)
Theorem parse_smith_fields :
  let parsed :=
    parse_endnote_text rt
      (py "1. Smith, John, A Study of Things, Acme Press, 1999, 42.") in
  get parsed (py "author") = PNone /\
  get parsed (py "title") = PStr (py "John") /\
  get parsed (py "year") = PStr (py "1999") /\
  get parsed (py "page") = PStr (py "42").
Proof. vm_compute. repeat split. Qed.

End ParserFacts.

(** C8 refuted as stated: the author is not ["Smith"]. *)
Lemma parse_smith_author_absent :
  get (parse_endnote_text plain_runtime
         (py "1. Smith, John, A Study of Things, Acme Press, 1999, 42."))
    (py "author")
  <> PStr (py "Smith").
Proof. vm_compute. discriminate. Qed.

(** ** Rendering *)

Section RenderingFacts.
Context (rt : runtime).

Lemma field_citation_fields a t pu pl y pg raw :
  let cd := citation_fields a t pu pl y pg raw in
  field cd "author" = PStr (text_of a) /\
  field cd "title" = PStr (text_of t) /\
  field cd "publisher" = PStr (text_of pu) /\
  field cd "place" = PStr (text_of pl) /\
  field cd "year" = PStr (text_of y) /\
  field cd "page" = PStr (text_of pg).
Proof.
  repeat split.
  - destruct a as [[|? ?]|]; reflexivity.
  - destruct t as [[|? ?]|]; reflexivity.
  - destruct pu as [[|? ?]|]; reflexivity.
  - destruct pl as [[|? ?]|]; reflexivity.
  - destruct y as [[|? ?]|]; reflexivity.
  - destruct pg as [[|? ?]|]; reflexivity.
Qed.

Lemma truthy_text_of o : truthy (PStr (text_of o)) = present o.
Proof. destruct o as [[|? ?]|]; reflexivity. Qed.

(** C5, as the code has it: the parenthetical group appears exactly when
    one of place, publisher and year is present; [": "] follows the place
    exactly when the place is present with a publisher or a year; [", "]
    stands between publisher and year exactly when both are present, and
    before the page exactly when the page is present. *)
Theorem format_chicago_layout a t pu pl y pg raw :
  format_chicago rt (citation_fields a t pu pl y pg raw)
  = Ok (chicago_layout a t pl pu y pg).
Proof.
  destruct (field_citation_fields a t pu pl y pg raw)
    as (Ha & Ht & Hpu & Hpl & Hy & Hpg).
  unfold format_chicago, chicago_layout.
  rewrite Ha, Ht, Hpu, Hpl, Hy, Hpg.
  destruct pl as [[|? ?]|], pu as [[|? ?]|], y as [[|? ?]|], pg as [[|? ?]|];
    cbn [orb andb sep_if bind str_add py_str text_of present truthy];
    repeat rewrite <- app_assoc; repeat rewrite app_nil_l;
    repeat rewrite app_nil_r; reflexivity.
Qed.

(** Under a standard output that takes every line, a request that times
    out leaves the document as a refused one does. *)
Lemma timeout_as_refusal input style flag :
  quiet rt ->
  process_document rt net_down input style flag
  = process_document rt net_refused input style flag.
Proof.
  intros Hq.
  assert (L : forall author title,
             lookup_citation rt net_down author title
             = lookup_citation rt net_refused author title).
  { intros author title. unfold lookup_citation, net_down, net_refused.
    destruct (negb (truthy (py_or author title))); [reflexivity|].
    cbn [lookup_try]. rewrite Hq. reflexivity. }
  assert (R : forall note_text,
             resolve_note rt net_down note_text
             = resolve_note rt net_refused note_text).
  { intros note_text. unfold resolve_note. rewrite L. reflexivity. }
  assert (P : forall items fe log,
             process_notes rt net_down style items fe log
             = process_notes rt net_refused style items fe log).
  { induction items as [|[note_id note_text] items IH]; intros fe log;
      [reflexivity|].
    cbn [process_notes]. rewrite R.
    destruct (resolve_note rt net_refused note_text) as [parsed|e];
      [|reflexivity].
    cbn [bind].
    destruct (format_citation rt parsed style) as [formatted|e];
      [|reflexivity].
    cbn [bind]. apply IH. }
  unfold process_document.
  destruct (unpack_docx input) as [members|e]; [|reflexivity].
  destruct (dict_get members endnotes_member) as [file|]; [|reflexivity].
  unfold process_endnotes.
  destruct (extract_endnotes file) as [endnotes|e]; [|reflexivity].
  cbn [bind]. rewrite P. reflexivity.
Qed.

(** C2: an author with an empty word before the last one makes the APA
    renderer index an empty string, where the MLA renderer returns; a note
    with such an author fails the whole document. *)
Theorem format_apa_raises raw use_incipit :
  format_citation rt
    (citation_fields (Some (py "John  Smith")) None None None None None raw)
    (py "apa")
  = Raise IndexError /\
  format_citation rt
    (citation_fields (Some (py "John  Smith")) None None None None None raw)
    (py "mla")
  = Ok (py "Smith, John . <em></em>.") /\
  process_document rt net_refused
    (Zip [ (endnotes_member, Xml double_space_document) ]) (py "apa")
    use_incipit
  = (Failure (StrOf IndexError), None) /\
  (quiet rt ->
   process_document rt net_down
     (Zip [ (endnotes_member, Xml double_space_document) ]) (py "apa")
     use_incipit
   = (Failure (StrOf IndexError), None)).
Proof.
  repeat split. intros Hq. rewrite timeout_as_refusal by exact Hq.
  reflexivity.
Qed.

Lemma format_all_empty raw :
  let cd := citation_fields None None None None None None raw in
  format_citation rt cd (py "chicago") = Ok (py ", <em></em>.") /\
  format_citation rt cd (py "mla") = Ok (py ". <em></em>.") /\
  format_citation rt cd (py "apa") = Ok (py " <em></em>.") /\
  format_citation rt cd (py "bluebook") = Ok (py "UNTITLED.").
Proof. repeat split. Qed.

End RenderingFacts.

(** C5 refuted as stated: with a place and a year but no publisher the
    colon is written, and the comma after the author is written although
    neither author nor title is present. *)
Lemma chicago_colon_without_publisher :
  let cd :=
    citation_fields None None None (Some (py "Paris")) (Some (py "1999"))
      None [] in
  format_chicago plain_runtime cd = Ok (py ", <em></em> (Paris: 1999).") /\
  truthy (field cd "publisher") = false /\
  truthy (field cd "author") = false /\
  truthy (field cd "title") = false.
Proof. vm_compute. repeat split. Qed.

(** ** The merge *)


Lemma merge_absent (found parsed : dict pyval) key :
  dict_get found key = None ->
  dict_get (merge parsed found) key = dict_get parsed key.
Proof.
  unfold merge. revert parsed.
  induction found as [|[k v] found IH]; intros parsed Hk; simpl in *; auto.
  destruct (str_eqb k key) eqn:E; [discriminate|].
  rewrite IH by assumption.
  destruct (truthy v && negb (truthy (get parsed k))); auto.
  apply dict_get_set_other. apply str_eqb_neq; assumption.
Qed.



(** ** The lookup *)

Section LookupFacts.
Context (rt : runtime) (net : network).

Lemma lookup_citation_ok author title :
  quiet rt -> exists r, snd (lookup_citation rt net author title) = Ok r.
Proof.
  intros Hq. unfold lookup_citation.
  destruct (negb (truthy (py_or author title))); simpl; eauto.
  destruct (lookup_try rt (net (lookup_query rt author title)) author title);
    [eauto|].
  rewrite Hq. eauto.
Qed.

Lemma lookup_citation_failed author title e :
  quiet rt ->
  truthy (py_or author title) = true ->
  lookup_try rt (net (lookup_query rt author title)) author title = Raise e ->
  lookup_citation rt net author title
  = ([lookup_query rt author title], Ok None).
Proof.
  intros Hq Ht He. unfold lookup_citation. rewrite Ht, He, Hq. reflexivity.
Qed.

Lemma lookup_citation_printed author title e e' :
  truthy (py_or author title) = true ->
  lookup_try rt (net (lookup_query rt author title)) author title = Raise e ->
  print_error rt (lookup_query rt author title) e = Some e' ->
  snd (lookup_citation rt net author title) = Raise e'.
Proof.
  intros Ht He Hp. unfold lookup_citation. rewrite Ht, He, Hp. reflexivity.
Qed.

End LookupFacts.

(** C7: a failure of the lookup does reach the pipeline, in two ways.  A
    reply that is well-formed JSON but holds a number where the publisher's
    name is expected is returned without an exception and merged into the
    note's fields, and the renderer raises on it: the document that is
    processed with success when the lookup finds nothing fails with
    [TypeError].  And the handler prints the exception it caught: when
    standard output raises on that line, the exception leaves
    [lookup_citation] and fails the document as well. *)
Theorem lookup_failure_fails_document (rt : runtime) (use_incipit : bool) :
  snd (lookup_citation rt net_number (PStr (py "Smith")) (PStr (py "Title")))
  = Ok (Some [ (py "author", PStr (py "Smith"));
               (py "title", PStr (py "Title"));
               (py "publisher", PInt 5);
               (py "place", PStr (py "Paris"));
               (py "year", PNone) ]) /\
  process_document rt net_number
    (Zip [ (endnotes_member, Xml sample_document) ]) (py "chicago")
    use_incipit
  = (Failure (StrOf TypeError), None) /\
  (exists packed,
     process_document rt net_refused
       (Zip [ (endnotes_member, Xml sample_document) ]) (py "chicago")
       use_incipit
     = (Success 1 [ {| log_id := py "1";
                       log_original := py "Smith, Title";
                       log_formatted := py "Smith, <em>Title</em>." |} ],
        Some packed)) /\
  (forall net author title e e',
     truthy (py_or author title) = true ->
     lookup_try rt (net (lookup_query rt author title)) author title
     = Raise e ->
     print_error rt (lookup_query rt author title) e = Some e' ->
     snd (lookup_citation rt net author title) = Raise e') /\
  process_document strict_runtime net_down
    (Zip [ (endnotes_member, Xml sample_document) ]) (py "chicago")
    use_incipit
  = (Failure (StrOf UnicodeEncodeError), None).
Proof.
  split; [reflexivity|]. split; [reflexivity|].
  split; [eexists; reflexivity|].
  split; [|reflexivity].
  intros net author title e e'. apply lookup_citation_printed.
Qed.

(** ** The pipeline *)

(** C6: without [word/endnotes.xml] the result is the failure with the
    reason ["No endnotes found in document"], and no output file is
    written. *)
Theorem missing_endnotes_fails rt net members citation_style use_incipit :
  dict_get members endnotes_member = None ->
  process_document rt net (Zip members) citation_style use_incipit
  = (Failure (Message (py "No endnotes found in document")), None).
Proof. intros H. unfold process_document. simpl. rewrite H. reflexivity. Qed.

Lemma missing_endnotes_fails_witness :
  let members : dict content := [ (py "word/document.xml", Raw []) ] in
  dict_get members endnotes_member = None /\
  process_document plain_runtime net_down (Zip members) (py "chicago") false
  = (Failure (Message (py "No endnotes found in document")), None).
Proof.
  intros members. split; [reflexivity|].
  apply (missing_endnotes_fails plain_runtime net_down members (py "chicago")
           false eq_refl).
Defined.

(** C10: the format flag is not read: two runs that differ only in it
    return the same dictionary and leave the same output file. *)
Theorem use_incipit_ignored rt net input citation_style (flag flag' : bool) :
  process_document rt net input citation_style flag
  = process_document rt net input citation_style flag'.
Proof. reflexivity. Qed.

(** ** The document tree *)

Lemma node_induction (P : node -> Prop) :
  (forall s, P (Text s)) ->
  (forall tag attrs ch, Forall P ch -> P (Element tag attrs ch)) ->
  forall n, P n.
Proof.
  intros Ht He. fix IH 1. intros [s|tag attrs ch].
  - apply Ht.
  - apply He. induction ch as [|c ch IHch]; constructor; auto.
Qed.

Lemma elements_in_elem name tag attrs ch :
  elements_in name (Element tag attrs ch)
  = (if str_eqb tag name then [Element tag attrs ch] else [])
    ++ elements_below name ch.
Proof.
  simpl. f_equal. induction ch as [|c ch IH]; simpl; congruence.
Qed.

Lemma paths_in_elem name tag attrs ch :
  paths_in name (Element tag attrs ch)
  = (if str_eqb tag name then [[]] else []) ++ paths_below name 0 ch.
Proof.
  simpl. f_equal. generalize 0.
  induction ch as [|c ch IH]; intros i; simpl; [|rewrite IH]; reflexivity.
Qed.

Lemma assign_in_elem text tag attrs ch :
  assign_in text (Element tag attrs ch)
  = if str_eqb tag w_t then
      Some (match ch with
            | [] => Raise AttributeError
            | Text _ :: ch' => Ok (Element tag attrs (Text text :: ch'))
            | Element _ _ _ :: _ => Ok (Element tag attrs ch)
            end)
    else match assign_below text ch with
         | Some r => Some (ch' <- r ;; Ok (Element tag attrs ch'))
         | None => None
         end.
Proof.
  simpl. destruct (str_eqb tag w_t); [reflexivity|].
  match goal with
  | |- match ?a with _ => _ end = match ?b with _ => _ end =>
      assert (E : a = b); [|rewrite E; reflexivity]
  end.
  induction ch as [|c ch IH]; simpl; [reflexivity|].
  destruct (assign_in text c); [reflexivity|]. rewrite IH. reflexivity.
Qed.

Lemma elements_below_app name l l' :
  elements_below name (l ++ l')
  = elements_below name l ++ elements_below name l'.
Proof.
  induction l as [|c l IH]; simpl; [|rewrite IH, app_assoc]; reflexivity.
Qed.

Lemma paths_match_elements name n :
  List.length (paths_in name n) = List.length (elements_in name n).
Proof.
  induction n as [s|tag attrs ch IH] using node_induction; [reflexivity|].
  rewrite paths_in_elem, elements_in_elem, !length_app. f_equal.
  - destruct (str_eqb tag name); reflexivity.
  - generalize 0. induction IH as [|c ch Hc _ IHch]; intros i;
      cbn [paths_below elements_below]; auto.
    rewrite !length_app, length_map. f_equal; [exact Hc | apply IHch].
Qed.

Lemma paths_below_match name i l :
  List.length (paths_below name i l) = List.length (elements_below name l).
Proof.
  revert i. induction l as [|c l IH]; intros i;
    cbn [paths_below elements_below]; auto.
  rewrite !length_app, length_map. f_equal; [apply paths_match_elements | apply IH].
Qed.

(** ** The loop over the endnotes *)

Lemma bind_ok {A} (r : result A) : (x <- r ;; Ok x) = r.
Proof. destruct r; reflexivity. Qed.

Lemma bind_assoc {A B C} (r : result A) (f : A -> result B)
  (g : B -> result C) :
  (y <- (x <- r ;; f x) ;; g y) = (x <- r ;; y <- f x ;; g y).
Proof. destruct r; reflexivity. Qed.

Lemma update_loop_app fe ps qs dom :
  update_loop fe (ps ++ qs) dom
  = (dom' <- update_loop fe ps dom ;; update_loop fe qs dom').
Proof.
  revert dom. induction ps as [|p ps IH]; intros dom; simpl; auto.
  destruct (modify p (rewrite_endnote fe) dom); simpl; auto.
Qed.

Lemma modify_nth_app g pre c l :
  modify_nth (List.length pre) g (pre ++ c :: l)
  = (c' <- g c ;; Ok (pre ++ c' :: l)).
Proof.
  induction pre as [|x pre IH]; simpl; [reflexivity|].
  rewrite IH. destruct (g c); reflexivity.
Qed.

Lemma update_loop_child fe tag attrs pre l ps : forall c,
  update_loop fe (map (cons (List.length pre)) ps)
    (Element tag attrs (pre ++ c :: l))
  = (c' <- update_loop fe ps c ;; Ok (Element tag attrs (pre ++ c' :: l))).
Proof.
  induction ps as [|p ps IH]; intros c; [reflexivity|].
  cbn [map update_loop modify]. rewrite modify_nth_app.
  destruct (modify p (rewrite_endnote fe) c) as [c'|e]; [|reflexivity].
  cbn [bind]. apply IH.
Qed.

Lemma flat_note_no_paths tag attrs ch :
  flat_note (Element tag attrs ch) = true ->
  paths_below w_endnote 0 ch = [].
Proof.
  unfold flat_note, getElementsByTagName. cbn [children]. intros H.
  apply length_zero_iff_nil. rewrite paths_below_match.
  destruct (elements_below w_endnote ch); [reflexivity | discriminate].
Qed.

Lemma update_loop_flat fe n :
  forallb flat_note (elements_in w_endnote n) = true ->
  update_loop fe (paths_in w_endnote n) n = rewrite_all fe n.
Proof.
  induction n as [s|tag attrs ch IH] using node_induction; [reflexivity|].
  rewrite paths_in_elem, elements_in_elem. cbn [rewrite_all].
  destruct (str_eqb tag w_endnote) eqn:Etag.
  - cbn [app forallb]. intros H. apply andb_true_iff in H. destruct H as [H _].
    rewrite (flat_note_no_paths _ _ _ H). cbn [app update_loop modify].
    apply bind_ok.
  - cbn [app]. intros H.
    change (Element tag attrs ch) with (Element tag attrs ([] ++ ch)) at 1.
    change 0 with (List.length (@nil node)).
    change (Element tag attrs) with (fun l => Element tag attrs ([] ++ l)) at 2.
    generalize (@nil node) as pre.
    induction IH as [|c l Hc _ IHl]; intros pre.
    + cbn. rewrite app_nil_r. reflexivity.
    + cbn [elements_below] in H. rewrite forallb_app in H.
      apply andb_true_iff in H. destruct H as [H1 H2].
      cbn [paths_below mapM]. rewrite update_loop_app, update_loop_child.
      rewrite (Hc H1). rewrite !bind_assoc.
      destruct (rewrite_all fe c) as [c'|e]; [|reflexivity]. cbn [bind].
      replace (pre ++ c' :: l) with ((pre ++ [c']) ++ l)
        by (rewrite <- app_assoc; reflexivity).
      replace (S (List.length pre)) with (List.length (pre ++ [c']))
        by (rewrite length_app; simpl; lia).
      rewrite (IHl H2). cbn beta. rewrite !bind_assoc.
      destruct (mapM (rewrite_all fe) l); cbn [bind];
        [rewrite <- app_assoc|]; reflexivity.
Qed.

(** ** What the assignments leave alone *)

Lemma elements_skel name n :
  elements_in name (skel n) = map skel (elements_in name n).
Proof.
  induction n as [s|tag attrs ch IH] using node_induction; [reflexivity|].
  cbn [skel]. rewrite !elements_in_elem, map_app. f_equal.
  - destruct (str_eqb tag name); reflexivity.
  - induction IH as [|c l Hc _ IHl]; [reflexivity|].
    cbn [map elements_below]. rewrite map_app, Hc, IHl. reflexivity.
Qed.

Lemma elements_below_skel name l :
  elements_below name (map skel l) = map skel (elements_below name l).
Proof.
  induction l as [|c l IH]; [reflexivity|].
  cbn [map elements_below]. rewrite map_app, elements_skel, IH. reflexivity.
Qed.

Lemma skel_blank_first l : map skel (blank_first l) = map skel l.
Proof. destruct l as [|[s|tag attrs ch] l]; reflexivity. Qed.

Lemma skel_clear n : skel (clear_node n) = skel n.
Proof.
  induction n as [s|tag attrs ch IH] using node_induction; [reflexivity|].
  cbn [clear_node skel]. f_equal.
  assert (E : map skel (map clear_node ch) = map skel ch).
  { induction IH as [|c l Hc _ IHl]; [reflexivity|].
    cbn [map]. rewrite Hc, IHl. reflexivity. }
  destruct (str_eqb tag w_t); [rewrite skel_blank_first|]; exact E.
Qed.

Lemma skel_clear_all l : map skel (map clear_node l) = map skel l.
Proof.
  induction l as [|c l IH]; [reflexivity|].
  cbn [map]. rewrite skel_clear, IH. reflexivity.
Qed.

Lemma skel_assign text n : forall n',
  assign_in text n = Some (Ok n') -> skel n' = skel n.
Proof.
  induction n as [s|tag attrs ch IH] using node_induction; [discriminate|].
  intros n'. rewrite assign_in_elem. destruct (str_eqb tag w_t).
  - destruct ch as [|[s|t a c] ch]; intros H; inversion H; reflexivity.
  - destruct (assign_below text ch) as [[ch'|e]|] eqn:E; try discriminate.
    intros H; inversion H; subst; clear H. cbn [skel]. f_equal.
    revert ch' E. induction IH as [|c l Hc _ IHl]; intros ch' E;
      [discriminate|].
    cbn [assign_below] in E.
    destruct (assign_in text c) as [[c'|e]|]; try discriminate.
    + inversion E; subst. cbn [map]. rewrite (Hc c' eq_refl). reflexivity.
    + destruct (assign_below text l) as [[l'|e]|]; try discriminate.
      inversion E; subst. cbn [map]. rewrite (IHl l' eq_refl). reflexivity.
Qed.

Lemma skel_assign_below text l : forall l',
  assign_below text l = Some (Ok l') -> map skel l' = map skel l.
Proof.
  induction l as [|c l IH]; intros l' E; [discriminate|].
  cbn [assign_below] in E.
  destruct (assign_in text c) as [[c'|e]|] eqn:Ec; try discriminate.
  - inversion E; subst. cbn [map]. rewrite (skel_assign _ _ Ec). reflexivity.
  - destruct (assign_below text l) as [[l1|e]|]; try discriminate.
    inversion E; subst. cbn [map]. rewrite (IH l1 eq_refl). reflexivity.
Qed.

Lemma skel_rewrite fe e e1 :
  rewrite_endnote fe e = Ok e1 -> skel e1 = skel e.
Proof.
  destruct e as [s|tag attrs ch]; cbn [rewrite_endnote].
  - intros H; inversion H; reflexivity.
  - destruct (dict_get fe _); [|intros H; inversion H; reflexivity].
    destruct (assign_below _ _) as [[ch'|err]|] eqn:E; intros H;
      inversion H; subst; cbn [skel]; f_equal.
    + rewrite (skel_assign_below _ _ E). apply skel_clear_all.
    + apply skel_clear_all.
Qed.

Lemma skel_attribute n name : getAttribute (skel n) name = getAttribute n name.
Proof. destruct n; reflexivity. Qed.

Lemma skel_same_attribute n n' name :
  skel n' = skel n -> getAttribute n' name = getAttribute n name.
Proof.
  intros H. rewrite <- (skel_attribute n'), H. apply skel_attribute.
Qed.

Lemma skel_same_elements name l l' :
  map skel l' = map skel l ->
  map skel (elements_below name l') = map skel (elements_below name l).
Proof. intros H. rewrite <- !elements_below_skel, H. reflexivity. Qed.

(** ** The first inner loop *)

Lemma elements_below_blank name l :
  elements_below name (blank_first l) = elements_below name l.
Proof. destruct l as [|[s|tag attrs ch] l]; reflexivity. Qed.

Lemma clear_elements name n :
  elements_in name (clear_node n) = map clear_node (elements_in name n).
Proof.
  induction n as [s|tag attrs ch IH] using node_induction; [reflexivity|].
  cbn [clear_node]. rewrite !elements_in_elem, map_app.
  assert (E : elements_below name (map clear_node ch)
              = map clear_node (elements_below name ch)).
  { induction IH as [|c l Hc _ IHl]; [reflexivity|].
    cbn [map elements_below]. rewrite map_app, Hc, IHl. reflexivity. }
  f_equal.
  - destruct (str_eqb tag name); reflexivity.
  - destruct (str_eqb tag w_t); [rewrite elements_below_blank|]; exact E.
Qed.

Lemma clear_elements_below name l :
  elements_below name (map clear_node l)
  = map clear_node (elements_below name l).
Proof.
  induction l as [|c l IH]; [reflexivity|].
  cbn [map elements_below]. rewrite map_app, clear_elements, IH. reflexivity.
Qed.

(** ** The assignment to the first text run *)

Lemma assign_first text n :
  (elements_in w_t n = [] -> assign_in text n = None) /\
  (forall t ts, elements_in w_t n = t :: ts -> children t <> [] ->
   exists n1, assign_in text n = Some (Ok n1) /\
              elements_in w_t n1 = assign_run text t :: ts).
Proof.
  induction n as [s|tag attrs ch IH] using node_induction.
  - split; [reflexivity | discriminate].
  - rewrite elements_in_elem, assign_in_elem.
    destruct (str_eqb tag w_t) eqn:Etag.
    + split; [discriminate|]. intros t ts H Hch.
      cbn [app] in H. inversion H; subst; clear H. cbn [children] in Hch.
      destruct ch as [|[s|t a c] ch]; [congruence| |];
        eexists; (split; [reflexivity|]);
        rewrite elements_in_elem, Etag; reflexivity.
    + cbn [app].
      assert (L :
        (elements_below w_t ch = [] -> assign_below text ch = None) /\
        (forall t ts, elements_below w_t ch = t :: ts -> children t <> [] ->
         exists l1, assign_below text ch = Some (Ok l1) /\
                    elements_below w_t l1 = assign_run text t :: ts)).
      { clear Etag. induction IH as [|c l [Hc0 Hc1] _ [IH0 IH1]].
        - split; [reflexivity | discriminate].
        - cbn [elements_below assign_below]. split.
          + intros H. apply app_eq_nil in H. destruct H as [H1 H2].
            rewrite (Hc0 H1), (IH0 H2). reflexivity.
          + intros t ts H Hch.
            destruct (elements_in w_t c) as [|t0 ts0] eqn:Ec.
            * rewrite (Hc0 eq_refl). cbn [app] in H.
              destruct (IH1 _ _ H Hch) as [l1 [E1 E2]].
              rewrite E1. eexists; split; [reflexivity|].
              cbn [elements_below]. rewrite Ec, E2. reflexivity.
            * cbn [app] in H. inversion H; subst; clear H.
              destruct (Hc1 _ _ eq_refl Hch) as [c1 [E1 E2]].
              rewrite E1. eexists; split; [reflexivity|].
              cbn [elements_below]. rewrite E2. reflexivity. }
      destruct L as [L0 L1]. split.
      * intros H. rewrite (L0 H). reflexivity.
      * intros t ts H Hch. destruct (L1 _ _ H Hch) as [l1 [E1 E2]].
        rewrite E1. eexists; split; [reflexivity|].
        rewrite elements_in_elem, Etag. exact E2.
Qed.

Lemma assign_first_below text l :
  (elements_below w_t l = [] -> assign_below text l = None) /\
  (forall t ts, elements_below w_t l = t :: ts -> children t <> [] ->
   exists l1, assign_below text l = Some (Ok l1) /\
              elements_below w_t l1 = assign_run text t :: ts).
Proof.
  induction l as [|c l [IH0 IH1]].
  - split; [reflexivity | discriminate].
  - destruct (assign_first text c) as [Hc0 Hc1].
    cbn [elements_below assign_below]. split.
    + intros H. apply app_eq_nil in H. destruct H as [H1 H2].
      rewrite (Hc0 H1), (IH0 H2). reflexivity.
    + intros t ts H Hch.
      destruct (elements_in w_t c) as [|t0 ts0] eqn:Ec.
      * rewrite (Hc0 eq_refl). cbn [app] in H.
        destruct (IH1 _ _ H Hch) as [l1 [E1 E2]].
        rewrite E1. eexists; split; [reflexivity|].
        cbn [elements_below]. rewrite Ec, E2. reflexivity.
      * cbn [app] in H. inversion H; subst; clear H.
        destruct (Hc1 _ _ eq_refl Hch) as [c1 [E1 E2]].
        rewrite E1. eexists; split; [reflexivity|].
        cbn [elements_below]. rewrite E2. reflexivity.
Qed.

(** ** One endnote rewritten *)

Lemma rewrite_endnote_shape fe tag attrs ch e1 :
  rewrite_endnote fe (Element tag attrs ch) = Ok e1 ->
  exists ch1, e1 = Element tag attrs ch1 /\ map skel ch1 = map skel ch.
Proof.
  intros H. pose proof (skel_rewrite _ _ H) as Hs. revert H.
  cbn [rewrite_endnote]. destruct (dict_get fe _).
  - destruct (assign_below _ _) as [[ch'|err]|]; intros H; inversion H; subst;
      eexists; (split; [reflexivity|]); cbn [skel] in Hs; congruence.
  - intros H; inversion H; subst. eauto.
Qed.

Lemma rewrite_endnote_untargeted fe e :
  dict_get fe (getAttribute e w_id) = None -> rewrite_endnote fe e = Ok e.
Proof.
  destruct e as [s|tag attrs ch]; [reflexivity|].
  cbn [rewrite_endnote]. intros ->. reflexivity.
Qed.

Lemma rewrite_endnote_targeted fe tag attrs ch formatted_text :
  dict_get fe (getAttribute (Element tag attrs ch) w_id) = Some formatted_text ->
  writable (Element tag attrs ch) = true ->
  exists ch1 t ts,
    rewrite_endnote fe (Element tag attrs ch) = Ok (Element tag attrs ch1) /\
    elements_below w_t ch = t :: ts /\
    elements_below w_t ch1
    = assign_run (strip_em formatted_text) (clear_node t) :: map clear_node ts.
Proof.
  intros Hf Hw. cbn [rewrite_endnote]. rewrite Hf.
  unfold writable, getElementsByTagName in Hw. cbn [children] in Hw.
  destruct (elements_below w_t ch) as [|t ts] eqn:Et; [discriminate|].
  destruct (assign_first_below (strip_em formatted_text) (map clear_node ch))
    as [_ H1].
  rewrite clear_elements_below, Et in H1. cbn [map] in H1.
  destruct (H1 _ _ eq_refl) as [l1 [E1 E2]].
  - destruct t as [s|tg at' [|c cs]]; try discriminate.
    cbn [clear_node children].
    destruct (str_eqb tg w_t); [destruct c|]; discriminate.
  - rewrite E1. exists l1, t, ts. auto.
Qed.

(** ** All endnotes rewritten *)

Lemma rewrite_all_endnotes fe n :
  forallb flat_note (elements_in w_endnote n) = true ->
  Forall (fun e => exists e1, rewrite_endnote fe e = Ok e1)
         (elements_in w_endnote n) ->
  exists n1,
    rewrite_all fe n = Ok n1 /\
    Forall2 (fun e e1 => rewrite_endnote fe e = Ok e1)
            (elements_in w_endnote n) (elements_in w_endnote n1).
Proof.
  induction n as [s|tag attrs ch IH] using node_induction.
  - intros _ _. exists (Text s). split; [reflexivity | constructor].
  - rewrite elements_in_elem. cbn [rewrite_all].
    destruct (str_eqb tag w_endnote) eqn:Etag; cbn [app].
    + cbn [forallb]. intros Hflat Hok.
      apply andb_true_iff in Hflat. destruct Hflat as [Hflat _].
      unfold flat_note, getElementsByTagName in Hflat. cbn [children] in Hflat.
      destruct (elements_below w_endnote ch) eqn:Eb; [|discriminate].
      inversion Hok as [|? ? [e1 He1] _]; subst.
      exists e1. split; [exact He1|].
      destruct (rewrite_endnote_shape _ _ _ _ He1) as [ch1 [-> Hs]].
      rewrite elements_in_elem, Etag.
      pose proof (skel_same_elements w_endnote _ _ Hs) as Hn.
      rewrite Eb in Hn. apply map_eq_nil in Hn. rewrite Hn.
      repeat constructor. exact He1.
    + intros Hflat Hok.
      assert (L : exists ch1,
                 mapM (rewrite_all fe) ch = Ok ch1 /\
                 Forall2 (fun e e1 => rewrite_endnote fe e = Ok e1)
                         (elements_below w_endnote ch)
                         (elements_below w_endnote ch1)).
      { clear Etag. induction IH as [|c l Hc _ IHl].
        - exists []. split; [reflexivity | constructor].
        - cbn [elements_below] in Hflat, Hok.
          rewrite forallb_app in Hflat. apply andb_true_iff in Hflat.
          apply Forall_app in Hok.
          destruct Hflat as [F1 F2], Hok as [O1 O2].
          destruct (Hc F1 O1) as [c1 [E1 R1]].
          destruct (IHl F2 O2) as [l1 [E2 R2]].
          exists (c1 :: l1). cbn [mapM elements_below].
          rewrite E1, E2. split; [reflexivity|].
          apply Forall2_app; assumption. }
      destruct L as [ch1 [E R]]. rewrite E.
      exists (Element tag attrs ch1). split; [reflexivity|].
      rewrite elements_in_elem, Etag. exact R.
Qed.

(** ** Writing and reading back *)

Lemma all_some_forall2 {A B} (f : A -> option B) l : forall l',
  all_some (map f l) = Some l' -> Forall2 (fun a b => f a = Some b) l l'.
Proof.
  induction l as [|a l IH]; intros l' H; cbn in H.
  - inversion H. constructor.
  - destruct (f a) eqn:Ea; [|discriminate].
    destruct (all_some (map f l)); [|discriminate].
    inversion H; subst. constructor; auto.
Qed.

Lemma elements_below_read name l :
  elements_below name (map read_text l) = elements_below name l.
Proof.
  induction l as [|[s|tag attrs ch] l IH]; [reflexivity| |];
    cbn [map elements_below read_text]; rewrite IH; reflexivity.
Qed.

Lemma elements_below_text name s l :
  elements_below name (Text s :: l) = elements_below name l.
Proof. reflexivity. Qed.

Lemma elements_below_merge name l :
  elements_below name (merge_text l) = elements_below name l.
Proof.
  induction l as [|[a|tag attrs ch] l IH]; [reflexivity| |].
  - cbn [merge_text]. rewrite elements_below_text, <- IH.
    destruct (merge_text l) as [|[b|t0 a0 c0] r]; destruct a; reflexivity.
  - cbn [merge_text elements_below]. rewrite IH. reflexivity.
Qed.

Lemma reparse_elem tag attrs ch n' :
  reparse (Element tag attrs ch) = Some n' ->
  exists ch',
    all_some (map reparse ch) = Some ch' /\
    n' = Element tag (read_attributes attrs) (map read_text (merge_text ch')).
Proof.
  cbn [reparse]. destruct (values_ok attrs); [|discriminate].
  destruct (all_some (map reparse ch)) as [ch'|]; [|discriminate].
  intros H; inversion H. eauto.
Qed.

Lemma reparse_elements name n : forall n',
  reparse n = Some n' ->
  Forall2 (fun e e' => reparse e = Some e')
          (elements_in name n) (elements_in name n').
Proof.
  induction n as [s|tag attrs ch IH] using node_induction; intros n' H.
  - cbn in H. destruct (forallb xml_char s); inversion H. constructor.
  - destruct (reparse_elem _ _ _ H) as [ch' [E ->]].
    rewrite !elements_in_elem, elements_below_read, elements_below_merge.
    apply Forall2_app.
    + destruct (str_eqb tag name); repeat constructor. exact H.
    + apply all_some_forall2 in E. clear H.
      revert ch' E. induction IH as [|c l Hc _ IHl]; intros ch' E;
        inversion E; subst; [constructor|].
      cbn [elements_below]. apply Forall2_app; auto.
Qed.

Lemma line_ends_id s : existsb (N.eqb 13) s = false -> line_ends s = s.
Proof.
  induction s as [|c s IH]; [reflexivity|]. cbn [existsb line_ends].
  intros H. apply orb_false_iff in H. destruct H as [H1 H2].
  rewrite N.eqb_sym, H1, (IH H2). reflexivity.
Qed.

Lemma xml_text_chars s : xml_text s = true -> forallb xml_char s = true.
Proof. unfold xml_text. intros H. apply andb_true_iff in H. tauto. Qed.

Lemma xml_text_lines s : xml_text s = true -> line_ends s = s.
Proof.
  unfold xml_text. intros H. apply andb_true_iff in H. destruct H as [_ H].
  apply line_ends_id. destruct (existsb _ s); [discriminate | reflexivity].
Qed.

Lemma stable_merge l :
  forallb stable l = true -> separated l = true -> merge_text l = l.
Proof.
  induction l as [|[a|tag attrs ch] l IH]; [reflexivity| |].
  - cbn [forallb]. intros H S. apply andb_true_iff in H. destruct H as [Ha Hl].
    cbn [stable] in Ha. apply andb_true_iff in Ha. destruct Ha as [_ Ha].
    assert (Sl : separated l = true)
      by (destruct l as [|[b|? ? ?] l]; [reflexivity| discriminate | exact S]).
    cbn [merge_text]. rewrite (IH Hl Sl).
    destruct l as [|[b|? ? ?] l]; [| discriminate |];
      destruct a; (discriminate || reflexivity).
  - cbn [forallb]. intros H S. apply andb_true_iff in H. destruct H as [_ Hl].
    cbn [merge_text]. rewrite (IH Hl); [reflexivity|].
    destruct l as [|[b|? ? ?] l]; exact S.
Qed.

Lemma stable_read l : forallb stable l = true -> map read_text l = l.
Proof.
  induction l as [|[a|tag attrs ch] l IH]; [reflexivity| |];
    cbn [forallb map read_text]; intros H; apply andb_true_iff in H;
    destruct H as [Ha Hl]; rewrite (IH Hl); [|reflexivity].
  cbn [stable] in Ha. apply andb_true_iff in Ha. destruct Ha as [Ha _].
  rewrite (xml_text_lines _ Ha). reflexivity.
Qed.

Lemma kept_value_chars v : kept_value v = true -> forallb xml_char v = true.
Proof. unfold kept_value. intros H. apply andb_true_iff in H. tauto. Qed.

Lemma kept_value_read v : kept_value v = true -> read_value v = v.
Proof.
  unfold kept_value, read_value. intros H. apply andb_true_iff in H.
  destruct H as [_ H]. apply negb_true_iff in H.
  assert (L : line_ends v = v).
  { apply line_ends_id. revert H. clear.
    induction v as [|c v IH]; [reflexivity|]. cbn [existsb]. intros H.
    apply orb_false_iff in H. destruct H as [H1 H2].
    apply orb_false_iff in H1. destruct H1 as [_ H1].
    rewrite N.eqb_sym, H1, (IH H2). reflexivity. }
  rewrite L. clear L. induction v as [|c v IH]; [reflexivity|].
  cbn [existsb] in H. apply orb_false_iff in H. destruct H as [H1 H2].
  apply orb_false_iff in H1. destruct H1 as [H1 _].
  cbn [map]. rewrite H1, (IH H2). reflexivity.
Qed.

Lemma kept_values_ok attrs : kept_values attrs = true -> values_ok attrs = true.
Proof.
  unfold kept_values, values_ok. rewrite !forallb_forall.
  intros H kv Hin. apply kept_value_chars, H, Hin.
Qed.

Lemma kept_values_read attrs :
  kept_values attrs = true -> read_attributes attrs = attrs.
Proof.
  unfold kept_values, read_attributes.
  induction attrs as [|[k v] attrs IH]; [reflexivity|].
  cbn [forallb map fst snd]. intros H. apply andb_true_iff in H.
  destruct H as [H1 H2]. rewrite (kept_value_read _ H1), (IH H2). reflexivity.
Qed.

Lemma stable_elem tag attrs ch :
  stable (Element tag attrs ch) = true ->
  kept_values attrs = true /\ forallb stable ch = true /\
  separated ch = true.
Proof.
  cbn [stable]. intros H. apply andb_true_iff in H. destruct H as [H H3].
  apply andb_true_iff in H. tauto.
Qed.

Lemma stable_reparse n : stable n = true -> reparse n = Some n.
Proof.
  induction n as [s|tag attrs ch IH] using node_induction.
  - cbn [stable reparse]. intros H. apply andb_true_iff in H.
    destruct H as [H _]. rewrite (xml_text_chars _ H). reflexivity.
  - intros H. destruct (stable_elem _ _ _ H) as (Ha & Hs & Hsep).
    cbn [reparse]. rewrite (kept_values_ok _ Ha), (kept_values_read _ Ha).
    assert (E : all_some (map reparse ch) = Some ch).
    { clear Hsep H. induction IH as [|c l Hc _ IHl]; [reflexivity|].
      cbn [forallb] in Hs. apply andb_true_iff in Hs. destruct Hs as [H1 H2].
      cbn [map all_some]. rewrite (Hc H1), (IHl H2). reflexivity. }
    rewrite E, (stable_merge _ Hs Hsep), (stable_read _ Hs). reflexivity.
Qed.

Lemma stable_elements name n :
  stable n = true -> forallb stable (elements_in name n) = true.
Proof.
  induction n as [s|tag attrs ch IH] using node_induction; [reflexivity|].
  intros H. rewrite elements_in_elem, forallb_app. apply andb_true_iff. split.
  - destruct (str_eqb tag name); [|reflexivity].
    cbn [forallb]. rewrite H. reflexivity.
  - destruct (stable_elem _ _ _ H) as (_ & Hs & _). clear H.
    induction IH as [|c l Hc _ IHl]; [reflexivity|].
    cbn [forallb] in Hs. apply andb_true_iff in Hs. destruct Hs as [H1 H2].
    cbn [elements_below]. rewrite forallb_app, (Hc H1), (IHl H2). reflexivity.
Qed.

Lemma chars_elem tag attrs ch :
  chars_ok (Element tag attrs ch) = true ->
  values_ok attrs = true /\ forallb chars_ok ch = true.
Proof. cbn [chars_ok]. intros H. apply andb_true_iff in H. exact H. Qed.

Lemma stable_chars n : stable n = true -> chars_ok n = true.
Proof.
  induction n as [s|tag attrs ch IH] using node_induction.
  - cbn [stable chars_ok]. intros H. apply andb_true_iff in H.
    destruct H as [H _]. apply xml_text_chars, H.
  - intros H. destruct (stable_elem _ _ _ H) as (Ha & Hs & _). clear H.
    cbn [chars_ok]. rewrite (kept_values_ok _ Ha). cbn [andb].
    induction IH as [|c l Hc _ IHl]; [reflexivity|].
    cbn [forallb] in *. apply andb_true_iff in Hs. destruct Hs as [H1 H2].
    rewrite (Hc H1), (IHl H2). reflexivity.
Qed.

Lemma chars_reparse n : chars_ok n = true -> exists n', reparse n = Some n'.
Proof.
  induction n as [s|tag attrs ch IH] using node_induction.
  - cbn [chars_ok reparse]. intros ->. eauto.
  - intros H0. destruct (chars_elem _ _ _ H0) as [Ha H]. clear H0.
    cbn [reparse]. rewrite Ha.
    assert (E : exists ch', all_some (map reparse ch) = Some ch').
    { induction IH as [|c l Hc _ IHl]; [exists []; reflexivity|].
      cbn [forallb] in H. apply andb_true_iff in H. destruct H as [H1 H2].
      destruct (Hc H1) as [c' Ec], (IHl H2) as [l' El].
      exists (c' :: l'). cbn [map all_some]. rewrite Ec, El. reflexivity. }
    destruct E as [ch' ->]. eauto.
Qed.

Lemma xml_char_not_surrogate c : xml_char c = true -> surrogate c = false.
Proof.
  unfold xml_char, surrogate, between.
  rewrite !orb_true_iff, !andb_true_iff, !N.eqb_eq, !N.leb_le.
  intros H. apply andb_false_iff. rewrite !N.leb_gt. lia.
Qed.

Lemma text_no_surrogate s :
  forallb xml_char s = true -> existsb surrogate s = false.
Proof.
  induction s as [|c s IHs]; [reflexivity|]. cbn [forallb existsb].
  intros H. apply andb_true_iff in H. destruct H as [H1 H2].
  rewrite (xml_char_not_surrogate _ H1), (IHs H2). reflexivity.
Qed.

Lemma chars_no_surrogate n : chars_ok n = true -> has_surrogate n = false.
Proof.
  induction n as [s|tag attrs ch IH] using node_induction.
  - cbn [chars_ok has_surrogate]. apply text_no_surrogate.
  - intros H0. destruct (chars_elem _ _ _ H0) as [Ha H]. clear H0.
    cbn [has_surrogate]. apply orb_false_iff. split.
    + unfold values_ok in Ha. clear IH H.
      induction attrs as [|[k v] attrs IHa]; [reflexivity|].
      cbn [forallb existsb snd] in *. apply andb_true_iff in Ha.
      destruct Ha as [H1 H2].
      rewrite (text_no_surrogate _ H1), (IHa H2). reflexivity.
    + induction IH as [|c l Hc _ IHl]; [reflexivity|].
      cbn [forallb existsb] in *. apply andb_true_iff in H.
      destruct H as [H1 H2]. rewrite (Hc H1), (IHl H2). reflexivity.
Qed.

(** ** Characters the assignments write *)

Lemma chars_blank l :
  forallb chars_ok l = true -> forallb chars_ok (blank_first l) = true.
Proof.
  destruct l as [|[s|tag attrs ch] l]; auto.
  cbn [blank_first forallb chars_ok]. intros H.
  apply andb_true_iff in H. destruct H as [_ ->]. reflexivity.
Qed.

Lemma chars_clear n : chars_ok n = true -> chars_ok (clear_node n) = true.
Proof.
  induction n as [s|tag attrs ch IH] using node_induction; [auto|].
  intros H0. destruct (chars_elem _ _ _ H0) as [Ha H]. clear H0.
  cbn [chars_ok clear_node]. rewrite Ha. cbn [andb].
  assert (E : forallb chars_ok (map clear_node ch) = true).
  { induction IH as [|c l Hc _ IHl]; [reflexivity|].
    cbn [forallb map] in *. apply andb_true_iff in H. destruct H as [H1 H2].
    rewrite (Hc H1), (IHl H2). reflexivity. }
  destruct (str_eqb tag w_t); [apply chars_blank|]; exact E.
Qed.

Lemma chars_clear_all l :
  forallb chars_ok l = true -> forallb chars_ok (map clear_node l) = true.
Proof.
  induction l as [|c l IH]; [reflexivity|]. cbn [forallb map]. intros H.
  apply andb_true_iff in H. destruct H as [H1 H2].
  rewrite (chars_clear _ H1), (IH H2). reflexivity.
Qed.

Lemma chars_assign text n : forall n',
  forallb xml_char text = true -> chars_ok n = true ->
  assign_in text n = Some (Ok n') -> chars_ok n' = true.
Proof.
  induction n as [s|tag attrs ch IH] using node_induction; [discriminate|].
  intros n' Ht Hn0. destruct (chars_elem _ _ _ Hn0) as [Ha Hn].
  rewrite assign_in_elem. destruct (str_eqb tag w_t).
  - destruct ch as [|[s|t a c] ch]; intros H; inversion H; subst; auto.
    cbn [chars_ok forallb] in *. rewrite Ha, Ht.
    apply andb_true_iff in Hn. destruct Hn as [_ ->]. reflexivity.
  - destruct (assign_below text ch) as [[ch'|e]|] eqn:E; try discriminate.
    intros H; inversion H; subst; clear H Hn0. cbn [chars_ok].
    rewrite Ha. cbn [andb]. clear Ha.
    revert ch' E. induction IH as [|c l Hc _ IHl]; intros ch' E;
      [discriminate|].
    cbn [forallb] in Hn. apply andb_true_iff in Hn. destruct Hn as [H1 H2].
    cbn [assign_below] in E.
    destruct (assign_in text c) as [[c'|e]|]; try discriminate.
    + inversion E; subst. cbn [forallb].
      rewrite (Hc c' Ht H1 eq_refl), H2. reflexivity.
    + destruct (assign_below text l) as [[l'|e]|]; try discriminate.
      inversion E; subst. cbn [forallb].
      rewrite H1, (IHl H2 l' eq_refl). reflexivity.
Qed.

Lemma chars_assign_below text l : forall l',
  forallb xml_char text = true -> forallb chars_ok l = true ->
  assign_below text l = Some (Ok l') -> forallb chars_ok l' = true.
Proof.
  induction l as [|c l IH]; intros l' Ht Hl E; [discriminate|].
  cbn [forallb] in Hl. apply andb_true_iff in Hl. destruct Hl as [H1 H2].
  cbn [assign_below] in E.
  destruct (assign_in text c) as [[c'|e]|] eqn:Ec; try discriminate.
  - inversion E; subst. cbn [forallb].
    rewrite (chars_assign _ _ Ht H1 Ec), H2. reflexivity.
  - destruct (assign_below text l) as [[l1|e]|]; try discriminate.
    inversion E; subst. cbn [forallb]. rewrite H1, (IH l1 Ht H2 eq_refl).
    reflexivity.
Qed.

Lemma dict_get_in {V} (d : dict V) k v :
  dict_get d k = Some v -> exists k', In (k', v) d.
Proof.
  induction d as [|[k0 v0] d IH]; [discriminate|]. cbn [dict_get].
  destruct (str_eqb k0 k).
  - intros H; inversion H; subst. exists k0. left; reflexivity.
  - intros H. destruct (IH H) as [k' Hin]. exists k'. right; exact Hin.
Qed.

Lemma writable_text fe k formatted_text :
  writable_texts fe = true -> dict_get fe k = Some formatted_text ->
  forallb xml_char (strip_em formatted_text) = true.
Proof.
  unfold writable_texts. rewrite forallb_forall. intros H Hk.
  destruct (dict_get_in _ _ Hk) as [k' Hin]. specialize (H _ Hin).
  cbn [snd] in H. rewrite forallb_forall in *. intros c Hc.
  apply H. exact (re_sub_subset _ _ _ _ _ Hc).
Qed.

(** ** The emphasis markers *)

Lemma starts_with_split w : forall s,
  starts_with w s = true -> s = w ++ skipn (List.length w) s.
Proof.
  induction w as [|a w IH]; intros [|b s] H; try reflexivity;
    [discriminate|].
  cbn [starts_with] in H. apply andb_true_iff in H. destruct H as [H1 H2].
  apply N.eqb_eq in H1. subst b. cbn [List.length skipn app].
  rewrite <- (IH _ H2). reflexivity.
Qed.

Lemma starts_with_length w s :
  starts_with w s = true ->
  List.length s - List.length (skipn (List.length w) s) = List.length w.
Proof.
  intros H. rewrite length_skipn.
  assert (L : List.length w <= List.length s).
  { rewrite (starts_with_split _ _ H), length_app. lia. }
  lia.
Qed.

Lemma re_lit_hit w : forall prev s,
  starts_with w s = true ->
  exists p, re_lit w (prev, s) = [(p, skipn (List.length w) s)].
Proof.
  induction w as [|a w IH]; intros prev s H.
  - exists prev. reflexivity.
  - destruct s as [|b s]; [discriminate|].
    cbn [starts_with] in H. apply andb_true_iff in H. destruct H as [H1 H2].
    destruct (IH (Some b) s H2) as [p E]. exists p.
    cbn [re_lit]. unfold re_seq, re_chr, re_cls. cbn [snd].
    rewrite H1. cbn [flat_map]. rewrite app_nil_r. exact E.
Qed.

Lemma re_lit_miss w : forall prev s,
  starts_with w s = false -> re_lit w (prev, s) = [].
Proof.
  induction w as [|a w IH]; intros prev s H; [discriminate|].
  cbn [re_lit]. unfold re_seq, re_chr, re_cls. cbn [snd].
  destruct s as [|b s]; [reflexivity|].
  cbn [starts_with] in H. destruct (N.eqb a b); [|reflexivity].
  cbn [andb] in H. cbn [flat_map]. rewrite app_nil_r. exact (IH _ _ H).
Qed.

Lemma strip_em_from s : forall prev skip,
  re_sub em_re prev s skip = without_markers s skip.
Proof.
  induction s as [|c s IH]; intros prev skip; [reflexivity|].
  cbn [re_sub without_markers]. destruct skip as [|n]; [|apply IH].
  unfold em_re at 1, re_alt.
  destruct (starts_with (py "<em>") (c :: s)) eqn:E1.
  - destruct (re_lit_hit _ prev _ E1) as [p ->].
    cbn [app snd]. rewrite (starts_with_length _ _ E1). apply IH.
  - rewrite (re_lit_miss _ prev _ E1). cbn [app].
    destruct (starts_with (py "</em>") (c :: s)) eqn:E2.
    + destruct (re_lit_hit _ prev _ E2) as [p ->].
      cbn [snd]. rewrite (starts_with_length _ _ E2). apply IH.
    + rewrite (re_lit_miss _ prev _ E2). rewrite IH. reflexivity.
Qed.

Lemma strip_em_markers s : strip_em s = without_markers s 0.
Proof. apply strip_em_from. Qed.

Lemma chars_rewrite fe e e1 :
  writable_texts fe = true -> chars_ok e = true ->
  rewrite_endnote fe e = Ok e1 -> chars_ok e1 = true.
Proof.
  intros Hfe He. destruct e as [s|tag attrs ch]; cbn [rewrite_endnote].
  - intros H; inversion H; subst. exact He.
  - destruct (dict_get fe _) as [f|] eqn:Ef;
      [|intros H; inversion H; subst; exact He].
    pose proof (writable_text _ _ Hfe Ef) as Hf.
    destruct (chars_elem _ _ _ He) as [Ha Hch].
    pose proof (chars_clear_all _ Hch) as Hc.
    destruct (assign_below _ _) as [[ch'|err]|] eqn:E; intros H;
      inversion H; subst; cbn [chars_ok]; rewrite Ha; cbn [andb]; auto.
    exact (chars_assign_below _ _ Hf Hc E).
Qed.

Lemma chars_rewrite_all fe n : forall n1,
  writable_texts fe = true -> chars_ok n = true ->
  rewrite_all fe n = Ok n1 -> chars_ok n1 = true.
Proof.
  induction n as [s|tag attrs ch IH] using node_induction; intros n1 Hfe Hn.
  - intros H; inversion H; subst. exact Hn.
  - cbn [rewrite_all]. destruct (str_eqb tag w_endnote).
    + apply chars_rewrite; assumption.
    + destruct (mapM (rewrite_all fe) ch) as [ch1|e] eqn:E; [|discriminate].
      intros H; inversion H; subst; clear H.
      destruct (chars_elem _ _ _ Hn) as [Ha Hch]. clear Hn.
      cbn [chars_ok]. rewrite Ha. cbn [andb]. clear Ha.
      rename Hch into Hn.
      revert ch1 E. induction IH as [|c l Hc _ IHl]; intros ch1 E.
      * inversion E. reflexivity.
      * cbn [forallb] in Hn. apply andb_true_iff in Hn.
        destruct Hn as [H1 H2]. cbn [mapM] in E.
        destruct (rewrite_all fe c) as [c1|e] eqn:Ec; [|discriminate].
        destruct (mapM (rewrite_all fe) l) as [l1|e]; [|discriminate].
        inversion E; subst. cbn [forallb].
        rewrite (Hc c1 Hfe H1 eq_refl), (IHl H2 l1 eq_refl). reflexivity.
Qed.

(** ** The text of a note *)

Lemma elements_tagged name n :
  forallb (has_tag name) (elements_in name n) = true.
Proof.
  induction n as [s|tag attrs ch IH] using node_induction; [reflexivity|].
  rewrite elements_in_elem, forallb_app. apply andb_true_iff. split.
  - destruct (str_eqb tag name) eqn:E; [|reflexivity].
    cbn [forallb has_tag]. rewrite E. reflexivity.
  - induction IH as [|c l Hc _ IHl]; [reflexivity|].
    cbn [elements_below]. rewrite forallb_app, Hc, IHl. reflexivity.
Qed.

Lemma elements_below_tagged name l :
  forallb (has_tag name) (elements_below name l) = true.
Proof.
  induction l as [|c l IH]; [reflexivity|].
  cbn [elements_below]. rewrite forallb_app, elements_tagged, IH. reflexivity.
Qed.

Lemma join_empty vs :
  Forall (fun v => v = empty) vs -> join_values vs = Ok [].
Proof.
  induction 1 as [|v vs Hv _ IH]; [reflexivity|].
  subst v. cbn [join_values empty]. rewrite IH. reflexivity.
Qed.

Lemma join_simple ts :
  forallb simple_run ts = true ->
  exists old, join_values (map first_value ts) = Ok old.
Proof.
  induction ts as [|t ts IH]; [exists []; reflexivity|].
  cbn [forallb map]. intros H. apply andb_true_iff in H. destruct H as [H1 H2].
  destruct (IH H2) as [old E].
  assert (V : exists s, first_value t = PStr s).
  { unfold simple_run in H1. unfold first_value, empty.
    destruct (children t) as [|[s|? ? ?] [|? ?]]; try discriminate; eauto. }
  destruct V as [s ->]. cbn [join_values]. rewrite E. eexists; reflexivity.
Qed.

Lemma run_cleared t t' :
  has_tag w_t t = true -> simple_run t = true ->
  reparse (clear_node t) = Some t' -> first_value t' = empty.
Proof.
  destruct t as [s|tag attrs ch]; [discriminate|].
  cbn [has_tag]. intros Ht Hs. cbn [clear_node]. rewrite Ht.
  unfold simple_run in Hs. cbn [children] in Hs.
  destruct ch as [|[s|? ? ?] [|? ?]]; try discriminate;
    cbn [map clear_node blank_first reparse all_some forallb];
    (destruct (values_ok attrs); [|discriminate]);
    intros H; inversion H; reflexivity.
Qed.

Lemma line_ends_cons c text :
  exists d rest, line_ends (c :: text) = d :: rest.
Proof.
  cbn [line_ends]. destruct (N.eqb c 13); eauto.
Qed.

Lemma run_assigned text t t' :
  has_tag w_t t = true -> simple_run t = true -> children t <> [] ->
  forallb xml_char text = true ->
  reparse (assign_run text (clear_node t)) = Some t' ->
  first_value t' = PStr (line_ends text).
Proof.
  destruct t as [s|tag attrs ch]; [discriminate|].
  cbn [has_tag children]. intros Ht Hs Hch Hx. cbn [clear_node]. rewrite Ht.
  unfold simple_run in Hs. cbn [children] in Hs.
  destruct ch as [|[s|? ? ?] [|? ?]]; try discriminate; [congruence|].
  cbn [map clear_node blank_first assign_run reparse all_some].
  destruct (values_ok attrs); [|discriminate].
  rewrite Hx. cbn [all_some merge_text].
  destruct text as [|c text].
  - intros H; inversion H. reflexivity.
  - cbn [map read_text]. intros H; inversion H. reflexivity.
Qed.

(** ** One note through the write and the next read *)

Lemma cleared_runs ts : forall ts',
  forallb (has_tag w_t) ts = true -> forallb simple_run ts = true ->
  Forall2 (fun e e' => reparse e = Some e') (map clear_node ts) ts' ->
  Forall (fun v => v = empty) (map first_value ts').
Proof.
  induction ts as [|t ts IH]; intros ts' Ht Hs H; inversion H; subst.
  - constructor.
  - cbn [forallb] in Ht, Hs.
    apply andb_true_iff in Ht. apply andb_true_iff in Hs.
    destruct Ht as [T1 T2], Hs as [S1 S2].
    cbn [map]. constructor; [eapply run_cleared; eauto | apply IH; auto].
Qed.

Lemma note_round_trip fe e e1 e2 :
  writable_texts fe = true ->
  has_tag w_endnote e = true -> stable e = true -> simple_runs e = true ->
  negb (dict_mem fe (getAttribute e w_id)) || writable e = true ->
  rewrite_endnote fe e = Ok e1 -> reparse e1 = Some e2 ->
  note_rewritten fe e e2.
Proof.
  intros Hfe Htag Hst Hsimple Hw H1 H2.
  destruct e as [s|tag attrs ch]; [discriminate|].
  cbn [has_tag] in Htag. apply str_eqb_eq in Htag. subst tag.
  unfold simple_runs, getElementsByTagName in Hsimple. cbn [children] in Hsimple.
  destruct (join_simple _ Hsimple) as [old Hold].
  unfold note_rewritten, written_text, full_text, getElementsByTagName.
  cbn [children].
  destruct (dict_get fe (getAttribute (Element w_endnote attrs ch) w_id))
    as [f|] eqn:Ef.
  - unfold dict_mem in Hw. rewrite Ef in Hw. cbn [negb orb] in Hw.
    destruct (rewrite_endnote_targeted _ _ _ _ Ef Hw)
      as (ch1 & t & ts & R1 & Et & E1).
    rewrite R1 in H1. inversion H1; subst e1; clear H1.
    pose proof (reparse_elements w_t _ H2) as F.
    destruct (reparse_elem _ _ _ H2) as [ch' [_ ->]].
    rewrite !elements_in_elem in F.
    change (str_eqb w_endnote w_t) with false in F. cbn [app] in F.
    rewrite elements_below_read, elements_below_merge, E1 in F.
    rewrite (kept_values_read _ (proj1 (stable_elem _ _ _ Hst))).
    rewrite <- strip_em_markers.
    split; [reflexivity|]. exists old. split; [exact Hold|].
    cbn [children]. rewrite elements_below_read, elements_below_merge.
    pose proof (elements_below_tagged w_t ch) as Ht. rewrite Et in *.
    cbn [forallb] in Ht, Hsimple.
    apply andb_true_iff in Ht. apply andb_true_iff in Hsimple.
    destruct Ht as [T1 T2], Hsimple as [S1 S2].
    inversion F as [|? t' ? ts' Ft Fts]; subst.
    cbn [map].
    assert (Hch : children t <> []).
    { unfold writable, getElementsByTagName in Hw. cbn [children] in Hw.
      rewrite Et in Hw. destruct (children t); [discriminate | congruence]. }
    rewrite (run_assigned _ _ T1 S1 Hch (writable_text _ _ Hfe Ef) Ft).
    cbn [join_values].
    rewrite (join_empty (cleared_runs _ T2 S2 Fts)). cbn [bind].
    rewrite app_nil_r. reflexivity.
  - rewrite (rewrite_endnote_untargeted _ _ Ef) in H1.
    inversion H1; subst e1; clear H1.
    rewrite (stable_reparse _ Hst) in H2. inversion H2; subst e2.
    split; [reflexivity|]. exists old. split; exact Hold.
Qed.

(** ** The extraction loop on related notes *)

Lemma extract_related fe notes notes2 :
  Forall2 (note_rewritten fe) notes notes2 ->
  forall acc acc2,
    (forall k, dict_get acc2 k = option_map (written_text fe k) (dict_get acc k)) ->
    exists endnotes endnotes2,
      extract_loop notes acc = Ok endnotes /\
      extract_loop notes2 acc2 = Ok endnotes2 /\
      forall k, dict_get endnotes2 k
                = option_map (written_text fe k) (dict_get endnotes k).
Proof.
  induction 1 as [|e e2 notes notes2 [Hid [old [Ho Hn]]] _ IH];
    intros acc acc2 Hacc.
  - exists acc, acc2. auto.
  - cbn [extract_loop]. rewrite Hid.
    destruct (getAttribute e w_id) as [|c k0] eqn:Eid; [apply IH, Hacc|].
    destruct (negb (reserved (c :: k0))); [|apply IH, Hacc].
    rewrite Ho, Hn. cbn [bind]. apply IH. intros k.
    rewrite !dict_get_set. destruct (str_eqb (c :: k0) k) eqn:Ek.
    + apply str_eqb_eq in Ek. subst k. reflexivity.
    + apply Hacc.
Qed.

Lemma Forall2_through {A} (P : A -> Prop) (R S Q : A -> A -> Prop) :
  (forall a b c, P a -> R a b -> S b c -> Q a c) ->
  forall l l1, Forall2 R l l1 -> forall l2, Forall2 S l1 l2 ->
  Forall P l -> Forall2 Q l l2.
Proof.
  intros H l l1 HR. induction HR as [|a b l l1 Hab _ IH];
    intros l2 HS HP; inversion HS; subst; [constructor|].
  inversion HP; subst. constructor; eauto.
Qed.

(** ** The round trip *)

Lemma rewrite_all_related fe n : forall n1,
  forallb flat_note (elements_in w_endnote n) = true ->
  rewrite_all fe n = Ok n1 ->
  Forall2 (fun e e1 => rewrite_endnote fe e = Ok e1)
          (elements_in w_endnote n) (elements_in w_endnote n1).
Proof.
  intros n1 Hflat H.
  destruct (rewrite_all_endnotes fe n Hflat) as [n1' [E R]].
  - revert n1 Hflat H.
    induction n as [s|tag attrs ch IH] using node_induction;
      intros n1 Hflat H; [constructor|].
    rewrite elements_in_elem in *. cbn [rewrite_all] in H.
    destruct (str_eqb tag w_endnote) eqn:Etag; cbn [app] in *.
    + cbn [forallb] in Hflat. apply andb_true_iff in Hflat.
      destruct Hflat as [Hflat _].
      unfold flat_note, getElementsByTagName in Hflat. cbn [children] in Hflat.
      destruct (elements_below w_endnote ch); [|discriminate].
      repeat constructor. eauto.
    + destruct (mapM (rewrite_all fe) ch) as [ch1|e] eqn:E; [|discriminate].
      clear H Etag. revert ch1 E.
      induction IH as [|c l Hc _ IHl]; intros ch1 E; [constructor|].
      cbn [elements_below] in *. rewrite forallb_app in Hflat.
      apply andb_true_iff in Hflat. destruct Hflat as [F1 F2].
      cbn [mapM] in E.
      destruct (rewrite_all fe c) as [c1|e] eqn:Ec; [|discriminate].
      destruct (mapM (rewrite_all fe) l) as [l1|e]; [|discriminate].
      apply Forall_app. split; [exact (Hc c1 F1 eq_refl) | eauto].
  - rewrite E in H. inversion H; subst. exact R.
Qed.

(** C3, as the code has it: on a well-formed document (one that is read
    back as written, text and attribute values alike, with no endnote
    inside another and character data only in its text runs), with a first
    text run to write to in every note the mapping names and texts made of
    characters XML can carry, the write succeeds and the next extraction
    returns the same note ids: each with its old text when the mapping does
    not name it, and else with the formatted text without its emphasis
    markers, read from left to right, and with every carriage return, alone
    or before a line feed, as a line feed. *)
Theorem write_then_extract (formatted_endnotes : dict str) (dom : node) :
  well_formed dom = true ->
  targets_writable formatted_endnotes dom = true ->
  writable_texts formatted_endnotes = true ->
  exists file' endnotes endnotes',
    extract_endnotes (Xml dom) = Ok endnotes /\
    update_endnotes_xml (Xml dom) formatted_endnotes = Ok file' /\
    extract_endnotes file' = Ok endnotes' /\
    forall note_id,
      dict_get endnotes' note_id
      = option_map (written_text formatted_endnotes note_id)
                   (dict_get endnotes note_id).
Proof.
  set (fe := formatted_endnotes).
  unfold well_formed, targets_writable, flat_endnotes, document_endnotes.
  intros Hwf Htw Hfe.
  apply andb_true_iff in Hwf. destruct Hwf as [Hwf Hsimple].
  apply andb_true_iff in Hwf. destruct Hwf as [Hst Hflat].
  assert (HP : Forall
            (fun e => has_tag w_endnote e = true /\ stable e = true /\
                      simple_runs e = true /\
                      negb (dict_mem fe (getAttribute e w_id)) || writable e
                      = true)
            (elements_in w_endnote dom)).
  { pose proof (elements_tagged w_endnote dom) as T.
    pose proof (stable_elements w_endnote dom Hst) as S.
    rewrite forallb_forall in *. apply Forall_forall. intros e He. auto. }
  assert (Hok : Forall (fun e => exists e1, rewrite_endnote fe e = Ok e1)
                       (elements_in w_endnote dom)).
  { eapply Forall_impl; [|exact HP]. intros e (Ht & _ & _ & Hw).
    destruct e as [s|tag attrs ch]; [discriminate|].
    destruct (dict_get fe (getAttribute (Element tag attrs ch) w_id))
      as [f|] eqn:Ef.
    - unfold dict_mem in Hw. rewrite Ef in Hw.
      destruct (rewrite_endnote_targeted _ _ _ _ Ef Hw) as (ch1 & ? & ? & R & _).
      eauto.
    - rewrite (rewrite_endnote_untargeted _ _ Ef). eauto. }
  destruct (rewrite_all_endnotes fe dom Hflat Hok) as [dom1 [E1 R1]].
  pose proof (chars_rewrite_all _ _ Hfe (stable_chars _ Hst) E1) as Hc.
  destruct (chars_reparse _ Hc) as [dom2 E2].
  pose proof (reparse_elements w_endnote _ E2) as R2.
  assert (R : Forall2 (note_rewritten fe) (elements_in w_endnote dom)
                      (elements_in w_endnote dom2)).
  { refine (Forall2_through _ _ R1 R2 HP).
    intros a b c (Ht & Hs & Hr & Hw) Hab Hbc.
    eapply note_round_trip; eauto. }
  destruct (extract_related R [] [] (fun k => eq_refl))
    as (endnotes & endnotes' & X1 & X2 & X3).
  exists (Xml dom2), endnotes, endnotes'.
  unfold extract_endnotes, update_endnotes_xml, document_endnotes.
  cbn [parseString bind].
  rewrite (update_loop_flat fe dom Hflat), E1. cbn [bind].
  unfold write_xml. rewrite (chars_no_surrogate _ Hc), E2.
  cbn [parseString bind]. auto.
Qed.

Lemma write_then_extract_witness :
  well_formed sample_document = true /\
  targets_writable sample_mapping sample_document = true /\
  writable_texts sample_mapping = true /\
  exists file' endnotes endnotes',
    extract_endnotes (Xml sample_document) = Ok endnotes /\
    update_endnotes_xml (Xml sample_document) sample_mapping = Ok file' /\
    extract_endnotes file' = Ok endnotes' /\
    forall note_id,
      dict_get endnotes' note_id
      = option_map (written_text sample_mapping note_id)
                   (dict_get endnotes note_id).
Proof.
  split; [reflexivity|]. split; [reflexivity|]. split; [reflexivity|].
  exact (write_then_extract sample_mapping sample_document
           eq_refl eq_refl eq_refl).
Defined.

(** C3 refuted as stated: the text extraction returns after the write is
    not the text supplied; the emphasis markers are gone. *)
Lemma extract_after_write_strips_em :
  dict_get sample_mapping (py "1") = Some (py "Smith, <em>Title</em>.") /\
  (file' <- update_endnotes_xml (Xml sample_document) sample_mapping ;;
   extract_endnotes file')
  = Ok [ (py "1", py "Smith, Title.") ] /\
  py "Smith, Title." <> py "Smith, <em>Title</em>.".
Proof. vm_compute. repeat split. discriminate. Qed.

(** ** Reserved ids *)

Lemma extract_loop_reserved notes : forall acc endnotes k,
  extract_loop notes acc = Ok endnotes -> reserved k = true ->
  dict_get acc k = None -> dict_get endnotes k = None.
Proof.
  induction notes as [|e notes IH]; intros acc endnotes k H Hr Hacc.
  - inversion H; subst. exact Hacc.
  - cbn [extract_loop] in H.
    destruct (getAttribute e w_id) as [|c k0] eqn:Eid; [eauto|].
    destruct (reserved (c :: k0)) eqn:Er; cbn [negb] in H; [eauto|].
    destruct (full_text e) as [text|err]; [|discriminate]. cbn [bind] in H.
    apply (IH _ _ _ H Hr). rewrite dict_get_set.
    destruct (str_eqb (c :: k0) k) eqn:Ek; [|exact Hacc].
    apply str_eqb_eq in Ek. congruence.
Qed.

Lemma dict_get_absent {V} (d : dict V) k :
  dict_get d k = None -> ~ In k (map fst d).
Proof.
  induction d as [|[k0 v0] d IH]; [auto|]. cbn [dict_get map fst].
  destruct (str_eqb k0 k) eqn:E; [discriminate|].
  apply str_eqb_neq in E. intros H [H0|H0]; [congruence | exact (IH H H0)].
Qed.

Lemma process_notes_keys rt net style items : forall fe log done k,
  process_notes rt net style items fe log = Ok done ->
  dict_get fe k = None -> ~ In k (map fst items) ->
  dict_get (fst done) k = None.
Proof.
  induction items as [|[note_id note_text] items IH];
    intros fe log done k H Hfe Hk.
  - inversion H; subst. exact Hfe.
  - cbn [process_notes] in H.
    destruct (resolve_note rt net note_text) as [parsed|e]; [|discriminate].
    cbn [bind] in H.
    destruct (format_citation rt parsed style) as [formatted|e];
      [|discriminate].
    cbn [bind] in H. apply (IH _ _ _ _ H).
    + rewrite dict_get_set_other; [exact Hfe|].
      intros ->. apply Hk. left; reflexivity.
    + intros Hin. apply Hk. right; exact Hin.
Qed.

Lemma reserved_rewritten fe notes notes1 :
  (forall k, reserved k = true -> dict_get fe k = None) ->
  Forall2 (fun e e1 => rewrite_endnote fe e = Ok e1) notes notes1 ->
  Forall2 reserved_kept notes notes1.
Proof.
  intros Hfe H. induction H as [|e e1 notes notes1 He _ IH]; constructor; auto.
  intros Hr. rewrite (rewrite_endnote_untargeted _ _ (Hfe _ Hr)) in He.
  inversion He; reflexivity.
Qed.

Lemma reserved_reread notes : forall notes1 notes2,
  forallb stable notes = true ->
  Forall2 reserved_kept notes notes1 ->
  Forall2 (fun e e' => reparse e = Some e') notes1 notes2 ->
  Forall2 reserved_kept notes notes2.
Proof.
  induction notes as [|e notes IH]; intros notes1 notes2 Hs H1 H2;
    inversion H1; subst; inversion H2; subst; constructor.
  - cbn [forallb] in Hs. apply andb_true_iff in Hs. destruct Hs as [Hs _].
    intros Hr. match goal with H : reserved_kept e _ |- _ => rewrite (H Hr) in * end.
    match goal with H : reparse e = Some _ |- _ =>
      rewrite (stable_reparse _ Hs) in H; inversion H; reflexivity end.
  - cbn [forallb] in Hs. apply andb_true_iff in Hs. destruct Hs as [_ Hs].
    eapply IH; eauto.
Qed.

(** C9, as the code has it: extraction never returns a reserved id; and
    when no endnote element lies inside another, the loop of the
    write-back assigns nothing inside a note with a reserved id: the tree
    the pipeline serialises holds every such note as it was parsed, and so
    does the file it writes when the document is one that is read back as
    written, text and attribute values alike. *)
Theorem reserved_notes_skipped rt net :
  (forall file endnotes k,
     extract_endnotes file = Ok endnotes -> reserved k = true ->
     dict_get endnotes k = None) /\
  (forall members dom citation_style use_incipit returned packed,
     dict_get members endnotes_member = Some (Xml dom) ->
     flat_endnotes dom = true ->
     process_document rt net (Zip members) citation_style use_incipit
     = (returned, Some packed) ->
     exists endnotes done tree file',
       extract_endnotes (Xml dom) = Ok endnotes /\
       process_notes rt net citation_style endnotes [] [] = Ok done /\
       update_loop (fst done) (paths_in w_endnote dom) dom = Ok tree /\
       write_xml tree = Ok file' /\
       dict_get packed endnotes_member = Some file' /\
       Forall2 reserved_kept (document_endnotes dom) (document_endnotes tree) /\
       (stable dom = true ->
        exists written,
          (file' = Xml written \/ file' = Unparsable written) /\
          Forall2 reserved_kept (document_endnotes dom)
                  (document_endnotes written))).
Proof.
  assert (X : forall file endnotes k,
             extract_endnotes file = Ok endnotes -> reserved k = true ->
             dict_get endnotes k = None).
  { intros file endnotes k H Hr. unfold extract_endnotes in H.
    destruct (parseString file) as [dom|e]; [|discriminate].
    cbn [bind] in H. eapply extract_loop_reserved; eauto. }
  split; [exact X|].
  intros members dom style flag returned packed Hm Hflat.
  unfold process_document, unpack_docx. rewrite Hm. unfold process_endnotes.
  destruct (extract_endnotes (Xml dom)) as [endnotes|e] eqn:Ex;
    [|discriminate].
  cbn [bind].
  destruct (process_notes rt net style endnotes [] []) as [done|e] eqn:Ep;
    [|discriminate].
  cbn [bind]. unfold update_endnotes_xml. cbn [parseString bind].
  destruct (update_loop (fst done) (paths_in w_endnote dom) dom)
    as [tree|e] eqn:E1; [|discriminate].
  cbn [bind].
  destruct (write_xml tree) as [file'|e] eqn:Ew; [|discriminate].
  cbn [bind]. intros H; inversion H; subst; clear H.
  assert (Hfe : forall k, reserved k = true -> dict_get (fst done) k = None).
  { intros k Hr. eapply process_notes_keys; [exact Ep | reflexivity |].
    apply dict_get_absent. eapply X; eauto. }
  unfold flat_endnotes, document_endnotes in *.
  rewrite (update_loop_flat (fst done) dom Hflat) in E1.
  assert (R1 : Forall2 reserved_kept (elements_in w_endnote dom)
                       (elements_in w_endnote tree)).
  { eapply reserved_rewritten; [exact Hfe|].
    apply rewrite_all_related; assumption. }
  exists endnotes, done, tree, file'.
  rewrite (update_loop_flat (fst done) dom Hflat).
  repeat (split; [first [reflexivity | assumption
                        | apply dict_get_set_same]|]).
  intros Hst. unfold write_xml in Ew.
  destruct (has_surrogate tree); [discriminate|].
  destruct (reparse tree) as [dom2|] eqn:E2; inversion Ew; subst; clear Ew.
  - exists dom2. split; [left; reflexivity|].
    eapply reserved_reread; [apply stable_elements, Hst | exact R1 |].
    apply reparse_elements, E2.
  - exists tree. split; [right; reflexivity | exact R1].
Qed.

Lemma reserved_notes_skipped_witness :
  flat_endnotes sample_document = true /\
  exists tree,
    snd (process_document plain_runtime net_down
           (Zip [ (endnotes_member, Xml sample_document) ])
           (py "chicago") false)
    = Some [ (endnotes_member, Xml tree) ] /\
    Forall2 reserved_kept (document_endnotes sample_document)
            (document_endnotes tree).
Proof.
  split; [reflexivity|].
  destruct (process_document plain_runtime net_down
              (Zip [ (endnotes_member, Xml sample_document) ])
              (py "chicago") false) as [returned [packed|]] eqn:E;
    [|vm_compute in E; discriminate E].
  destruct (proj2 (reserved_notes_skipped plain_runtime net_down)
              [ (endnotes_member, Xml sample_document) ] sample_document
              (py "chicago") false returned packed eq_refl eq_refl E)
    as (endnotes & done & tree & file' & _ & _ & _ & _ & Hp & _ & Hs).
  destruct (Hs eq_refl) as [written [Hw R]].
  exists written. split; [|exact R].
  vm_compute in E. inversion E; subst; clear E.
  vm_compute in Hp. inversion Hp; subst; clear Hp.
  destruct Hw as [Hw|Hw]; inversion Hw; reflexivity.
Defined.

(** C9 refuted as stated: a separator note inside a citation note is
    blanked when the citation note is rewritten. *)
Lemma nested_reserved_note_blanked :
  snd (process_document plain_runtime net_down
         (Zip [ (endnotes_member, Xml nested_document) ])
         (py "chicago") false)
  = Some [ (endnotes_member, Xml nested_written) ] /\
  map full_text (reserved_notes nested_document) = [ Ok (py "sep") ] /\
  map full_text (reserved_notes nested_written) = [ Ok [] ].
Proof. vm_compute. repeat split. Qed.

(** * Further properties *)

(** ** Upload validation *)

Lemma span_until_found sep (s a b : str) :
  span_until sep s = (a, Some b) ->
  s = a ++ sep :: b /\ existsb (N.eqb sep) a = false.
Proof.
  revert a b. induction s as [|c s IH]; intros a b H; cbn in H.
  - discriminate.
  - destruct (N.eqb c sep) eqn:E.
    + inversion H; subst. apply N.eqb_eq in E. subst. auto.
    + destruct (span_until sep s) as [a0 b0]. cbn in H. inversion H; subst.
      destruct (IH a0 b eq_refl) as [-> Hn]. split; [reflexivity|].
      cbn. rewrite N.eqb_sym, E. exact Hn.
Qed.

Lemma span_until_app sep (a b : str) :
  existsb (N.eqb sep) a = false ->
  span_until sep (a ++ sep :: b) = (a, Some b).
Proof.
  induction a as [|c a IH]; cbn; intros H.
  - rewrite N.eqb_refl. reflexivity.
  - apply orb_false_iff in H. destruct H as [H1 H2].
    rewrite N.eqb_sym, H1, (IH H2). reflexivity.
Qed.

Lemma span_until_none sep (s : str) :
  existsb (N.eqb sep) s = true -> exists a b, span_until sep s = (a, Some b).
Proof.
  induction s as [|c s IH]; cbn; [discriminate|].
  destruct (N.eqb c sep) eqn:E; [eauto|].
  rewrite N.eqb_sym, E. cbn. intros H. destruct (IH H) as (a & b & ->).
  cbn. eauto.
Qed.

Lemma existsb_rev (p : N -> bool) (s : str) : existsb p (rev s) = existsb p s.
Proof.
  induction s as [|c s IH]; [reflexivity|].
  cbn. rewrite existsb_app, IH. cbn. rewrite orb_false_r. apply orb_comm.
Qed.

(** X1: [allowed_file] never raises, and it accepts a name exactly when
    the name has a dot and what follows its last dot is ["docx"] in lower
    case. *)
Theorem allowed_file_extension rt (filename : str) :
  exists accepted,
    allowed_file rt filename = Ok accepted /\
    (accepted = true <->
     exists base ext,
       filename = base ++ 46%N :: ext /\
       existsb (N.eqb 46) ext = false /\
       str_lower rt ext = py "docx").
Proof.
  unfold allowed_file, rsplit1.
  destruct (existsb (N.eqb 46) filename) eqn:Edot.
  - rewrite <- existsb_rev in Edot.
    destruct (span_until_none _ _ Edot) as (a & b & E). rewrite E. cbn.
    destruct (span_until_found _ _ E) as [Hrev Hna].
    assert (Hf : filename = rev b ++ 46%N :: rev a).
    { rewrite <- (rev_involutive filename), Hrev, rev_app_distr. cbn.
      rewrite <- app_assoc. reflexivity. }
    rewrite <- existsb_rev in Hna.
    eexists. split; [reflexivity|]. rewrite orb_false_r. split.
    + intros H. apply str_eqb_eq in H.
      exists (rev b), (rev a). auto.
    + intros (base & ext & Hb & Hn & Hl). apply str_eqb_eq.
      assert (Hr : rev filename = rev ext ++ 46%N :: rev base).
      { rewrite Hb, rev_app_distr. cbn. rewrite <- app_assoc. reflexivity. }
      rewrite Hr, span_until_app in E by (rewrite existsb_rev; exact Hn).
      inversion E; subst. rewrite rev_involutive. exact Hl.
  - exists false. split; [reflexivity|]. split; [discriminate|].
    intros (base & ext & Hb & _). subst filename.
    rewrite existsb_app in Edot. cbn in Edot.
    rewrite orb_true_r in Edot. discriminate.
Qed.

(** ** Place inference *)

Lemma infer_loop_first rt table (publisher : str) :
  exists place,
    infer_loop rt table (PStr publisher) = Ok (PStr place) /\
    ((place = [] /\ forallb (no_match rt publisher) table = true) \/
     (exists before pub after,
        table = before ++ (pub, place) :: after /\
        publisher_matches rt pub publisher = true /\
        forallb (no_match rt publisher) before = true)).
Proof.
  induction table as [|[pub pl] table IH].
  - exists []. split; [reflexivity|]. left. auto.
  - cbn [infer_loop].
    destruct (str_contains (str_lower rt pub) (str_lower rt publisher)
              || str_contains (str_lower rt publisher) (str_lower rt pub))
      eqn:E.
    + exists pl. split; [reflexivity|]. right.
      exists [], pub, table. auto.
    + destruct IH as [place [E1 H]]. exists place. split; [exact E1|].
      assert (Hn : no_match rt publisher (pub, pl) = true)
        by (unfold no_match, publisher_matches; cbn [fst]; rewrite E; reflexivity).
      destruct H as [[-> H]|(before & pub0 & after & -> & Hm & Hb)].
      * left. cbn [forallb]. rewrite Hn, H. auto.
      * right. exists ((pub, pl) :: before), pub0, after.
        cbn [forallb app]. rewrite Hn, Hb. auto.
Qed.

(** X2: on a string [infer_place_from_publisher] never raises.  For the
    empty publisher it returns the empty string, whatever the table holds;
    for any other it returns the place of the first table entry, in table
    order, whose name contains the publisher or is contained in it, both in
    lower case, and the empty string when no entry matches. *)
Theorem infer_place_first_match rt (publisher : str) :
  exists place,
    infer_place_from_publisher rt (PStr publisher) = Ok (PStr place) /\
    ((publisher = [] /\ place = []) \/
     (publisher <> [] /\ place = [] /\
      forallb (no_match rt publisher) PUBLISHER_PLACE_MAP = true) \/
     (publisher <> [] /\
      exists before pub after,
        PUBLISHER_PLACE_MAP = before ++ (pub, place) :: after /\
        publisher_matches rt pub publisher = true /\
        forallb (no_match rt publisher) before = true)).
Proof.
  unfold infer_place_from_publisher.
  destruct publisher as [|c publisher].
  - exists []. split; [reflexivity|]. left. auto.
  - cbn [truthy negb].
    destruct (infer_loop_first rt PUBLISHER_PLACE_MAP (c :: publisher))
      as [place [E H]].
    exists place. split; [exact E|]. right.
    destruct H as [[-> H]|H]; [left | right]; split; try discriminate; auto.
Qed.

(** X3: a publisher whose lower-case form occurs inside
    ["harvard university press"] -- ["University Press"], ["Press"] -- is
    given the first entry's place, Cambridge, whatever press it is. *)
Theorem infer_place_loose_match rt (publisher : str) :
  publisher <> [] ->
  str_contains (str_lower rt publisher) (py "harvard university press") = true ->
  infer_place_from_publisher rt (PStr publisher) = Ok (PStr (py "Cambridge")).
Proof.
  intros Hne Hc. unfold infer_place_from_publisher.
  destruct publisher as [|c publisher]; [congruence|].
  cbn [truthy negb]. unfold PUBLISHER_PLACE_MAP. cbn [infer_loop].
  change (str_lower rt (py "Harvard University Press"))
    with (py "harvard university press").
  rewrite Hc, orb_true_r. reflexivity.
Qed.

Lemma infer_place_loose_match_witness :
  py "University Press" <> [] /\
  infer_place_from_publisher plain_runtime (PStr (py "University Press"))
  = Ok (PStr (py "Cambridge")).
Proof.
  split; [discriminate|].
  apply infer_place_loose_match; [discriminate | reflexivity].
Defined.

(** ** Splitting and joining *)

Lemma str_split_cons sep (s : str) : exists p ps, str_split sep s = p :: ps.
Proof.
  induction s as [|c s [p [ps IH]]]; cbn; [eauto|].
  destruct (N.eqb c sep); [eauto|]. rewrite IH. eauto.
Qed.

Lemma join_split sep (s : str) : str_join [sep] (str_split sep s) = s.
Proof.
  induction s as [|c s IH]; [reflexivity|]. cbn [str_split].
  destruct (str_split_cons sep s) as [p [ps E]]. rewrite E in *.
  destruct (N.eqb c sep) eqn:Ec.
  - apply N.eqb_eq in Ec. subst c.
    change (str_join [sep] ([] :: p :: ps))
      with ([] ++ [sep] ++ str_join [sep] (p :: ps)).
    rewrite IH. reflexivity.
  - destruct ps as [|q ps]; rewrite <- IH; reflexivity.
Qed.

Lemma split_app sep (a b : str) :
  str_split sep (a ++ sep :: b) = str_split sep a ++ str_split sep b.
Proof.
  induction a as [|c a IH]; cbn [app str_split].
  - rewrite N.eqb_refl. reflexivity.
  - rewrite IH. destruct (N.eqb c sep); [reflexivity|].
    destruct (str_split_cons sep a) as [p [ps ->]]. reflexivity.
Qed.

Lemma split_no_sep sep (s : str) :
  existsb (N.eqb sep) s = false -> str_split sep s = [s].
Proof.
  induction s as [|c s IH]; cbn; [reflexivity|]. intros H.
  apply orb_false_iff in H. destruct H as [H1 H2].
  rewrite N.eqb_sym, H1, (IH H2). reflexivity.
Qed.

Lemma split_parts_clean sep (s : str) :
  Forall (fun p => existsb (N.eqb sep) p = false) (str_split sep s).
Proof.
  induction s as [|c s IH]; cbn [str_split]; [repeat constructor|].
  destruct (N.eqb c sep) eqn:Ec; [constructor; auto|].
  destruct (str_split sep s) as [|p ps]; [repeat constructor; cbn|].
  - rewrite N.eqb_sym, Ec. reflexivity.
  - inversion IH; subst. constructor; [|assumption].
    cbn. rewrite N.eqb_sym, Ec. assumption.
Qed.

(** ** The renderers *)

Section RendererFacts.
Context (rt : runtime).

Ltac fields a t pu pl y pg raw :=
  destruct (field_citation_fields a t pu pl y pg raw)
    as (Ha & Ht & Hpu & Hpl & Hy & Hpg).

Lemma mla_author_ok (author : str) :
  exists author',
    (if truthy (PStr author) then
       author_parts <- py_split (PStr author) 32 ;;
       if Nat.leb 2 (List.length author_parts) then
         Ok (PStr (last author_parts [] ++ py ", " ++
                   str_join (py " ") (removelast author_parts)))
       else Ok (PStr author)
     else Ok (PStr author)) = Ok (PStr author').
Proof.
  destruct (truthy (PStr author)); [|eauto]. cbn [py_split bind].
  destruct (Nat.leb 2 _); eauto.
Qed.

(** X4: with every field absent or a string, the Chicago, MLA and Bluebook
    renderers never raise. *)
Theorem three_styles_never_raise a t pu pl y pg raw :
  let cd := citation_fields a t pu pl y pg raw in
  (exists out, format_citation rt cd (py "chicago") = Ok out) /\
  (exists out, format_citation rt cd (py "mla") = Ok out) /\
  (exists out, format_citation rt cd (py "bluebook") = Ok out).
Proof.
  cbv zeta. fields a t pu pl y pg raw.
  change (format_citation rt (citation_fields a t pu pl y pg raw) (py "chicago"))
    with (format_chicago rt (citation_fields a t pu pl y pg raw)).
  change (format_citation rt (citation_fields a t pu pl y pg raw) (py "mla"))
    with (format_mla rt (citation_fields a t pu pl y pg raw)).
  change (format_citation rt (citation_fields a t pu pl y pg raw) (py "bluebook"))
    with (format_bluebook rt (citation_fields a t pu pl y pg raw)).
  repeat split.
  - unfold format_chicago. rewrite Ha, Ht, Hpu, Hpl, Hy, Hpg.
    destruct (truthy (PStr (text_of pl))), (truthy (PStr (text_of pu))),
      (truthy (PStr (text_of y))); cbn [orb bind str_add]; eauto.
  - unfold format_mla. rewrite Ha, Ht, Hpu, Hy, Hpg.
    destruct (mla_author_ok (text_of a)) as [a' ->]. cbn [bind]. eauto.
  - unfold format_bluebook. rewrite Ha, Ht, Hpu, Hy, Hpg.
    destruct (truthy (PStr (text_of t))), (truthy (PStr (text_of pu))),
      (truthy (PStr (text_of y))); cbn [orb andb bind str_add]; eauto.
Qed.

Lemma first_letters_ok (parts : list str) :
  is_ok (mapM str_first parts) = forallb nonempty parts.
Proof.
  induction parts as [|p parts IH]; [reflexivity|].
  cbn [mapM forallb]. destruct p as [|c p]; [reflexivity|].
  cbn [str_first bind nonempty andb]. rewrite <- IH.
  destruct (mapM str_first parts); reflexivity.
Qed.

(** X5: with every field absent or a string, the APA renderer raises
    exactly when one of the author's space-separated words before the last
    is empty: a leading space or two spaces in a row. *)
Theorem format_apa_raises_exactly a t pu pl y pg raw :
  is_ok (format_apa rt (citation_fields a t pu pl y pg raw))
  = forallb nonempty (removelast (str_split 32 (text_of a))).
Proof.
  fields a t pu pl y pg raw.
  unfold format_apa. rewrite Ha, Ht, Hpu, Hpl, Hy, Hpg.
  destruct (text_of a) as [|c s] eqn:Ea; [reflexivity|].
  cbn [truthy py_split bind].
  destruct (str_split 32 (c :: s)) as [|p [|q ps]] eqn:Es;
    [reflexivity | reflexivity |].
  change (Nat.leb 2 (List.length (p :: q :: ps))) with true. cbv iota.
  rewrite <- first_letters_ok.
  destruct (mapM str_first (removelast (p :: q :: ps))); reflexivity.
Qed.

Ltac binds H :=
  repeat match type of H with
         | bind ?r _ = Ok _ =>
             let E := fresh "E" in
             destruct r eqn:E; cbn [bind] in H; [|discriminate H]
         end.

(** X6: whatever the style and whatever the fields hold, a rendering that
    returns ends with a full stop; it is never empty. *)
Theorem rendering_ends_with_stop (citation_data : dict pyval) (style out : str) :
  format_citation rt citation_data style = Ok out -> ends_with_stop out.
Proof.
  assert (C : forall out, format_chicago rt citation_data = Ok out ->
                          ends_with_stop out).
  { intros o H. unfold format_chicago in H. binds H.
    inversion H. eexists; reflexivity. }
  unfold format_citation.
  destruct (str_eqb style (py "chicago")); [apply C|].
  destruct (str_eqb style (py "mla")).
  { intros H. unfold format_mla in H. binds H.
    inversion H. eexists; reflexivity. }
  destruct (str_eqb style (py "apa")).
  { intros H. unfold format_apa in H. binds H.
    inversion H. eexists; reflexivity. }
  destruct (str_eqb style (py "bluebook")); [|apply C].
  intros H. unfold format_bluebook in H. binds H.
  inversion H. eexists; reflexivity.
Qed.


(** X7: the Bluebook layout: the author is followed by [", "] when
    present; the title is in upper case, or [UNTITLED] when absent; the page
    follows a space; publisher and year stand in parentheses, separated by a
    space when both are present; no part leaves a separator behind when it
    is absent. *)
Theorem format_bluebook_layout a t pu pl y pg raw :
  format_bluebook rt (citation_fields a t pu pl y pg raw)
  = Ok (bluebook_layout rt a t pu y pg).
Proof.
  fields a t pu pl y pg raw.
  unfold format_bluebook, bluebook_layout.
  rewrite Ha, Ht, Hpu, Hy, Hpg.
  destruct a as [[|? ?]|], t as [[|? ?]|], pu as [[|? ?]|], y as [[|? ?]|],
    pg as [[|? ?]|];
    cbn [orb andb sep_if bind str_add py_str text_of present truthy];
    repeat rewrite <- app_assoc; repeat rewrite app_nil_l;
    repeat rewrite app_nil_r; reflexivity.
Qed.

(** X8: the MLA renderer moves what follows the author's last space to
    the front, then a comma and what came before that space; an author
    without a space is written as it is.  In both cases [". <em>"], the
    title and [</em>] follow, then the publisher behind [". "], the year
    behind [", "] and the page behind [", pp. "], each only when present,
    and a full stop. *)
Theorem format_mla_inverts_name t pu pl y pg raw :
  (forall author,
     existsb (N.eqb 32) author = false ->
     format_mla rt (citation_fields (Some author) t pu pl y pg raw)
     = Ok (author ++ py ". <em>" ++ mla_tail t pu y pg)) /\
  (forall rest last,
     existsb (N.eqb 32) last = false ->
     format_mla rt
       (citation_fields (Some (rest ++ 32%N :: last)) t pu pl y pg raw)
     = Ok (last ++ py ", " ++ rest ++ py ". <em>" ++ mla_tail t pu y pg)).
Proof.
  split.
  - intros author Hn. fields (Some author) t pu pl y pg raw.
    unfold format_mla, mla_tail. rewrite Ha, Ht, Hpu, Hy, Hpg. cbn [text_of].
    destruct author as [|c s]; cbn [truthy py_split bind].
    + cbn [py_str].
      destruct pu as [[|? ?]|], y as [[|? ?]|], pg as [[|? ?]|];
        cbn [text_of truthy py_str present sep_if];
        rewrite <- ?app_assoc, ?app_nil_l; reflexivity.
    + rewrite (split_no_sep _ _ Hn). cbn [List.length Nat.leb bind py_str].
      destruct pu as [[|? ?]|], y as [[|? ?]|], pg as [[|? ?]|];
        cbn [text_of truthy py_str present sep_if];
        rewrite <- ?app_assoc, ?app_nil_l; reflexivity.
  - intros rest last Hn. fields (Some (rest ++ 32%N :: last)) t pu pl y pg raw.
    unfold format_mla, mla_tail. rewrite Ha, Ht, Hpu, Hy, Hpg. cbn [text_of].
    destruct (rest ++ 32%N :: last) as [|c s] eqn:Es;
      [destruct rest; discriminate|].
    cbn [truthy py_split bind]. rewrite <- Es.
    rewrite split_app, (split_no_sep _ _ Hn).
    destruct (str_split_cons 32 rest) as [p [ps Ep]].
    match goal with
    | |- context [Nat.leb 2 ?n] =>
        assert (Hlen : Nat.leb 2 n = true);
        [rewrite Ep, length_app; cbn;
         destruct (List.length ps + 1) eqn:El; [lia | reflexivity]
        | rewrite Hlen]
    end.
    rewrite last_last, removelast_last.
    change (py " ") with [32%N]. rewrite join_split. cbn [bind py_str].
    destruct pu as [[|? ?]|], y as [[|? ?]|], pg as [[|? ?]|];
      cbn [text_of truthy py_str present sep_if];
      rewrite <- ?app_assoc, ?app_nil_l; reflexivity.
Qed.


End RendererFacts.

Lemma rendering_ends_with_stop_witness :
  format_citation plain_runtime sample_parsed (py "bluebook")
  = Ok (py "Smith, UNTITLED.") /\
  ends_with_stop (py "Smith, UNTITLED.").
Proof.
  split; [reflexivity|].
  apply (@rendering_ends_with_stop plain_runtime sample_parsed (py "bluebook")).
  reflexivity.
Defined.

Lemma format_mla_inverts_name_witness :
  existsb (N.eqb 32) (py "Smith") = false /\
  format_mla plain_runtime
    (citation_fields (Some (py "John Q." ++ 32%N :: py "Smith"))
       (Some (py "Things")) (Some (py "Acme")) None (Some (py "1999")) None [])
  = Ok (py "Smith, John Q.. <em>Things</em>. Acme, 1999.").
Proof.
  split; [reflexivity|].
  rewrite (proj2 (format_mla_inverts_name plain_runtime (Some (py "Things"))
                    (Some (py "Acme")) None (Some (py "1999")) None [])
             (py "John Q.") (py "Smith") eq_refl).
  reflexivity.
Defined.

(** ** More on the parser *)

Lemma yields_seq (Q1 Q2 Q : str -> Prop) a b :
  (forall x y, Q1 x -> Q2 y -> Q (x ++ y)) ->
  yields Q1 a -> yields Q2 b -> yields Q (re_seq a b).
Proof.
  intros HQ Ha Hb k k' Hin. unfold re_seq in Hin.
  apply in_flat_map in Hin. destruct Hin as [k1 [H1 H2]].
  destruct (Ha _ _ H1) as [p1 [E1 F1]], (Hb _ _ H2) as [p2 [E2 F2]].
  exists (p1 ++ p2). rewrite E1, E2, app_assoc. auto.
Qed.

Lemma yields_cls p :
  yields (fun pre => exists c, pre = [c] /\ p c = true) (re_cls p).
Proof.
  intros [prev s] k' Hin. unfold re_cls in Hin. cbn [snd] in *.
  destruct s as [|c s']; [contradiction|].
  destruct (p c) eqn:E; [|contradiction].
  destruct Hin as [<-|[]]. exists [c]. cbn. eauto.
Qed.

Lemma yields_wordb rt : yields (fun pre => pre = []) (re_wordb rt).
Proof.
  intros k k' Hin. unfold re_wordb in Hin.
  destruct (xorb _ _); [|contradiction].
  destruct Hin as [<-|[]]. exists []. auto.
Qed.

Lemma yields_lit w : yields (fun pre => pre = w) (re_lit w).
Proof.
  induction w as [|c w IH].
  - intros k k' [<-|[]]. exists []. auto.
  - cbn [re_lit].
    apply (yields_seq (Q1 := fun pre => exists c0, pre = [c0] /\ N.eqb c c0 = true)
             (Q2 := fun pre => pre = w)); [|apply yields_cls | exact IH].
    intros x y (c0 & -> & Hc) ->. apply N.eqb_eq in Hc. subst. reflexivity.
Qed.

Lemma yields_alt (Q : str -> Prop) a b :
  yields Q a -> yields Q b -> yields Q (re_alt a b).
Proof.
  intros Ha Hb k k' Hin. unfold re_alt in Hin.
  apply in_app_or in Hin. destruct Hin; eauto.
Qed.

Lemma yields_weaken (Q Q' : str -> Prop) m :
  (forall x, Q x -> Q' x) -> yields Q m -> yields Q' m.
Proof.
  intros H Hm k k' Hin. destruct (Hm _ _ Hin) as [pre [E F]]. eauto.
Qed.

Lemma consumed_prefix (Q : str -> Prop) grp (s : str) prev k :
  yields Q grp -> In k (grp (prev, s)) ->
  Q (consumed s k) /\ exists after, s = consumed s k ++ after.
Proof.
  intros Hy Hin. destruct (Hy _ _ Hin) as [pre [E F]]. cbn [snd] in E.
  assert (C : consumed s k = pre).
  { unfold consumed. rewrite E at 1 2. rewrite length_app.
    replace (List.length pre + List.length (snd k) - List.length (snd k))
      with (List.length pre) by lia.
    rewrite firstn_app, firstn_all, Nat.sub_diag. cbn [firstn].
    apply app_nil_r. }
  rewrite C. split; [exact F|]. exists (snd k). exact E.
Qed.

Lemma re_search_found (Q : str -> Prop) grp rest : forall s prev m,
  yields Q grp -> re_search grp rest prev s = Some m ->
  Q m /\ exists before after, s = before ++ m ++ after.
Proof.
  induction s as [|c s IH]; intros prev m Hy H; cbn [re_search] in H.
  - match type of H with
    | match ?f with _ => _ end = _ => destruct f as [k|] eqn:Ef
    end; [|discriminate].
    inversion H; subst; clear H.
    apply find_some in Ef. destruct Ef as [Hin _].
    destruct (@consumed_prefix Q grp _ _ _ Hy Hin) as [HQ [after E]].
    split; [exact HQ|]. exists [], after. exact E.
  - match type of H with
    | match ?f with _ => _ end = _ => destruct f as [k|] eqn:Ef
    end.
    + inversion H; subst; clear H.
      apply find_some in Ef. destruct Ef as [Hin _].
      destruct (@consumed_prefix Q grp _ _ _ Hy Hin) as [HQ [after E]].
      split; [exact HQ|]. exists [], after. exact E.
    + destruct (IH _ _ Hy H) as [HQ (before & after & E)].
      split; [exact HQ|]. exists (c :: before), after. rewrite E. reflexivity.
Qed.

Lemma existsb_subset (p : N -> bool) (out inp : str) :
  (forall c, In c out -> In c inp) ->
  existsb p inp = false -> existsb p out = false.
Proof.
  intros Hs H. destruct (existsb p out) eqn:E; [|reflexivity].
  apply existsb_exists in E. destruct E as [c [Hin Hp]].
  assert (X : existsb p inp = true)
    by (apply existsb_exists; exists c; auto).
  congruence.
Qed.

Section MoreParserFacts.
Context (rt : runtime).

Lemma year_re_yields : yields (year_shape rt) (year_re rt).
Proof.
  unfold year_re.
  apply (yields_seq (Q1 := fun pre => pre = []) (Q2 := year_shape rt));
    [intros x y -> H; exact H | apply yields_wordb |].
  apply (yields_seq
           (Q1 := fun pre => pre = py "19" \/ pre = py "20")
           (Q2 := fun pre => exists d1 d2, pre = [d1; d2] /\
                              isdecimal rt d1 = true /\ isdecimal rt d2 = true)).
  - intros x y Hx (d1 & d2 & -> & H1 & H2). exists d1, d2.
    destruct Hx as [-> | ->]; auto.
  - apply yields_alt; (eapply yields_weaken; [|apply yields_lit]);
      intros x ->; auto.
  - apply (yields_seq
             (Q1 := fun pre => exists c, pre = [c] /\ isdecimal rt c = true)
             (Q2 := fun pre => exists c, pre = [c] /\ isdecimal rt c = true));
      [| apply yields_cls |].
    + intros x y (c1 & -> & H1) (c2 & -> & H2). exists c1, c2. auto.
    + apply (yields_seq
               (Q1 := fun pre => exists c, pre = [c] /\ isdecimal rt c = true)
               (Q2 := fun pre => pre = []));
        [| apply yields_cls | apply yields_wordb].
      intros x y H ->. rewrite app_nil_r. exact H.
Qed.

(** The working copy of the parser, and how it sits in the input. *)
Lemma working_copy_inside (text : str) :
  exists before after,
    text = before ++ str_strip rt (re_sub (label_re rt) None text 0) ++ after.
Proof.
  destruct (re_sub_anchored text (label_re_consumes rt) (label_re_anchored rt))
    as [pre [E1 _]].
  set (t1 := re_sub (label_re rt) None text 0) in *.
  destruct (lstrip_split (isspace rt) t1) as [sp [E2 _]].
  destruct (rstrip_split (isspace rt) (lstrip (isspace rt) t1))
    as [trail [E3 _]].
  exists (pre ++ sp), trail. unfold str_strip.
  rewrite <- E3, <- app_assoc, <- E2. exact E1.
Qed.

Lemma strip_inside (s : str) :
  exists before after, s = before ++ str_strip rt s ++ after.
Proof.
  destruct (lstrip_split (isspace rt) s) as [sp [E2 _]].
  destruct (rstrip_split (isspace rt) (lstrip (isspace rt) s))
    as [trail [E3 _]].
  exists sp, trail. unfold str_strip. rewrite <- E3. exact E2.
Qed.

Lemma inside_clean p (s before mid after : str) :
  s = before ++ mid ++ after -> existsb p s = false -> existsb p mid = false.
Proof.
  intros -> H. rewrite !existsb_app in H.
  apply orb_false_iff in H. destruct H as [_ H].
  apply orb_false_iff in H. tauto.
Qed.

Ltac cases :=
  repeat match goal with
         | |- context [match ?x with _ => _ end] => destruct x eqn:?
         end.

(** X9: the dictionary the parser returns always has the same seven keys
    in the same order, and its publisher and place are always [None]: the
    parser never guesses them. *)
Theorem parse_keys_fixed (text : str) :
  map fst (parse_endnote_text rt text) = citation_keys /\
  dict_get (parse_endnote_text rt text) (py "publisher") = Some PNone /\
  dict_get (parse_endnote_text rt text) (py "place") = Some PNone.
Proof.
  unfold parse_endnote_text.
  repeat match goal with
         | |- context [match ?x with _ => _ end] => destruct x
         end; repeat split.
Qed.

Lemma parse_year (text : str) :
  dict_get (parse_endnote_text rt text) (py "year")
  = Some (opt_val
            (re_search (year_re rt) re_empty None
               (str_strip rt (re_sub (label_re rt) None text 0)))).
Proof.
  unfold parse_endnote_text.
  repeat match goal with
         | |- context [match ?x with _ => _ end] => destruct x
         end; reflexivity.
Qed.

(** X10: a year the parser records is 19 or 20 followed by two digits,
    and it occurs in the note text. *)
Theorem parse_year_shape (text y : str) :
  dict_get (parse_endnote_text rt text) (py "year") = Some (PStr y) ->
  year_shape rt y /\ exists before after, text = before ++ y ++ after.
Proof.
  rewrite parse_year.
  destruct (re_search _ _ _ _) as [m|] eqn:E; [|discriminate].
  intros H; inversion H; subst m; clear H.
  destruct (re_search_found _ _ _ year_re_yields E)
    as [Hy (b1 & a1 & E1)].
  split; [exact Hy|].
  destruct (working_copy_inside text) as (b0 & a0 & E0).
  exists (b0 ++ b1), (a1 ++ a0). rewrite E0 at 1. rewrite E1.
  rewrite <- !app_assoc. reflexivity.
Qed.

(** X11: an author the parser records starts with an upper-case character
    and holds no comma; a title it records is not empty and holds no
    comma. *)
Theorem parse_author_title_shape (text : str) :
  (forall a,
     dict_get (parse_endnote_text rt text) (py "author") = Some (PStr a) ->
     (exists c r, a = c :: r /\ isupper rt c = true) /\
     existsb (N.eqb 44) a = false) /\
  (forall t,
     dict_get (parse_endnote_text rt text) (py "title") = Some (PStr t) ->
     t <> [] /\ existsb (N.eqb 44) t = false).
Proof.
  unfold parse_endnote_text.
  remember (str_strip rt (re_sub (label_re rt) None text 0)) as kept.
  pose proof (split_parts_clean 44 kept) as Hparts.
  destruct (str_split 44 kept) as [|p0 [|p1 ps]] eqn:Es.
  - split; intros x H; exfalso; revert H; cases; discriminate.
  - split; intros x H; exfalso; revert H; cases; discriminate.
  - inversion Hparts as [|? ? H0 Hrest]; subst.
    inversion Hrest as [|? ? H1 _]; subst.
    change (Nat.leb 2 (List.length (p0 :: p1 :: ps))) with true. cbv iota.
    cbn [nth].
    destruct (strip_inside p0) as (b0 & a0 & E0).
    assert (Ha : existsb (N.eqb 44) (str_strip rt p0) = false)
      by (eapply inside_clean; eauto).
    assert (Ht : existsb (N.eqb 44)
                   (re_sub quotes_re None (str_strip rt p1) 0) = false).
    { destruct (strip_inside p1) as (b1 & a1 & E1).
      eapply existsb_subset; [apply re_sub_subset|].
      eapply inside_clean; eauto. }
    remember (str_strip rt p0) as author.
    remember (re_sub quotes_re None (str_strip rt p1) 0) as title.
    split; intros x H.
    + destruct author as [|c r].
      * exfalso; revert H; cases; discriminate.
      * destruct (isupper rt c) eqn:Eu.
        -- assert (x = c :: r) by (revert H; cases; intros H; inversion H; reflexivity).
           subst x. split; [eauto | exact Ha].
        -- exfalso; revert H; cases; discriminate.
    + destruct title as [|c r].
      * exfalso; revert H; cases; discriminate.
      * assert (x = c :: r) by (revert H; cases; intros H; inversion H; reflexivity).
        subst x. split; [discriminate | exact Ht].
Qed.

(** X12: a note without a comma gets neither author nor title, and so
    no lookup: whatever the network, the note goes on with its parsed
    fields. *)
Theorem parse_without_comma (text : str) :
  existsb (N.eqb 44) text = false ->
  dict_get (parse_endnote_text rt text) (py "author") = Some PNone /\
  dict_get (parse_endnote_text rt text) (py "title") = Some PNone /\
  forall net, resolve_note rt net text = Ok (parse_endnote_text rt text).
Proof.
  intros Hn.
  assert (A : dict_get (parse_endnote_text rt text) (py "author") = Some PNone
              /\ dict_get (parse_endnote_text rt text) (py "title") = Some PNone).
  { unfold parse_endnote_text.
    remember (str_strip rt (re_sub (label_re rt) None text 0)) as kept.
    destruct (working_copy_inside text) as (b & a & E). rewrite <- Heqkept in E.
    assert (Hk : existsb (N.eqb 44) kept = false)
      by (eapply inside_clean; eauto).
    rewrite (split_no_sep _ _ Hk).
    change (Nat.leb 2 (List.length [kept])) with false. cbv iota.
    cases; split; reflexivity. }
  destruct A as [A1 A2]. repeat split; auto.
  intros net. unfold resolve_note, get, get_or. rewrite A1, A2. reflexivity.
Qed.

End MoreParserFacts.

Lemma parse_without_comma_witness :
  existsb (N.eqb 44) (py "3 See above.") = false /\
  resolve_note plain_runtime net_down (py "3 See above.")
  = Ok (parse_endnote_text plain_runtime (py "3 See above.")).
Proof.
  split; [reflexivity|].
  apply (proj2 (proj2 (@parse_without_comma plain_runtime (py "3 See above.")
                         eq_refl))).
Defined.

Lemma parse_year_shape_witness :
  dict_get (parse_endnote_text plain_runtime (py "Smith, Title, 1999, 42."))
    (py "year") = Some (PStr (py "1999")) /\
  year_shape plain_runtime (py "1999").
Proof.
  split; [reflexivity|].
  apply (proj1 (@parse_year_shape plain_runtime
                  (py "Smith, Title, 1999, 42.") (py "1999") eq_refl)).
Defined.

(** ** Keys of the dictionaries *)

Lemma dict_mem_keys {V} (d : dict V) k :
  dict_mem d k = existsb (fun k' => str_eqb k' k) (map fst d).
Proof.
  unfold dict_mem. induction d as [|[k0 v0] d IH]; [reflexivity|].
  cbn [dict_get map fst existsb]. destruct (str_eqb k0 k); [reflexivity|].
  exact IH.
Qed.

Lemma dict_set_keys {V} (d : dict V) k v :
  dict_mem d k = true -> map fst (dict_set d k v) = map fst d.
Proof.
  unfold dict_mem. induction d as [|[k0 v0] d IH]; [discriminate|].
  cbn [dict_get dict_set]. destruct (str_eqb k0 k); [reflexivity|].
  intros H. cbn [map fst]. rewrite (IH H). reflexivity.
Qed.

Lemma dict_set_new {V} (d : dict V) k v :
  dict_get d k = None -> dict_set d k v = d ++ [(k, v)].
Proof.
  induction d as [|[k0 v0] d IH]; [reflexivity|].
  cbn [dict_get dict_set]. destruct (str_eqb k0 k); [discriminate|].
  intros H. rewrite (IH H). reflexivity.
Qed.

Lemma dict_mem_set {V} (d : dict V) k k' v :
  dict_mem (dict_set d k v) k' = str_eqb k k' || dict_mem d k'.
Proof.
  unfold dict_mem. rewrite dict_get_set.
  destruct (str_eqb k k'); reflexivity.
Qed.

Lemma dict_set_unique {V} (d : dict V) k v :
  unique_keys d = true -> unique_keys (dict_set d k v) = true.
Proof.
  induction d as [|[k0 v0] d IH]; [reflexivity|].
  cbn [unique_keys dict_set]. intros H.
  apply andb_true_iff in H. destruct H as [H1 H2].
  destruct (str_eqb k0 k) eqn:E; cbn [unique_keys].
  - rewrite H1, H2. reflexivity.
  - rewrite dict_mem_set, (IH H2), str_eqb_sym, E. cbn [orb].
    rewrite H1. reflexivity.
Qed.

Lemma merge_keys (found parsed : dict pyval) :
  forallb (fun kv => dict_mem parsed (fst kv)) found = true ->
  map fst (merge parsed found) = map fst parsed.
Proof.
  unfold merge. revert parsed.
  induction found as [|[k v] found IH]; intros parsed H; [reflexivity|].
  cbn [forallb fst] in H. apply andb_true_iff in H. destruct H as [H1 H2].
  cbn [fold_left fst snd].
  destruct (truthy v && negb (truthy (get parsed k))); [|apply IH, H2].
  rewrite IH.
  - apply dict_set_keys, H1.
  - rewrite forallb_forall in *. intros kv Hin.
    rewrite dict_mem_set, (H2 kv Hin). apply orb_true_r.
Qed.

(** ** Lookup and merge for one note *)

Section NoteFacts.
Context (rt : runtime) (net : network).

Ltac steps H :=
  repeat first
    [ discriminate H
    | match type of H with
      | bind ?r _ = _ =>
          let E := fresh "E" in
          destruct r eqn:E; cbn [bind] in H
      | (if ?c then _ else _) = _ => destruct c
      end ].

Lemma lookup_try_keys outcome author title found :
  lookup_try rt outcome author title = Ok (Some found) ->
  map fst found = lookup_keys.
Proof.
  intros H. unfold lookup_try in H.
  destruct outcome as [e|ok json]; [discriminate|].
  destruct ok; [|discriminate]. steps H; inversion H; reflexivity.
Qed.

Lemma lookup_citation_found author title found :
  snd (lookup_citation rt net author title) = Ok (Some found) ->
  map fst found = lookup_keys.
Proof.
  unfold lookup_citation.
  destruct (negb (truthy (py_or author title))); [discriminate|].
  cbn [snd].
  destruct (lookup_try rt (net (lookup_query rt author title)) author title)
    as [[f|]|e] eqn:E; try discriminate.
  - intros H; inversion H; subst. exact (lookup_try_keys _ _ _ E).
  - destruct (print_error rt _ e); discriminate.
Qed.

(** X13: after lookup and merge a note's fields still have the seven
    keys of the parser in their order, and its page and its stored text are
    those the parser found: the lookup never changes them. *)
Theorem resolve_note_keeps (note_text : str) (parsed : dict pyval) :
  resolve_note rt net note_text = Ok parsed ->
  map fst parsed = citation_keys /\
  dict_get parsed (py "page")
  = dict_get (parse_endnote_text rt note_text) (py "page") /\
  dict_get parsed (py "original_text")
  = dict_get (parse_endnote_text rt note_text) (py "original_text").
Proof.
  assert (K : map fst (parse_endnote_text rt note_text) = citation_keys).
  { unfold parse_endnote_text.
    repeat match goal with
           | |- context [match ?x with _ => _ end] => destruct x
           end; reflexivity. }
  unfold resolve_note.
  destruct (truthy _); [|intros H; inversion H; subst; auto].
  destruct (snd (lookup_citation rt net _ _)) as [[found|]|e] eqn:E;
    cbn [bind]; intros H; inversion H; subst; clear H; auto.
  pose proof (lookup_citation_found _ _ E) as Kf.
  assert (M : forall k, dict_mem (parse_endnote_text rt note_text) k
                        = existsb (fun k' => str_eqb k' k) citation_keys)
    by (intros k; rewrite dict_mem_keys, K; reflexivity).
  assert (A : forall k, existsb (fun k' => str_eqb k' k) lookup_keys = false ->
                        dict_get found k = None).
  { intros k Hk. rewrite <- Kf, <- dict_mem_keys in Hk. unfold dict_mem in Hk.
    destruct (dict_get found k); [discriminate | reflexivity]. }
  repeat split.
  - rewrite merge_keys; [exact K|].
    apply forallb_forall. intros [k v] Hin. cbn [fst]. rewrite M.
    assert (Hk : In k lookup_keys)
      by (rewrite <- Kf; apply (in_map fst _ _ Hin)).
    unfold lookup_keys in Hk. cbn [In] in Hk.
    decompose [or] Hk; subst; try contradiction; reflexivity.
  - apply merge_absent, A. reflexivity.
  - apply merge_absent, A. reflexivity.
Qed.

End NoteFacts.

Lemma resolve_note_keeps_witness :
  exists parsed,
    resolve_note plain_runtime net_down (py "Smith, Title, 1999, 42.")
    = Ok parsed /\
    map fst parsed = citation_keys /\
    dict_get parsed (py "page") = Some (PStr (py "42")).
Proof.
  destruct (resolve_note plain_runtime net_down (py "Smith, Title, 1999, 42."))
    as [parsed|e] eqn:E; [|vm_compute in E; discriminate E].
  exists parsed. split; [reflexivity|].
  destruct (resolve_note_keeps _ _ _ E) as (K & P & _).
  split; [exact K|]. rewrite P. reflexivity.
Defined.

(** ** More on extraction *)

Lemma extract_loop_unique notes : forall acc endnotes,
  extract_loop notes acc = Ok endnotes ->
  unique_keys acc = true -> unique_keys endnotes = true.
Proof.
  induction notes as [|e notes IH]; intros acc endnotes H Hu.
  - inversion H; subst. exact Hu.
  - cbn [extract_loop] in H.
    destruct (getAttribute e w_id) as [|c k0]; [eauto|].
    destruct (negb (reserved (c :: k0))); [|eauto].
    destruct (full_text e) as [text|err]; [|discriminate]. cbn [bind] in H.
    apply (IH _ _ H). apply dict_set_unique, Hu.
Qed.

Lemma extract_loop_last notes : forall acc endnotes k text,
  extract_loop notes acc = Ok endnotes ->
  dict_get endnotes k = Some text ->
  (exists before e after,
     notes = before ++ e :: after /\ note_id_of e = k /\
     k <> [] /\ reserved k = false /\ full_text e = Ok text /\
     Forall (fun e' => note_id_of e' <> k) after) \/
  (dict_get acc k = Some text /\
   (k = [] \/ reserved k = true \/
    Forall (fun e' => note_id_of e' <> k) notes)).
Proof.
  induction notes as [|e notes IH]; intros acc endnotes k text H Hk.
  - inversion H; subst. right. auto.
  - cbn [extract_loop] in H.
    assert (Skip : extract_loop notes acc = Ok endnotes ->
                   (note_id_of e = [] \/ reserved (note_id_of e) = true) ->
                   (exists before e0 after,
                      e :: notes = before ++ e0 :: after /\ note_id_of e0 = k /\
                      k <> [] /\ reserved k = false /\ full_text e0 = Ok text /\
                      Forall (fun e' => note_id_of e' <> k) after) \/
                   (dict_get acc k = Some text /\
                    (k = [] \/ reserved k = true \/
                     Forall (fun e' => note_id_of e' <> k) (e :: notes)))).
    { intros H' Hs. destruct (IH _ _ _ _ H' Hk)
        as [(before & e0 & after & -> & R)|[Ha Hr]].
      - left. exists (e :: before), e0, after. auto.
      - right. split; [exact Ha|].
        destruct Hr as [Hr|[Hr|Hr]]; auto.
        destruct (str_eqb (note_id_of e) k) eqn:Ek.
        + apply str_eqb_eq in Ek. subst k. destruct Hs; auto.
        + apply str_eqb_neq in Ek. right; right. constructor; auto. }
    fold (note_id_of e) in H.
    destruct (note_id_of e) as [|c k0] eqn:Eid; [apply Skip; auto|].
    destruct (reserved (c :: k0)) eqn:Er; cbn [negb] in H;
      [apply Skip; auto|].
    destruct (full_text e) as [text0|err] eqn:Ef; [|discriminate].
    cbn [bind] in H.
    destruct (IH _ _ _ _ H Hk) as [(before & e0 & after & -> & R)|[Ha Hr]].
    + left. exists (e :: before), e0, after. auto.
    + rewrite dict_get_set in Ha.
      destruct (str_eqb (c :: k0) k) eqn:Ek.
      * apply str_eqb_eq in Ek. subst k. inversion Ha; subst text0.
        left. exists [], e, notes. repeat split; auto; try discriminate.
        destruct Hr as [Hr|[Hr|Hr]]; [discriminate | congruence | exact Hr].
      * right. split; [exact Ha|].
        destruct Hr as [Hr|[Hr|Hr]]; auto.
        right; right. constructor; [|exact Hr].
        rewrite Eid. apply str_eqb_neq, Ek.
Qed.

(** X14: the mapping extraction returns holds each id once; every id in
    it is non-empty and not reserved, and its text is the text of the last
    endnote element of the document that carries the id: a later note with
    the same id replaces an earlier one. *)
Theorem extract_last_note_wins (file : content) (endnotes : dict str) :
  extract_endnotes file = Ok endnotes ->
  unique_keys endnotes = true /\
  forall k text,
    dict_get endnotes k = Some text ->
    exists dom before e after,
      parseString file = Ok dom /\
      document_endnotes dom = before ++ e :: after /\
      note_id_of e = k /\ k <> [] /\ reserved k = false /\
      full_text e = Ok text /\
      Forall (fun e' => note_id_of e' <> k) after.
Proof.
  unfold extract_endnotes. destruct (parseString file) as [dom|err];
    [|discriminate].
  cbn [bind]. intros H. split.
  - exact (extract_loop_unique _ _ H eq_refl).
  - intros k text Hk.
    destruct (extract_loop_last _ _ _ H Hk)
      as [(before & e & after & E & R)|[Ha _]]; [|discriminate].
    exists dom, before, e, after. auto.
Qed.

Lemma extract_last_note_wins_witness :
  extract_endnotes (Xml sample_document)
  = Ok [ (py "1", py "Smith, Title") ] /\
  unique_keys [ (py "1", py "Smith, Title") ] = true.
Proof.
  split; [reflexivity|].
  apply (proj1 (@extract_last_note_wins (Xml sample_document)
                  [ (py "1", py "Smith, Title") ] eq_refl)).
Defined.

(** ** More on the write side *)

Lemma modify_nth_skel g : forall i l l1,
  (forall c c1, g c = Ok c1 -> skel c1 = skel c) ->
  modify_nth i g l = Ok l1 -> map skel l1 = map skel l.
Proof.
  induction i as [|i IH]; intros [|c l] l1 Hg H; cbn [modify_nth] in H;
    try (inversion H; reflexivity).
  - destruct (g c) as [c'|e] eqn:E; [|discriminate].
    inversion H; subst. cbn [map]. rewrite (Hg _ _ E). reflexivity.
  - destruct (modify_nth i g l) as [l'|e] eqn:E; [|discriminate].
    inversion H; subst. cbn [map]. rewrite (IH _ _ Hg E). reflexivity.
Qed.

Lemma modify_skel f :
  (forall e e1, f e = Ok e1 -> skel e1 = skel e) ->
  forall p n n1, modify p f n = Ok n1 -> skel n1 = skel n.
Proof.
  intros Hf. induction p as [|i p IH]; intros n n1 H; cbn [modify] in H.
  - exact (Hf _ _ H).
  - destruct n as [s|tag attrs ch]; [inversion H; reflexivity|].
    destruct (modify_nth i (modify p f) ch) as [ch'|e] eqn:E; [|discriminate].
    inversion H; subst. cbn [skel]. f_equal.
    exact (modify_nth_skel _ _ _ IH E).
Qed.

(** X15: the loop of the write side changes character data only: on every
    document and for every mapping, the tree it leaves has the elements,
    attributes and nesting of the tree it started from. *)
Theorem update_keeps_structure (formatted_endnotes : dict str)
  (notes : list path) (dom tree : node) :
  update_loop formatted_endnotes notes dom = Ok tree ->
  skel tree = skel dom.
Proof.
  revert dom. induction notes as [|p notes IH]; intros dom H.
  - inversion H; reflexivity.
  - cbn [update_loop] in H.
    destruct (modify p (rewrite_endnote formatted_endnotes) dom)
      as [dom'|e] eqn:E; [|discriminate].
    cbn [bind] in H. rewrite (IH _ H).
    exact (modify_skel _ (@skel_rewrite formatted_endnotes) _ _ E).
Qed.

Lemma update_keeps_structure_witness :
  exists tree,
    update_loop sample_mapping (paths_in w_endnote sample_document)
      sample_document = Ok tree /\
    skel tree = skel sample_document.
Proof.
  destruct (update_loop sample_mapping (paths_in w_endnote sample_document)
              sample_document) as [tree|e] eqn:E;
    [|vm_compute in E; discriminate E].
  exists tree. split; [reflexivity|].
  exact (update_keeps_structure _ _ _ E).
Defined.

Lemma modify_nth_fix g : forall i l,
  (forall c, nth_error l i = Some c -> g c = Ok c) ->
  modify_nth i g l = Ok l.
Proof.
  induction i as [|i IH]; intros [|c l] Hg; cbn [modify_nth]; try reflexivity.
  - rewrite (Hg c eq_refl). reflexivity.
  - rewrite IH; [reflexivity|]. intros c0 H0. apply Hg. exact H0.
Qed.

Lemma modify_fix f : forall p n,
  (forall e, subtree p n = Some e -> f e = Ok e) -> modify p f n = Ok n.
Proof.
  induction p as [|i p IH]; intros n H; cbn [modify].
  - apply H. reflexivity.
  - destruct n as [s|tag attrs ch]; [reflexivity|].
    rewrite modify_nth_fix; [reflexivity|].
    intros c Hc. apply IH. intros e He. apply H.
    cbn [subtree children]. rewrite Hc. exact He.
Qed.

Lemma paths_subtree name n : forall p,
  In p (paths_in name n) ->
  exists e, subtree p n = Some e /\ In e (elements_in name n).
Proof.
  induction n as [s|tag attrs ch IH] using node_induction; intros p Hp;
    [contradiction|].
  rewrite paths_in_elem in Hp. rewrite elements_in_elem.
  apply in_app_or in Hp. destruct Hp as [Hp|Hp].
  - destruct (str_eqb tag name); [|contradiction].
    destruct Hp as [<-|[]]. exists (Element tag attrs ch).
    split; [reflexivity | left; reflexivity].
  - assert (L : forall i pre,
               List.length pre = i -> In p (paths_below name i ch) ->
               exists e, subtree p (Element tag attrs (pre ++ ch)) = Some e /\
                         In e (elements_below name ch)).
    { clear Hp. induction IH as [|c l Hc _ IHl]; intros i pre Hi Hp;
        [contradiction|].
      cbn [paths_below] in Hp. apply in_app_or in Hp. destruct Hp as [Hp|Hp].
      - apply in_map_iff in Hp. destruct Hp as [q [<- Hq]].
        destruct (Hc _ Hq) as [e [E1 E2]]. exists e. split.
        + cbn [subtree children]. subst i.
          rewrite nth_error_app2, Nat.sub_diag by lia. exact E1.
        + cbn [elements_below]. apply in_or_app. left; exact E2.
      - destruct (IHl (S i) (pre ++ [c])) as [e [E1 E2]];
          [rewrite length_app; cbn; lia | exact Hp |].
        exists e. split.
        + rewrite <- app_assoc in E1. exact E1.
        + cbn [elements_below]. apply in_or_app. right; exact E2. }
    destruct (L 0 [] eq_refl Hp) as [e [E1 E2]].
    exists e. split; [exact E1 | apply in_or_app; right; exact E2].
Qed.

Lemma clear_without_runs n : elements_in w_t n = [] -> clear_node n = n.
Proof.
  induction n as [s|tag attrs ch IH] using node_induction; [reflexivity|].
  rewrite elements_in_elem. cbn [clear_node].
  destruct (str_eqb tag w_t); [discriminate|]. cbn [app]. intros H.
  f_equal. induction IH as [|c l Hc _ IHl]; [reflexivity|].
  cbn [elements_below] in H. apply app_eq_nil in H. destruct H as [H1 H2].
  cbn [map]. rewrite (Hc H1), (IHl H2). reflexivity.
Qed.

Lemma clear_all_without_runs l :
  elements_below w_t l = [] -> map clear_node l = l.
Proof.
  induction l as [|c l IH]; [reflexivity|]. cbn [elements_below]. intros H.
  apply app_eq_nil in H. destruct H as [H1 H2].
  cbn [map]. rewrite (clear_without_runs _ H1), (IH H2). reflexivity.
Qed.

Lemma rewrite_endnote_without_runs fe e :
  getElementsByTagName e w_t = [] -> rewrite_endnote fe e = Ok e.
Proof.
  destruct e as [s|tag attrs ch]; [reflexivity|].
  unfold getElementsByTagName. cbn [children rewrite_endnote]. intros H.
  destruct (dict_get fe _) as [formatted_text|]; [|reflexivity].
  rewrite (clear_all_without_runs _ H).
  destruct (assign_first_below (strip_em formatted_text) ch) as [H0 _].
  rewrite (H0 H). reflexivity.
Qed.

(** X16: when every endnote element either is not named by the mapping or
    has no text run, the loop of the write side leaves the tree as it was:
    the text formatted for a note without a text run is dropped without an
    error.  In particular the empty mapping changes nothing. *)
Theorem update_without_targets (formatted_endnotes : dict str) (dom : node) :
  (forall e, In e (document_endnotes dom) ->
             dict_get formatted_endnotes (note_id_of e) = None \/
             getElementsByTagName e w_t = []) ->
  update_loop formatted_endnotes (paths_in w_endnote dom) dom = Ok dom.
Proof.
  intros H.
  assert (L : forall ps, (forall p, In p ps -> In p (paths_in w_endnote dom)) ->
                         update_loop formatted_endnotes ps dom = Ok dom).
  { induction ps as [|p ps IH]; intros Hps; [reflexivity|].
    cbn [update_loop]. rewrite modify_fix.
    - cbn [bind]. apply IH. intros q Hq. apply Hps. right; exact Hq.
    - intros e He.
      destruct (paths_subtree _ _ _ (Hps p (or_introl eq_refl))) as [e' [E1 E2]].
      rewrite E1 in He. inversion He; subst e'.
      destruct (H e E2) as [Hn|Hn].
      + apply rewrite_endnote_untargeted. exact Hn.
      + apply rewrite_endnote_without_runs. exact Hn. }
  apply L. auto.
Qed.

Lemma update_without_targets_witness :
  update_loop [] (paths_in w_endnote nested_document) nested_document
  = Ok nested_document.
Proof.
  apply update_without_targets. intros e _. left. reflexivity.
Defined.

Lemma assign_error text n :
  forall t ts, elements_in w_t n = t :: ts -> children t = [] ->
  assign_in text n = Some (Raise AttributeError).
Proof.
  induction n as [s|tag attrs ch IH] using node_induction; [discriminate|].
  intros t ts. rewrite elements_in_elem, assign_in_elem.
  destruct (str_eqb tag w_t) eqn:Etag; cbn [app].
  - intros H Hc. inversion H; subst. cbn [children] in Hc. subst ch.
    reflexivity.
  - intros H Hc.
    assert (L : assign_below text ch = Some (Raise AttributeError)).
    { clear Etag. revert H. induction IH as [|c l Hc0 _ IHl]; [discriminate|].
      cbn [elements_below assign_below]. intros H.
      destruct (elements_in w_t c) as [|t0 ts0] eqn:Ec.
      - destruct (assign_first text c) as [H0 _]. rewrite (H0 Ec).
        rewrite (IHl H). reflexivity.
      - cbn [app] in H. inversion H; subst.
        rewrite (Hc0 _ _ eq_refl Hc). reflexivity. }
    rewrite L. reflexivity.
Qed.

Lemma assign_error_below text l :
  forall t ts, elements_below w_t l = t :: ts -> children t = [] ->
  assign_below text l = Some (Raise AttributeError).
Proof.
  induction l as [|c l IH]; [discriminate|]. intros t ts.
  cbn [elements_below assign_below]. intros H Hc.
  destruct (elements_in w_t c) as [|t0 ts0] eqn:Ec.
  - destruct (assign_first text c) as [H0 _]. rewrite (H0 Ec).
    rewrite (IH _ _ H Hc). reflexivity.
  - cbn [app] in H. inversion H; subst.
    rewrite (@assign_error text c _ _ Ec Hc). reflexivity.
Qed.

Lemma assign_only_attribute_error text n e :
  assign_in text n = Some (Raise e) -> e = AttributeError.
Proof.
  induction n as [s|tag attrs ch IH] using node_induction; [discriminate|].
  rewrite assign_in_elem. destruct (str_eqb tag w_t).
  - destruct ch as [|[s|t a c] ch]; intros H; inversion H; reflexivity.
  - destruct (assign_below text ch) as [[ch'|e']|] eqn:E; try discriminate.
    intros H; inversion H; subst e'; clear H.
    revert E. induction IH as [|c l Hc _ IHl]; [discriminate|].
    cbn [assign_below].
    destruct (assign_in text c) as [[c'|e']|]; intros E.
    + discriminate.
    + inversion E; subst. apply Hc. reflexivity.
    + destruct (assign_below text l) as [[l'|e']|]; try discriminate.
      inversion E; subst. apply IHl. reflexivity.
Qed.

Lemma assign_below_only_attribute_error text l e :
  assign_below text l = Some (Raise e) -> e = AttributeError.
Proof.
  induction l as [|c l IH]; [discriminate|]. cbn [assign_below].
  destruct (assign_in text c) as [[c'|e']|] eqn:Ec; intros E.
  - discriminate.
  - inversion E; subst. exact (@assign_only_attribute_error _ _ _ Ec).
  - destruct (assign_below text l) as [[l'|e']|]; try discriminate.
    inversion E; subst. apply IH. reflexivity.
Qed.

Lemma rewrite_only_attribute_error fe e err :
  rewrite_endnote fe e = Raise err -> err = AttributeError.
Proof.
  destruct e as [s|tag attrs ch]; [discriminate|]. cbn [rewrite_endnote].
  destruct (dict_get fe _); [|discriminate].
  destruct (assign_below _ _) as [[ch'|e']|] eqn:E; try discriminate.
  intros H; inversion H; subst. exact (@assign_below_only_attribute_error _ _ _ E).
Qed.

Lemma rewrite_all_only_attribute_error fe n err :
  rewrite_all fe n = Raise err -> err = AttributeError.
Proof.
  induction n as [s|tag attrs ch IH] using node_induction; [discriminate|].
  cbn [rewrite_all]. destruct (str_eqb tag w_endnote).
  - apply rewrite_only_attribute_error.
  - destruct (mapM (rewrite_all fe) ch) as [ch'|e'] eqn:E; [discriminate|].
    intros H; inversion H; subst e'; clear H.
    revert E. induction IH as [|c l Hc _ IHl]; [discriminate|].
    cbn [mapM]. destruct (rewrite_all fe c) as [c'|e'] eqn:Ec; cbn [bind].
    + destruct (mapM (rewrite_all fe) l) as [l'|e'']; [discriminate|].
      intros E; inversion E; subst. apply IHl. reflexivity.
    + intros E; inversion E; subst. apply Hc. reflexivity.
Qed.

(** X17: when no endnote element lies inside another and the first text
    run of a note the mapping names is empty, the write side raises
    [AttributeError] and writes nothing: one such note fails the whole
    document. *)
Theorem update_empty_run_fails (formatted_endnotes : dict str) (dom e : node)
  (formatted_text : str) (t : node) (ts : list node) :
  flat_endnotes dom = true ->
  In e (document_endnotes dom) ->
  dict_get formatted_endnotes (note_id_of e) = Some formatted_text ->
  getElementsByTagName e w_t = t :: ts -> children t = [] ->
  update_endnotes_xml (Xml dom) formatted_endnotes = Raise AttributeError.
Proof.
  intros Hflat Hin Hf Ht Hc.
  assert (R : rewrite_endnote formatted_endnotes e = Raise AttributeError).
  { destruct e as [s|tag attrs ch]; [discriminate|].
    unfold getElementsByTagName in Ht. cbn [children] in Ht.
    cbn [rewrite_endnote]. unfold note_id_of in Hf. rewrite Hf.
    erewrite assign_error_below; [reflexivity | |].
    - rewrite clear_elements_below, Ht. reflexivity.
    - destruct t as [s|tg at' ct]; [reflexivity|].
      cbn [children] in Hc. subst ct. cbn [clear_node map children].
      destruct (str_eqb tg w_t); reflexivity. }
  unfold update_endnotes_xml. cbn [parseString bind].
  unfold flat_endnotes, document_endnotes in *.
  rewrite (update_loop_flat formatted_endnotes dom Hflat).
  destruct (rewrite_all formatted_endnotes dom) as [tree|err] eqn:E.
  - pose proof (rewrite_all_related _ _ Hflat E) as F.
    exfalso. clear E Hflat. induction F as [|a b l l' Hab _ IH]; [contradiction|].
    destruct Hin as [<-|Hin]; [congruence | exact (IH Hin)].
  - rewrite (@rewrite_all_only_attribute_error _ _ _ E). reflexivity.
Qed.

Lemma update_empty_run_fails_witness :
  update_endnotes_xml (Xml empty_run_document) sample_mapping
  = Raise AttributeError.
Proof.
  eapply update_empty_run_fails;
    [ reflexivity | vm_compute; left; reflexivity
    | reflexivity | reflexivity | reflexivity ].
Defined.

(** ** The pipeline as a whole *)

Lemma dict_mem_in {V} (d : dict V) k :
  In k (map fst d) -> dict_mem d k = true.
Proof.
  intros H. rewrite dict_mem_keys. apply existsb_exists.
  exists k. split; [exact H | apply str_eqb_refl].
Qed.

Section PipelineFacts.
Context (rt : runtime) (net : network).

Lemma process_notes_log style items : forall fe log done,
  unique_keys items = true ->
  (forall k, In k (map fst items) -> dict_get fe k = None) ->
  process_notes rt net style items fe log = Ok done ->
  map fst (fst done) = map fst fe ++ map fst items /\
  map log_id (snd done) = map log_id log ++ map fst items /\
  map log_original (snd done)
  = map log_original log ++ map (fun kv => firstn 100 (snd kv)) items /\
  (Forall preview log -> Forall preview (snd done)).
Proof.
  induction items as [|[note_id note_text] items IH];
    intros fe log done Hu Hfe H.
  - inversion H; subst. cbn. rewrite !app_nil_r. auto.
  - cbn [process_notes] in H.
    destruct (resolve_note rt net note_text) as [parsed|e]; [|discriminate].
    cbn [bind] in H.
    destruct (format_citation rt parsed style) as [formatted|e];
      [|discriminate].
    cbn [bind] in H.
    cbn [unique_keys] in Hu. apply andb_true_iff in Hu.
    destruct Hu as [Hn Hu]. apply negb_true_iff in Hn.
    assert (Hnew : dict_set fe note_id formatted
                   = fe ++ [(note_id, formatted)]).
    { apply dict_set_new. apply Hfe. left; reflexivity. }
    apply IH in H; [|exact Hu|].
    + destruct H as (H1 & H2 & H3 & H4).
      rewrite Hnew in H1. rewrite map_app, <- app_assoc in H1, H2, H3.
      repeat split; try assumption.
      intros HF. apply H4. apply Forall_app. split; [exact HF|].
      constructor; [|constructor]. unfold preview.
      cbn [log_original log_formatted].
      split; (eapply Nat.le_trans;
              [apply Nat.eq_le_incl, length_firstn | apply Nat.le_min_l]).
    + intros k Hk. rewrite dict_get_set_other.
      * apply Hfe. right; exact Hk.
      * intros ->. rewrite (dict_mem_in _ _ Hk) in Hn. discriminate.
Qed.

Lemma success_has_output input style flag n log :
  process_document rt net input style flag <> (Success n log, None).
Proof.
  unfold process_document.
  destruct (unpack_docx input) as [members|e]; [|discriminate].
  destruct (dict_get members endnotes_member) as [file|]; [|discriminate].
  destruct (process_endnotes rt net members file style) as [[returned packed]|e];
    discriminate.
Qed.

Lemma output_cases input style flag :
  (exists n log packed,
     process_document rt net input style flag = (Success n log, Some packed)) \/
  (exists error,
     process_document rt net input style flag = (Failure error, None)).
Proof.
  destruct (process_document rt net input style flag)
    as [[n log|error] [packed|]] eqn:E.
  - left. eauto.
  - exfalso. exact (@success_has_output input style flag n log E).
  - exfalso. revert E. unfold process_document.
    destruct (unpack_docx input) as [members|e]; [|discriminate].
    destruct (dict_get members endnotes_member) as [file|]; [|discriminate].
    unfold process_endnotes.
    destruct (extract_endnotes file) as [endnotes|e]; [|discriminate].
    cbn [bind].
    destruct (process_notes rt net style endnotes [] []) as [done|e];
      [|discriminate].
    cbn [bind].
    destruct (update_endnotes_xml file (fst done)) as [file'|e]; discriminate.
  - right. eauto.
Qed.

(** X18: [process_document] leaves an output file exactly when it reports
    success: a success comes with the packed archive, a failure with no
    file at all, whatever the upload, the style and the flag. *)
Theorem output_iff_success (input : upload) (citation_style : str)
  (use_incipit : bool) :
  (exists n log packed,
     process_document rt net input citation_style use_incipit
     = (Success n log, Some packed)) \/
  (exists error,
     process_document rt net input citation_style use_incipit
     = (Failure error, None)).
Proof.
  unfold process_document.
  destruct (unpack_docx input) as [members|e]; [|right; eexists; reflexivity].
  destruct (dict_get members endnotes_member) as [file|]; [|right; eexists; reflexivity].
  unfold process_endnotes.
  destruct (extract_endnotes file) as [endnotes|e]; [|right; eexists; reflexivity].
  cbn [bind].
  destruct (process_notes rt net citation_style endnotes [] [])
    as [done|e]; [|right; eexists; reflexivity].
  cbn [bind].
  destruct (update_endnotes_xml file (fst done)) as [file'|e];
    [|right; eexists; reflexivity].
  left. cbn [bind]. do 3 eexists. reflexivity.
Qed.

(** X19: in the archive written on success every file other than
    [word/endnotes.xml] is the one of the upload, no file is added and the
    endnotes file is there. *)
Theorem other_members_kept (members : dict content) (citation_style : str)
  (use_incipit : bool) (returned : outcome) (packed : dict content) :
  process_document rt net (Zip members) citation_style use_incipit
  = (returned, Some packed) ->
  dict_mem packed endnotes_member = true /\
  forall name, name <> endnotes_member ->
               dict_get packed name = dict_get members name.
Proof.
  unfold process_document, unpack_docx.
  destruct (dict_get members endnotes_member) as [file|]; [|discriminate].
  unfold process_endnotes.
  destruct (extract_endnotes file) as [endnotes|e]; [|discriminate].
  cbn [bind].
  destruct (process_notes rt net citation_style endnotes [] [])
    as [done|e]; [|discriminate].
  cbn [bind].
  destruct (update_endnotes_xml file (fst done)) as [file'|e];
    [|discriminate].
  cbn [bind]. intros H; inversion H; subst; clear H. split.
  - unfold dict_mem. rewrite dict_get_set_same. reflexivity.
  - intros name Hn. apply dict_get_set_other. congruence.
Qed.

(** X20: on success the count returned is the number of notes extraction
    found, and the log has one entry for each of them, in their order, with
    the note's id and the first 100 characters of its text; no entry holds
    more than 100 characters of either text. *)
Theorem log_follows_notes (members : dict content) (file : content)
  (endnotes : dict str) (citation_style : str) (use_incipit : bool)
  (n : nat) (log : list log_entry) (out : option (dict content)) :
  dict_get members endnotes_member = Some file ->
  extract_endnotes file = Ok endnotes ->
  process_document rt net (Zip members) citation_style use_incipit
  = (Success n log, out) ->
  n = List.length endnotes /\
  map log_id log = map fst endnotes /\
  map log_original log = map (fun kv => firstn 100 (snd kv)) endnotes /\
  Forall preview log.
Proof.
  intros Hm Hex. unfold process_document, unpack_docx. rewrite Hm.
  unfold process_endnotes. rewrite Hex. cbn [bind].
  destruct (process_notes rt net citation_style endnotes [] [])
    as [done|e] eqn:Ep; [|discriminate].
  cbn [bind].
  destruct (update_endnotes_xml file (fst done)) as [file'|e];
    [|discriminate].
  cbn [bind]. intros H; inversion H; subst; clear H.
  assert (Hu : unique_keys endnotes = true).
  { unfold extract_endnotes in Hex.
    destruct (parseString file) as [dom|e]; [|discriminate].
    cbn [bind] in Hex. exact (extract_loop_unique _ _ Hex eq_refl). }
  destruct (@process_notes_log citation_style endnotes [] [] done Hu
              (fun k _ => eq_refl) Ep) as (H1 & H2 & H3 & H4).
  cbn [map app] in H1, H2, H3. repeat split; try assumption.
  - rewrite <- (length_map fst (fst done)), H1. apply length_map.
  - apply H4. constructor.
Qed.

Lemma format_citation_fallback (citation_data : dict pyval) (style : str) :
  falls_back style = true ->
  format_citation rt citation_data style
  = format_citation rt citation_data (py "chicago").
Proof.
  unfold falls_back. intros H.
  apply andb_true_iff in H. destruct H as [H H3].
  apply andb_true_iff in H. destruct H as [H1 H2].
  apply negb_true_iff in H1, H2, H3.
  unfold format_citation. rewrite H1, H2, H3.
  destruct (str_eqb style (py "chicago")); reflexivity.
Qed.

Lemma process_notes_fallback style items : forall fe log,
  falls_back style = true ->
  process_notes rt net style items fe log
  = process_notes rt net (py "chicago") items fe log.
Proof.
  induction items as [|[note_id note_text] items IH]; intros fe log H;
    [reflexivity|].
  cbn [process_notes].
  destruct (resolve_note rt net note_text) as [parsed|e]; [|reflexivity].
  cbn [bind]. rewrite (format_citation_fallback parsed _ H).
  destruct (format_citation rt parsed (py "chicago")) as [formatted|e];
    [|reflexivity].
  cbn [bind]. apply IH. exact H.
Qed.

Lemma process_document_fallback input style flag flag' :
  falls_back style = true ->
  process_document rt net input style flag
  = process_document rt net input (py "chicago") flag'.
Proof.
  intros H. unfold process_document.
  destruct (unpack_docx input) as [members|e]; [|reflexivity].
  destruct (dict_get members endnotes_member) as [file|]; [|reflexivity].
  unfold process_endnotes.
  destruct (extract_endnotes file) as [endnotes|e]; [|reflexivity].
  cbn [bind]. rewrite (process_notes_fallback _ endnotes [] [] H).
  reflexivity.
Qed.

(** X21: a style name other than ['mla'], ['apa'] and ['bluebook'] is no
    error: the whole document is processed as with ['chicago'], with the
    same result, log and output. *)
Theorem unknown_style_is_chicago (input : upload) (citation_style : str)
  (use_incipit : bool) :
  citation_style <> py "mla" -> citation_style <> py "apa" ->
  citation_style <> py "bluebook" ->
  process_document rt net input citation_style use_incipit
  = process_document rt net input (py "chicago") use_incipit.
Proof.
  intros H1 H2 H3. apply process_document_fallback. unfold falls_back.
  apply str_eqb_neq in H1, H2, H3. rewrite H1, H2, H3. reflexivity.
Qed.

End PipelineFacts.

Lemma other_members_kept_witness :
  exists returned packed,
    process_document plain_runtime net_down (Zip sample_members)
      (py "mla") false = (returned, Some packed) /\
    dict_get packed (py "word/document.xml")
    = Some (Raw [60; 120; 47; 62]%N).
Proof.
  destruct (process_document plain_runtime net_down (Zip sample_members)
              (py "mla") false) as [returned [packed|]] eqn:E;
    [|vm_compute in E; discriminate E].
  exists returned, packed. split; [reflexivity|].
  destruct (other_members_kept _ _ _ _ _ E) as [_ H].
  rewrite H; [reflexivity | discriminate].
Defined.

Lemma log_follows_notes_witness :
  exists n log out,
    process_document plain_runtime net_down (Zip sample_members)
      (py "chicago") true = (Success n log, out) /\
    n = 1 /\ map log_id log = [ py "1" ] /\
    map log_original log = [ py "Smith, Title" ].
Proof.
  destruct (process_document plain_runtime net_down (Zip sample_members)
              (py "chicago") true) as [[n log|error] out] eqn:E;
    [|vm_compute in E; discriminate E].
  exists n, log, out. split; [reflexivity|].
  destruct (@log_follows_notes plain_runtime net_down sample_members
              (Xml sample_document) [ (py "1", py "Smith, Title") ]
              (py "chicago") true n log out eq_refl eq_refl E)
    as (H1 & H2 & H3 & _).
  split; [exact H1|]. split; [exact H2 | exact H3].
Defined.

Lemma unknown_style_is_chicago_witness :
  process_document plain_runtime net_down (Zip sample_members)
    (py "harvard") false
  = process_document plain_runtime net_down (Zip sample_members)
      (py "chicago") false.
Proof.
  apply unknown_style_is_chicago; discriminate.
Defined.

(** ** The route *)

Lemma allowed_file_total rt (filename : str) :
  exists accepted, allowed_file rt filename = Ok accepted.
Proof.
  unfold allowed_file, rsplit1.
  destruct (existsb (N.eqb 46) filename) eqn:Edot; [|eauto].
  rewrite <- existsb_rev in Edot.
  destruct (span_until_none _ _ Edot) as (a & b & E). rewrite E. cbn. eauto.
Qed.

Section RouteFacts.
Context (rt : runtime) (net : network) (secure_filename : str -> str).

(** X22: whatever the request, no exception of [allowed_file] or of
    [process_document] leaves the route: the answer is a JSON error or the
    download.  The download is given only for an accepted file name whose
    document was processed with success, and it is the archive
    [process_document] wrote, under the stem of the secured name followed by
    [_formatted.docx]; an error of status 500 carries the error text of
    [process_document], and every other error has status 400. *)
Theorem route_answers (r : request) :
  process rt net secure_filename r <> InternalError /\
  (forall download_name body,
     process rt net secure_filename r = Attachment download_name body ->
     exists file_name file n log,
       req_file r = Some (file_name, file) /\
       allowed_file rt file_name = Ok true /\
       download_name
       = path_stem (secure_filename file_name) ++ py "_formatted.docx" /\
       process_document rt net file (style_of r) false
       = (Success n log, Some body)) /\
  (forall status error,
     process rt net secure_filename r = Json status error ->
     status = 400 \/
     (status = 500 /\
      exists file_name file,
        req_file r = Some (file_name, file) /\
        allowed_file rt file_name = Ok true /\
        process_document rt net file (style_of r) false
        = (Failure error, None))).
Proof.
  unfold process, style_of.
  destruct (req_file r) as [[file_name file]|].
  2: { split; [discriminate|]. split; [discriminate|].
       intros status error H; inversion H; auto. }
  destruct file_name as [|c name].
  { split; [discriminate|]. split; [discriminate|].
    intros status error H; inversion H; auto. }
  destruct (allowed_file_total rt (c :: name)) as [accepted Ha].
  rewrite Ha. destruct accepted.
  2: { split; [discriminate|]. split; [discriminate|].
       intros status error H; inversion H; auto. }
  set (style := match req_style r with Some s => s | None => py "chicago" end).
  change (process_document rt net file style
            match req_format r with
            | Some f => str_eqb f (py "incipit")
            | None => false
            end)
    with (process_document rt net file style false).
  destruct (output_cases rt net file style false)
    as [(n & log & packed & E)|(error & E)]; rewrite E.
  - split; [discriminate|]. split; [|discriminate].
    intros download_name body H; inversion H; subst.
    exists (c :: name), file, n, log. auto.
  - split; [discriminate|]. split; [discriminate|].
    intros status error' H; inversion H; subst. right. split; [reflexivity|].
    exists (c :: name), file. auto.
Qed.

(** X23: the form field [format] has no effect on the answer, whatever
    the style; and a request without a style, or with a style other than
    ['mla'], ['apa'] and ['bluebook'], is answered as one that asks for
    ['chicago']. *)
Theorem route_defaults (file : option (str * upload)) (style : option str)
  (format format' : option str) :
  process rt net secure_filename
    {| req_file := file; req_style := style; req_format := format |}
  = process rt net secure_filename
      {| req_file := file; req_style := style; req_format := format' |} /\
  ((forall s, style = Some s -> falls_back s = true) ->
   process rt net secure_filename
     {| req_file := file; req_style := style; req_format := format |}
   = process rt net secure_filename
       {| req_file := file; req_style := Some (py "chicago");
          req_format := format |}).
Proof.
  split; [reflexivity|].
  intros H. unfold process. cbn [req_file req_style req_format].
  destruct file as [[file_name upload]|]; [|reflexivity].
  destruct file_name as [|c name]; [reflexivity|].
  destruct (allowed_file rt (c :: name)) as [[|]|e]; try reflexivity.
  destruct style as [s|].
  - rewrite (@process_document_fallback rt net upload s
               match format with
               | Some f => str_eqb f (py "incipit")
               | None => false
               end
               match format with
               | Some f => str_eqb f (py "incipit")
               | None => false
               end (H s eq_refl)).
    reflexivity.
  - reflexivity.
Qed.

End RouteFacts.

Lemma route_answers_witness :
  exists body,
    process plain_runtime net_down (fun name => name)
      {| req_file := Some (py "Thesis.DOCX", Zip sample_members);
         req_style := Some (py "apa"); req_format := None |}
    = Attachment (py "Thesis_formatted.docx") body /\
    process_document plain_runtime net_down (Zip sample_members) (py "apa")
      false
    = (Success 1 [ {| log_id := py "1";
                      log_original := py "Smith, Title";
                      log_formatted := py "Smith <em>Title</em>." |} ],
       Some body).
Proof.
  destruct (process plain_runtime net_down (fun name => name)
              {| req_file := Some (py "Thesis.DOCX", Zip sample_members);
                 req_style := Some (py "apa"); req_format := None |})
    as [status error|download_name body|] eqn:E;
    [vm_compute in E; discriminate E | | vm_compute in E; discriminate E].
  destruct (proj1 (proj2 (route_answers plain_runtime net_down
                            (fun name => name) _)) _ _ E)
    as (file_name & file & n & log & Hf & _ & Hn & Hp).
  cbn [req_file] in Hf. inversion Hf; subst file_name file; clear Hf.
  exists body. split.
  - rewrite Hn. reflexivity.
  - change (style_of _) with (py "apa") in Hp. rewrite Hp.
    vm_compute in Hp. inversion Hp. reflexivity.
Defined.

Lemma route_defaults_witness :
  process plain_runtime net_down (fun name => name)
    {| req_file := Some (py "a.docx", Zip sample_members);
       req_style := Some (py "harvard");
       req_format := Some (py "incipit") |}
  = process plain_runtime net_down (fun name => name)
      {| req_file := Some (py "a.docx", Zip sample_members);
         req_style := Some (py "chicago"); req_format := None |}.
Proof.
  destruct (route_defaults plain_runtime net_down (fun name => name)
              (Some (py "a.docx", Zip sample_members))
              (Some (py "harvard")) (Some (py "incipit")) None) as [F S].
  rewrite F. apply (proj2 (route_defaults plain_runtime net_down
                             (fun name => name)
                             (Some (py "a.docx", Zip sample_members))
                             (Some (py "harvard")) None None)).
  intros s H. inversion H. reflexivity.
Defined.

(** ** When extraction fails *)

Lemma join_values_cases (runs : list node) :
  if existsb element_first runs
  then join_values (map first_value runs) = Raise TypeError
  else exists text, join_values (map first_value runs) = Ok text.
Proof.
  induction runs as [|t runs IH]; cbn [existsb map join_values]; [eauto|].
  unfold element_first at 1, first_value at 1 3.
  destruct (children t) as [|[s|tag attrs ch] rest]; cbn [orb empty];
    try reflexivity;
    (destruct (existsb element_first runs);
     [ rewrite IH; reflexivity
     | destruct IH as [text ->]; cbn [bind]; eauto ]).
Qed.

Lemma extract_loop_cases notes : forall acc,
  if forallb readable notes
  then exists endnotes, extract_loop notes acc = Ok endnotes
  else extract_loop notes acc = Raise TypeError.
Proof.
  induction notes as [|e notes IH]; intros acc;
    cbn [forallb extract_loop]; [eauto|].
  unfold readable at 1, read_note, note_id_of.
  destruct (getAttribute e w_id) as [|c k]; [exact (IH acc)|].
  destruct (reserved (c :: k)); cbn [negb orb andb]; [exact (IH acc)|].
  unfold full_text. pose proof (join_values_cases (getElementsByTagName e w_t)) as J.
  destruct (existsb element_first (getElementsByTagName e w_t)); cbn [negb andb].
  - rewrite J. reflexivity.
  - destruct J as [text ->]. cbn [bind]. apply IH.
Qed.

(** X24: extraction of a parsed document fails in one case only, and then
    with [TypeError]: when a note it reads, one with an id that is not
    reserved, has a text run whose first child is an element.  On every
    other document it returns a mapping. *)
Theorem extract_fails_on_element_run (dom : node) :
  if forallb readable (document_endnotes dom)
  then exists endnotes, extract_endnotes (Xml dom) = Ok endnotes
  else extract_endnotes (Xml dom) = Raise TypeError.
Proof.
  unfold extract_endnotes. cbn [parseString bind]. apply extract_loop_cases.
Qed.

(** X25: a document with such a text run is refused as a whole: the
    result is a failure that carries the text of the [TypeError], and no
    output is written. *)
Theorem element_run_fails_document rt net (members : dict content)
  (dom : node) (citation_style : str) (use_incipit : bool) :
  dict_get members endnotes_member = Some (Xml dom) ->
  forallb readable (document_endnotes dom) = false ->
  process_document rt net (Zip members) citation_style use_incipit
  = (Failure (StrOf TypeError), None).
Proof.
  intros Hm Hr. unfold process_document, unpack_docx. rewrite Hm.
  unfold process_endnotes.
  pose proof (extract_loop_cases (document_endnotes dom) []) as X.
  rewrite Hr in X. unfold extract_endnotes. cbn [parseString bind].
  rewrite X. reflexivity.
Qed.

Lemma element_run_fails_document_witness :
  process_document plain_runtime net_down
    (Zip [ (endnotes_member, Xml break_document) ]) (py "mla") false
  = (Failure (StrOf TypeError), None).
Proof.
  apply (@element_run_fails_document plain_runtime net_down
           [ (endnotes_member, Xml break_document) ] break_document
           (py "mla") false); reflexivity.
Defined.

Lemma parse_author_title_shape_witness :
  dict_get (parse_endnote_text plain_runtime (py "Smith, Title, 1999."))
    (py "author") = Some (PStr (py "Smith")) /\
  existsb (N.eqb 44) (py "Smith") = false.
Proof.
  split; [reflexivity|].
  exact (proj2 (proj1 (parse_author_title_shape plain_runtime
                         (py "Smith, Title, 1999."))
                  (py "Smith") eq_refl)).
Defined.

(** ** The lookup under a standard output that takes every line *)

(** X26: when standard output takes the line the handler prints, the
    lookup never raises.  Without author and title it returns [None] and
    sends nothing; when the request raises (a timeout, a transport
    failure), when the response is not OK, when its body is not JSON, and
    when anything else fails inside the [try] block, it returns [None]; and
    a note whose lookup returns [None] goes on with its parsed fields. *)
Theorem quiet_lookup_degrades rt net author title :
  quiet rt ->
  let q := lookup_query rt author title in
  let sent_result := lookup_citation rt net author title in
  (exists r, snd sent_result = Ok r) /\
  (truthy author = false -> truthy title = false ->
   sent_result = ([], Ok None)) /\
  (forall e, net q = HttpRaises e -> snd sent_result = Ok None) /\
  (forall json, net q = HttpResponse false json -> snd sent_result = Ok None) /\
  (forall e, net q = HttpResponse true (Raise e) -> snd sent_result = Ok None) /\
  (forall e, lookup_try rt (net q) author title = Raise e ->
   snd sent_result = Ok None) /\
  (forall note_text,
     let parsed := parse_endnote_text rt note_text in
     snd (lookup_citation rt net (get parsed (py "author"))
            (get parsed (py "title"))) = Ok None ->
     resolve_note rt net note_text = Ok parsed).
Proof.
  intros Hq. cbv zeta.
  assert (Hsnd : snd (lookup_citation rt net author title)
                 = if negb (truthy (py_or author title)) then Ok None
                   else match lookup_try rt (net (lookup_query rt author title))
                                author title with
                        | Ok r => Ok r
                        | Raise _ => Ok None
                        end).
  { unfold lookup_citation.
    destruct (negb (truthy (py_or author title))); [reflexivity|].
    cbn [snd]. destruct (lookup_try _ _ _ _); [reflexivity|].
    rewrite Hq. reflexivity. }
  split; [apply lookup_citation_ok, Hq|].
  split.
  { intros Ha Ht. unfold lookup_citation, py_or. rewrite Ha, Ht. reflexivity. }
  repeat split.
  - intros e H. rewrite Hsnd, H. destruct (negb _); reflexivity.
  - intros json H. rewrite Hsnd, H. destruct (negb _); reflexivity.
  - intros e H. rewrite Hsnd, H. destruct (negb _); reflexivity.
  - intros e H. rewrite Hsnd, H. destruct (negb _); reflexivity.
  - clear Hsnd. intros note_text H. unfold resolve_note. rewrite H.
    destruct (truthy _); reflexivity.
Qed.

Lemma quiet_lookup_degrades_witness :
  quiet plain_runtime /\
  net_down (lookup_query plain_runtime (PStr (py "Smith")) PNone)
  = HttpRaises Timeout /\
  lookup_citation plain_runtime net_down (PStr (py "Smith")) PNone
  = ([py "Smith"], Ok None).
Proof.
  assert (Q : quiet plain_runtime) by (intros query e; reflexivity).
  pose proof (quiet_lookup_degrades net_down (PStr (py "Smith")) PNone Q)
    as (_ & _ & H & _).
  split; [exact Q|]. split; [reflexivity|].
  specialize (H Timeout eq_refl).
  destruct (lookup_citation plain_runtime net_down (PStr (py "Smith")) PNone)
    as [sent r] eqn:E.
  simpl in H. subst r. vm_compute in E. inversion E. reflexivity.
Defined.
